(** * Raid correlation engine of the Chambers of Xeric tracker

    A shallow embedding of [src/services/googleSheets.js]: the registry of
    recent raids, the orphan buffers, the three event handlers and the
    retrying persistence calls, followed by the properties established
    about them.

    Conventions of the embedding.
    - Timestamps are the millisecond values [new Date(ts).getTime()]
      yields, as [Z]; points are integers, as [Z].
    - The module-level variables of the source ([sheetsClient],
      [lastRateLimitError], [recentRaids], [orphanedMessages]) are fields
      of one record, [World], together with the environment a run depends
      on: the clock read by [Date.now()], the answers the spreadsheet
      service will give to the next external calls, and the trace of
      external calls and timers issued so far.
    - An [async] function is a computation [M A]: it takes a world and
      returns either a value or a thrown exception, with the world as it
      is at that point (an exception does not undo earlier mutations).
    - The clock stands still while code runs and moves by the length of
      every awaited timer; between two events the environment sets it.
      Events are handled one at a time, each to completion.
    - A raid object held in a local variable is a position in
      [recentRaids]; a mutation through the variable rewrites that
      position.
    - The callback scheduled with [setTimeout] for a raid that has no
      row yet is recorded in the trace when it is scheduled; it runs
      outside the handlers and is not part of them. *)

From Stdlib Require Import ZArith Lia Bool Ascii String.
From stdpp Require Import base list strings sorting.

Local Open Scope string_scope.
Local Open Scope list_scope.
Local Open Scope Z_scope.

(** ** Constants of the module *)

Definition RATE_LIMIT_COOLDOWN : Z := 60000.
Definition MAX_RAID_HISTORY : nat := 10.
Definition RAID_TIMEOUT : Z := 300000.
Definition ORPHAN_TIMEOUT : Z := 10000.
Definition MAX_PLAYERS : nat := 5.
Definition MIN_TEAM_SIZE : Z := 10.
Definition MIN_POINTS_THRESHOLD : Z := 2000.
Definition MERGE_WINDOW : Z := 3000.
Definition MAX_RETRIES : nat := 3.
Definition RETRY_DELAY : Z := 2000.
Definition MAX_DATA_AGE : Z := 300000.

(** ** Data model *)

Record Player := mkPlayer { name : string; points : Z }.

Module Raid.
Record t := mk {
    timestamp : Z;
    totalPoints : option Z;          (* null until a points message sets it *)
    completionTime : string;         (* '' while unknown *)
    scale : string;                  (* '' while unknown *)
    uniqueDrop : string;             (* '' while there is no loot *)
    players : list Player;
    sheetRow : option Z;
    addedToSheet : bool
  }.

Definition setTotalPoints (v : option Z) (r : t) : t :=
    mk (timestamp r) v (completionTime r) (scale r) (uniqueDrop r)
       (players r) (sheetRow r) (addedToSheet r).
Definition setCompletionTime (v : string) (r : t) : t :=
    mk (timestamp r) (totalPoints r) v (scale r) (uniqueDrop r)
       (players r) (sheetRow r) (addedToSheet r).
Definition setScale (v : string) (r : t) : t :=
    mk (timestamp r) (totalPoints r) (completionTime r) v (uniqueDrop r)
       (players r) (sheetRow r) (addedToSheet r).
Definition setUniqueDrop (v : string) (r : t) : t :=
    mk (timestamp r) (totalPoints r) (completionTime r) (scale r) v
       (players r) (sheetRow r) (addedToSheet r).
Definition pushPlayer (p : Player) (r : t) : t :=
    mk (timestamp r) (totalPoints r) (completionTime r) (scale r)
       (uniqueDrop r) (players r ++ [p]) (sheetRow r) (addedToSheet r).
Definition setSheetRow (n : Z) (r : t) : t :=
    mk (timestamp r) (totalPoints r) (completionTime r) (scale r)
       (uniqueDrop r) (players r) (Some n) true.
End Raid.

(** The three kinds of parsed message, as the parser builds them. *)
Module PointsData.
Record t := mk {
    timestamp : Z;
    totalPoints : option Z;
    raidTime : option string;
    players : list Player
  }.
End PointsData.

Module DurationData.
Record t := mk {
    timestamp : Z;
    raidTime : string;
    scale : option string;
    playerName : option string
  }.
End DurationData.

Module LootData.
Record t := mk {
    timestamp : Z;
    itemName : string;
    playerName : option string
  }.
End LootData.

Inductive Event :=
| Points (data : PointsData.t)
| Duration (data : DurationData.t)
| Loot (data : LootData.t)
| Other (type : string).            (* any [data.type] besides the three *)

(** Entries of [orphanedMessages.durations] and [orphanedMessages.loots]. *)
Module DurationOrphan.
Record t := mk {
    timestamp : Z;
    raidTime : string;
    scale : option string;
    playerName : option string
  }.
End DurationOrphan.

Module LootOrphan.
Record t := mk {
    timestamp : Z;
    itemName : string;
    playerName : option string
  }.
End LootOrphan.

(** ** JavaScript idioms *)

(** Truthiness of a string and of a nullable string. *)
Definition truthy (s : string) : bool :=
  match s with EmptyString => false | String _ _ => true end.

Definition truthyOpt (o : option string) : bool :=
  match o with Some s => truthy s | None => false end.

(** [x || null] and [x || ''] on a nullable string. *)
Definition orNull (o : option string) : option string :=
  if truthyOpt o then o else None.

Definition orEmpty (o : option string) : string :=
  match o with Some s => s | None => "" end.

(** [hay.includes(needle)]. *)
Fixpoint includes (needle hay : string) : bool :=
  String.prefix needle hay ||
  match hay with
  | EmptyString => false
  | String _ hay' => includes needle hay'
  end.

(** The loop [for (let i = n - 1; i >= 0; i--) if (p(l[i])) return l[i]]:
    the call with [i := length l] examines positions [i-1] down to [0] and
    yields the first hit with its position. *)
Fixpoint scanDown {A} (p : A -> bool) (l : list A) (i : nat) : option (nat * A) :=
  match i with
  | O => None
  | S j =>
      match l !! j with
      | Some x => if p x then Some (j, x) else scanDown p l j
      | None => scanDown p l j
      end
  end.

(** [Array.prototype.sort(cmp)], which is stable: an element stays before
    the later elements it compares equal to. *)
Fixpoint sortInsert {A} (cmp : A -> A -> Z) (x : A) (l : list A) : list A :=
  match l with
  | [] => [x]
  | y :: l' => if cmp x y <=? 0 then x :: y :: l' else y :: sortInsert cmp x l'
  end.

Definition sort {A} (cmp : A -> A -> Z) (l : list A) : list A :=
  foldr (sortInsert cmp) [] l.

(** ** The world: module state and environment *)

(** A cell of a spreadsheet row. The timestamp cell is the raid's
    timestamp; its rendering in the New York time zone is left to the
    locale library. *)
Inductive Cell := Text (s : string) | Number (n : Z) | Time (t : Z).

Definition Row := list Cell.

(** Answer of the spreadsheet service to one external call: success (for
    [values.append], with the row number read from the updated range when
    the response carries one), or a thrown error with its [code] and
    whether its message mentions 'rate limit'. *)
Inductive Response :=
| Success (updatedRow : option Z)
| Failure (code : Z) (rateLimitMessage : bool).

Inductive Exn :=
| ApiError (code : Z) (rateLimitMessage : bool)
| AppendRetriesExhausted   (* 'Failed to append row after 3 retries due to rate limiting' *)
| UnknownDataType (type : string).

(** External calls and timers, in the order they are issued. *)
Inductive Action :=
| InitClient                       (* auth.getClient(), google.sheets() *)
| EnsureSheets                     (* spreadsheets.get and sheet creation *)
| Append (row : Row)               (* spreadsheets.values.append *)
| Update (rowNumber : Z) (row : Row) (* spreadsheets.values.update *)
| Wait (ms : Z)                    (* await new Promise(r => setTimeout(r, ms)) *)
| ScheduleUpdate (delay : Z).      (* setTimeout(async () => ..., delay), not awaited *)

Record World := mkWorld {
  sheetsClient : bool;                 (* is a client handle cached? *)
  lastRateLimitError : Z;
  recentRaids : list Raid.t;
  durations : list DurationOrphan.t;   (* orphanedMessages.durations *)
  loots : list LootOrphan.t;           (* orphanedMessages.loots *)
  clock : Z;                           (* Date.now() *)
  pending : list Response;             (* answers to the coming calls *)
  trace : list Action
}.

Definition setSheetsClient (b : bool) (w : World) : World :=
  mkWorld b (lastRateLimitError w) (recentRaids w) (durations w) (loots w)
          (clock w) (pending w) (trace w).
Definition setLastRateLimitError (t : Z) (w : World) : World :=
  mkWorld (sheetsClient w) t (recentRaids w) (durations w) (loots w)
          (clock w) (pending w) (trace w).
Definition setRecentRaids (l : list Raid.t) (w : World) : World :=
  mkWorld (sheetsClient w) (lastRateLimitError w) l (durations w) (loots w)
          (clock w) (pending w) (trace w).
Definition setDurations (l : list DurationOrphan.t) (w : World) : World :=
  mkWorld (sheetsClient w) (lastRateLimitError w) (recentRaids w) l (loots w)
          (clock w) (pending w) (trace w).
Definition setLoots (l : list LootOrphan.t) (w : World) : World :=
  mkWorld (sheetsClient w) (lastRateLimitError w) (recentRaids w) (durations w) l
          (clock w) (pending w) (trace w).
Definition setClock (t : Z) (w : World) : World :=
  mkWorld (sheetsClient w) (lastRateLimitError w) (recentRaids w) (durations w)
          (loots w) t (pending w) (trace w).
Definition setPending (l : list Response) (w : World) : World :=
  mkWorld (sheetsClient w) (lastRateLimitError w) (recentRaids w) (durations w)
          (loots w) (clock w) l (trace w).
Definition emit (a : Action) (w : World) : World :=
  mkWorld (sheetsClient w) (lastRateLimitError w) (recentRaids w) (durations w)
          (loots w) (clock w) (pending w) (trace w ++ [a]).

(** A raid variable: the position of the object in [recentRaids], or
    [None] for an object that is no longer in the registry. *)
Definition writeRaid (ref : option nat) (raid : Raid.t) (w : World) : World :=
  match ref with
  | Some i => setRecentRaids (<[i := raid]> (recentRaids w)) w
  | None => w
  end.

(** ** Computations over the world *)

Inductive Result (A : Type) :=
| Ok (a : A)
| Throw (e : Exn).
Arguments Ok {A} a.
Arguments Throw {A} e.

Definition M (A : Type) : Type := World -> Result A * World.

Definition ret {A} (a : A) : M A := fun w => (Ok a, w).
Definition throw {A} (e : Exn) : M A := fun w => (Throw e, w).
Definition bind {A B} (m : M A) (k : A -> M B) : M B := fun w =>
  match m w with
  | (Ok a, w') => k a w'
  | (Throw e, w') => (Throw e, w')
  end.
(** [try { m } catch (error) { h error }] *)
Definition tryCatch {A} (m : M A) (h : Exn -> M A) : M A := fun w =>
  match m w with
  | (Ok a, w') => (Ok a, w')
  | (Throw e, w') => h e w'
  end.
Definition get {A} (f : World -> A) : M A := fun w => (Ok (f w), w).
Definition modify (f : World -> World) : M unit := fun w => (Ok tt, f w).
Definition when (b : bool) (m : M unit) : M unit := if b then m else ret tt.

Declare Scope js_scope.
Delimit Scope js_scope with js.
Notation "x <- m ;; k" := (bind m (fun x => k))
  (at level 100, m at next level, right associativity) : js_scope.
Notation "m ;; k" := (bind m (fun _ => k))
  (at level 100, right associativity) : js_scope.
Local Open Scope js_scope.

(** One external call: it is recorded in the trace and answered by the
    next pending response (a service with nothing scripted succeeds). *)
Definition call (a : Action) : M (option Z) := fun w =>
  let w' := emit a w in
  match pending w' with
  | [] => (Ok None, w')
  | Success r :: rest => (Ok r, setPending rest w')
  | Failure c m :: rest => (Throw (ApiError c m), setPending rest w')
  end.

(** [await new Promise(resolve => setTimeout(resolve, ms))] *)
Definition wait (ms : Z) : M unit :=
  modify (fun w => emit (Wait ms) (setClock (clock w + ms) w)).

(** ** Team-size filter *)

Definition isDigit (c : ascii) : bool :=
  let n := nat_of_ascii c in (48 <=? n)%nat && (n <=? 57)%nat.

(** The capture of [/^(\d+)/]: the longest prefix of decimal digits. *)
Fixpoint leadingDigits (s : string) : string :=
  match s with
  | EmptyString => EmptyString
  | String c s' => if isDigit c then String c (leadingDigits s') else EmptyString
  end.

Fixpoint parseDigits (acc : Z) (s : string) : Z :=
  match s with
  | EmptyString => acc
  | String c s' => parseDigits (acc * 10 + (Z.of_nat (nat_of_ascii c) - 48)) s'
  end.

(** [parseInt(digits, 10)] on a string of decimal digits. *)
Definition parseInt (digits : string) : Z := parseDigits 0 digits.

Definition isScaleLargeEnough (scale : string) : bool :=
  if negb (truthy scale) then true
  else
    let m := leadingDigits scale in
    if negb (truthy m) then true
    else
      let minPlayers := parseInt m in
      minPlayers >=? MIN_TEAM_SIZE.

(** ** Orphan buffers *)

Definition cleanOrphans (w : World) : World :=
  let now := clock w in
  let cutoff := now - ORPHAN_TIMEOUT in
  let w1 :=
    setDurations
      (List.filter (fun orphan => DurationOrphan.timestamp orphan >=? cutoff)
                   (durations w)) w in
  setLoots
    (List.filter (fun orphan => LootOrphan.timestamp orphan >=? cutoff)
                 (loots w1)) w1.

(** The first loop of [mergeOrphansWithRaid]: positions [i], [i+1], ... of
    the duration buffer are visited in order; [best] is
    [(closestIndex, closestTimeDiff)], [None] standing for [-1] and
    [Infinity]. *)
Fixpoint closestDuration (raidTime : Z) (l : list DurationOrphan.t) (i : nat)
    (best : option (nat * Z)) : option (nat * Z) :=
  match l with
  | [] => best
  | orphan :: l' =>
      let timeDiff := raidTime - DurationOrphan.timestamp orphan in
      let closer :=
        match best with
        | None => true
        | Some (_, closestTimeDiff) => timeDiff <? closestTimeDiff
        end in
      closestDuration raidTime l' (S i)
        (if (timeDiff >=? 0) && (timeDiff <=? MERGE_WINDOW) && closer
         then Some (i, timeDiff) else best)
  end.

(** An entry of [matchingOrphans]. *)
Record LootMatch := mkLootMatch {
  index : nat;
  orphan : LootOrphan.t;
  timeDiff : Z
}.

(** The second loop: positions [i-1] down to [0] of the loot buffer, the
    qualifying ones pushed in that order. *)
Fixpoint matchingLoots (raidTime : Z) (l : list LootOrphan.t) (i : nat)
    : list LootMatch :=
  match i with
  | O => []
  | S j =>
      match l !! j with
      | Some orphan =>
          let timeDiff := raidTime - LootOrphan.timestamp orphan in
          if (timeDiff >=? 0) && (timeDiff <=? MERGE_WINDOW)
          then mkLootMatch j orphan timeDiff :: matchingLoots raidTime l j
          else matchingLoots raidTime l j
      | None => matchingLoots raidTime l j
      end
  end.

(** ["(" + playerName + ") - " + itemName], or the bare item. *)
Definition lootMessage (playerName : option string) (itemName : string) : string :=
  match orNull playerName with
  | Some p => "(" +:+ p +:+ ") - " +:+ itemName
  | None => itemName
  end.

(** Append to the existing loot or set it. *)
Definition addLoot (message : string) (raid : Raid.t) : Raid.t :=
  if truthy (Raid.uniqueDrop raid)
  then Raid.setUniqueDrop (Raid.uniqueDrop raid +:+ ", " +:+ message) raid
  else Raid.setUniqueDrop message raid.

Definition mergeDurationOrphan (raid : Raid.t) (w : World) : bool * Raid.t * World :=
  let raidTime := Raid.timestamp raid in
  if negb (truthy (Raid.completionTime raid)) && (0 <? length (durations w))%nat then
    match closestDuration raidTime (durations w) 0 None with
    | Some (closestIndex, _) =>
        match durations w !! closestIndex with
        | Some durationOrphan =>
            let w' := setDurations (delete closestIndex (durations w)) w in
            let raid1 := Raid.setCompletionTime (DurationOrphan.raidTime durationOrphan) raid in
            let raid2 :=
              match orNull (DurationOrphan.scale durationOrphan) with
              | Some s => Raid.setScale s raid1
              | None => raid1
              end in
            (true, raid2, w')
        | None => (false, raid, w)
        end
    | None => (false, raid, w)
    end
  else (false, raid, w).

Definition mergeLootOrphans (raid : Raid.t) (w : World) : bool * Raid.t * World :=
  let raidTime := Raid.timestamp raid in
  if (0 <? length (loots w))%nat then
    let matchingOrphans := matchingLoots raidTime (loots w) (length (loots w)) in
    if (0 <? length matchingOrphans)%nat then
      let sorted := sort (fun a b => timeDiff a - timeDiff b) matchingOrphans in
      let raid' :=
        foldl (fun r m =>
                 addLoot (lootMessage (LootOrphan.playerName (orphan m))
                                      (LootOrphan.itemName (orphan m))) r)
              raid sorted in
      let indicesToRemove :=
        sort (fun a b => Z.of_nat b - Z.of_nat a) (map index sorted) in
      (true, raid', setLoots (foldl (fun l idx => delete idx l) (loots w) indicesToRemove) w)
    else (false, raid, w)
  else (false, raid, w).

(** The result is [(merged, raid, world)]: the flag the source returns,
    the raid as mutated, and the world with the consumed orphans removed. *)
Definition mergeOrphansWithRaid (raid : Raid.t) (w : World) : bool * Raid.t * World :=
  let '(merged1, raid1, w1) := mergeDurationOrphan raid w in
  let '(merged2, raid2, w2) := mergeLootOrphans raid1 w1 in
  (merged1 || merged2, raid2, w2).

(** ** Registry of recent raids *)

(** The loop [while (recentRaids.length > 0) { if (oldest is before the
    cutoff) shift() else break }]. *)
Fixpoint evictOld (cutoff : Z) (l : list Raid.t) : list Raid.t :=
  match l with
  | [] => []
  | oldestRaid :: l' =>
      if Raid.timestamp oldestRaid <? cutoff then evictOld cutoff l' else l
  end.

(** The result is the new raid and the world with the raid pushed and the
    registry trimmed. *)
Definition createRaidEntry (data : PointsData.t) (w : World) : Raid.t * World :=
  let filteredPlayers :=
    take MAX_PLAYERS
      (List.filter (fun p => points p >=? MIN_POINTS_THRESHOLD)
                   (PointsData.players data)) in
  let raid :=
    Raid.mk (PointsData.timestamp data) (PointsData.totalPoints data)
            (orEmpty (orNull (PointsData.raidTime data))) "" ""
            filteredPlayers None false in
  let pushed := recentRaids w ++ [raid] in
  let capped :=
    if (MAX_RAID_HISTORY <? length pushed)%nat then drop 1 pushed else pushed in
  let now := clock w in
  let cutoff := now - RAID_TIMEOUT in
  (raid, setRecentRaids (evictOld cutoff capped) w).

(** Position of the raid [createRaidEntry] has just pushed: the last one,
    unless the trimming emptied the registry. *)
Definition newestRef (w : World) : option nat :=
  match recentRaids w with
  | [] => None
  | _ :: l => Some (length l)
  end.

Definition hasPlayer (playerName : option string) (raid : Raid.t) : bool :=
  match playerName with
  | Some n => existsb (fun p => String.eqb (name p) n) (Raid.players raid)
  | None => false
  end.

Definition findRaidForLoot (lootData : LootData.t) (w : World) : option (nat * Raid.t) :=
  let TIME_WINDOW := 60000 in
  let now := clock w in
  match
    scanDown (fun raid =>
                (now - Raid.timestamp raid <=? TIME_WINDOW)
                && hasPlayer (LootData.playerName lootData) raid)
             (recentRaids w) (length (recentRaids w))
  with
  | Some hit => Some hit
  | None =>
      scanDown (fun raid => now - Raid.timestamp raid <=? TIME_WINDOW)
               (recentRaids w) (length (recentRaids w))
  end.

(** [raid.totalPoints - totalPoints] with a null [raid.totalPoints]: the
    subtraction converts null to 0. *)
Definition toNumber (o : option Z) : Z :=
  match o with Some n => n | None => 0 end.

(** The test [findRaidByTotalPoints] applies to one raid. *)
Definition matchesTotalPoints (now : Z) (totalPoints : option Z) (raid : Raid.t) : bool :=
  let TIME_WINDOW := 120000 in
  let POINTS_TOLERANCE := 500 in
  let timeDiff := now - Raid.timestamp raid in
  match totalPoints with
  | Some tp =>
      let pointsDiff := Z.abs (toNumber (Raid.totalPoints raid) - tp) in
      (pointsDiff <=? POINTS_TOLERANCE) && (timeDiff <=? TIME_WINDOW)
  | None =>
      match Raid.totalPoints raid with
      | None => timeDiff <=? TIME_WINDOW
      | Some _ => false
      end
  end.

Definition findRaidByTotalPoints (totalPoints : option Z) (w : World)
    : option (nat * Raid.t) :=
  let now := clock w in
  scanDown (matchesTotalPoints now totalPoints) (recentRaids w) (length (recentRaids w)).

(** ** Rows *)

Definition numberOrEmpty (o : option Z) : Cell :=
  match o with
  | Some n => if n =? 0 then Text "" else Number n
  | None => Text ""
  end.

Definition playerCells (players : list Player) (i : nat) : list Cell :=
  match players !! i with
  | Some p => [Text (name p); numberOrEmpty (Some (points p))]
  | None => [Text ""; Text ""]
  end.

Definition raidToRow (raid : Raid.t) : Row :=
  [Time (Raid.timestamp raid);
   numberOrEmpty (Raid.totalPoints raid);
   Text (Raid.completionTime raid);
   Text (Raid.uniqueDrop raid)]
  ++ flat_map (playerCells (Raid.players raid)) (seq 0 MAX_PLAYERS)
  ++ [Text (Raid.scale raid)].

(** ** Persistence calls *)

(** Both functions log and rethrow what they catch. *)
Definition initializeSheetsClient : M unit :=
  call InitClient ;;
  modify (setSheetsClient true).

Definition ensureSheetsExist : M unit :=
  client <- get sheetsClient ;;
  when (negb client) initializeSheetsClient ;;
  call EnsureSheets ;;
  ret tt.

Definition isRateLimit (error : Exn) : bool :=
  match error with
  | ApiError code rateLimitMessage => (code =? 429) || rateLimitMessage
  | AppendRetriesExhausted => true
  | UnknownDataType _ => false
  end.

Definition isAuthError (error : Exn) : bool :=
  match error with
  | ApiError code _ => (code =? 401) || (code =? 403)
  | _ => false
  end.

(** The cooldown check at the head of both calls. *)
Definition awaitCooldown : M unit :=
  now <- get clock ;;
  last <- get lastRateLimitError ;;
  when (now - last <? RATE_LIMIT_COOLDOWN)
       (wait (RATE_LIMIT_COOLDOWN - (now - last))).

Definition ensureClient : M unit :=
  client <- get sheetsClient ;;
  when (negb client) (initializeSheetsClient ;; ensureSheetsExist).

(** [appendRow(sheetName, row, retryCount)] with
    [retryCount = MAX_RETRIES - retriesLeft]: the test
    [retryCount < MAX_RETRIES] is [retriesLeft] being a successor, and the
    recursive call with [retryCount + 1] is the call on its predecessor. *)
Fixpoint appendRowFrom (retriesLeft : nat) (row : Row) : M (option Z) :=
  let retryCount := (MAX_RETRIES - retriesLeft)%nat in
  tryCatch
    (awaitCooldown ;;
     ensureClient ;;
     call (Append row))
    (fun error =>
       if isRateLimit error then
         now <- get clock ;;
         modify (setLastRateLimitError now) ;;
         match retriesLeft with
         | S n =>
             let delay := RETRY_DELAY * 2 ^ Z.of_nat retryCount in
             wait delay ;;
             appendRowFrom n row
         | O => throw AppendRetriesExhausted
         end
       else if isAuthError error then
         modify (setSheetsClient false) ;;
         match retriesLeft with
         | S n =>
             wait RETRY_DELAY ;;
             appendRowFrom n row
         | O => throw error
         end
       else throw error).

Definition appendRow (row : Row) : M (option Z) := appendRowFrom MAX_RETRIES row.

Fixpoint updateRowFrom (retriesLeft : nat) (rowNumber : Z) (row : Row) : M unit :=
  let retryCount := (MAX_RETRIES - retriesLeft)%nat in
  tryCatch
    (awaitCooldown ;;
     ensureClient ;;
     call (Update rowNumber row) ;;
     ret tt)
    (fun error =>
       if isRateLimit error then
         now <- get clock ;;
         modify (setLastRateLimitError now) ;;
         match retriesLeft with
         | S n =>
             let delay := RETRY_DELAY * 2 ^ Z.of_nat retryCount in
             wait delay ;;
             updateRowFrom n rowNumber row
         | O => throw error
         end
       else throw error).

Definition updateRow (rowNumber : Z) (row : Row) : M unit :=
  updateRowFrom MAX_RETRIES rowNumber row.

(** ** Event handlers *)

(** A synchronous function reading and updating the module state. *)
Definition state {A} (f : World -> A * World) : M A := fun w =>
  let '(a, w') := f w in (Ok a, w').

(** The value of [raid.addedToSheet && raid.sheetRow] when truthy. *)
Definition persistedRow (raid : Raid.t) : option Z :=
  if Raid.addedToSheet raid then
    match Raid.sheetRow raid with
    | Some n => if n =? 0 then None else Some n
    | None => None
    end
  else None.

Definition playerExists (n : string) (raid : Raid.t) : bool :=
  existsb (fun p => String.eqb (name p) n) (Raid.players raid).

(** The found-raid branch of [handleRaidCompletion]: [raid] sits at
    position [i]. *)
Definition addToExistingRaid (data : PointsData.t) (i : nat) (raid : Raid.t)
    : M (option Raid.t) :=
  let raid :=
    match Raid.totalPoints raid with
    | None => Raid.setTotalPoints (PointsData.totalPoints data) raid
    | Some _ => raid
    end in
  modify (writeRaid (Some i) raid) ;;
  match head (PointsData.players data) with
  | Some newPlayer =>
      if points newPlayer <? MIN_POINTS_THRESHOLD then ret (Some raid)
      else if (length (Raid.players raid) <? MAX_PLAYERS)%nat then
        if negb (playerExists (name newPlayer) raid) then
          let raid := Raid.pushPlayer newPlayer raid in
          modify (writeRaid (Some i) raid) ;;
          match persistedRow raid with
          | Some sheetRow =>
              updateRow sheetRow (raidToRow raid) ;;
              ret (Some raid)
          | None =>
              modify (emit (ScheduleUpdate 2000)) ;;
              ret (Some raid)
          end
        else ret (Some raid)
      else ret (Some raid)
  | None => ret (Some raid)
  end.

(** Merging with a placeholder raid at position [i]. *)
Definition promotePlaceholder (data : PointsData.t) (i : nat) (raid : Raid.t)
    : M (option nat * Raid.t) :=
  let raid := Raid.setTotalPoints (PointsData.totalPoints data) raid in
  let raid :=
    match head (PointsData.players data) with
    | Some newPlayer =>
        if (points newPlayer >=? MIN_POINTS_THRESHOLD)
           && (length (Raid.players raid) <? MAX_PLAYERS)%nat
        then
          if negb (playerExists (name newPlayer) raid)
          then Raid.pushPlayer newPlayer raid
          else raid
        else raid
    | None => raid
    end in
  modify (writeRaid (Some i) raid) ;;
  ret (Some i, raid).

(** Creating a new raid entry and merging the orphans into it. *)
Definition createAndMerge (data : PointsData.t) : M (option nat * Raid.t) :=
  raid <- state (createRaidEntry data) ;;
  ref <- get newestRef ;;
  merged <- state (fun w => let '(m, r, w') := mergeOrphansWithRaid raid w in (r, w')) ;;
  modify (writeRaid ref merged) ;;
  ret (ref, merged).

(** The tail of the branch: write the raid to the sheet. *)
Definition persistRaid (ref : option nat) (raid : Raid.t) : M (option Raid.t) :=
  if bool_decide (Raid.totalPoints raid <> None) && negb (Raid.addedToSheet raid) then
    response <- appendRow (raidToRow raid) ;;
    match response with
    | Some rowNumber =>
        let raid := Raid.setSheetRow rowNumber raid in
        modify (writeRaid ref raid) ;;
        ret (Some raid)
    | None => ret (Some raid)
    end
  else
    match persistedRow raid with
    | Some sheetRow =>
        updateRow sheetRow (raidToRow raid) ;;
        ret (Some raid)
    | None => ret (Some raid)
    end.

Definition handleRaidCompletion (data : PointsData.t) : M (option Raid.t) :=
  now <- get clock ;;
  let dataAge := now - PointsData.timestamp data in
  if dataAge >? MAX_DATA_AGE then ret None
  else
    modify cleanOrphans ;;
    found <- get (findRaidByTotalPoints (PointsData.totalPoints data)) ;;
    match found with
    | Some (i, raid) => addToExistingRaid data i raid
    | None =>
        placeholderRaid <- get (findRaidByTotalPoints None) ;;
        target <-
          match placeholderRaid with
          | Some (i, raid) => promotePlaceholder data i raid
          | None => createAndMerge data
          end ;;
        let '(ref, raid) := target in
        if negb (isScaleLargeEnough (Raid.scale raid)) then ret (Some raid)
        else persistRaid ref raid
    end.

Definition handleDurationUpdate (data : DurationData.t) : M unit :=
  let TIME_THRESHOLD := 60000 in
  modify cleanOrphans ;;
  targetRaid <-
    get (fun w =>
           scanDown (fun raid =>
                       (clock w - Raid.timestamp raid <=? TIME_THRESHOLD)
                       && negb (truthy (Raid.completionTime raid)))
                    (recentRaids w) (length (recentRaids w))) ;;
  match targetRaid with
  | Some (i, raid) =>
      let raid := Raid.setCompletionTime (DurationData.raidTime data) raid in
      let raid :=
        match orNull (DurationData.scale data) with
        | Some s => Raid.setScale s raid
        | None => raid
        end in
      modify (writeRaid (Some i) raid) ;;
      match persistedRow raid with
      | Some sheetRow => updateRow sheetRow (raidToRow raid)
      | None => ret tt
      end
  | None =>
      modify (fun w =>
                setDurations
                  (durations w ++
                   [DurationOrphan.mk (DurationData.timestamp data)
                                      (DurationData.raidTime data)
                                      (orNull (DurationData.scale data))
                                      (orNull (DurationData.playerName data))]) w)
  end.

(** Does the raid's loot already name this player? *)
Definition alreadyHasLoot (playerName : option string) (raid : Raid.t) : bool :=
  truthy (Raid.uniqueDrop raid) &&
  match orNull playerName with
  | Some p => includes ("(" +:+ p +:+ ")") (Raid.uniqueDrop raid)
  | None => false
  end.

Definition handleLootDrop (data : LootData.t) : M unit :=
  modify cleanOrphans ;;
  found <- get (findRaidForLoot data) ;;
  let message := lootMessage (LootData.playerName data) (LootData.itemName data) in
  match found with
  | None =>
      modify (fun w =>
                setLoots
                  (loots w ++
                   [LootOrphan.mk (LootData.timestamp data)
                                  (LootData.itemName data)
                                  (orNull (LootData.playerName data))]) w)
  | Some (i, raid) =>
      if alreadyHasLoot (LootData.playerName data) raid then ret tt
      else
        let raid := addLoot message raid in
        modify (writeRaid (Some i) raid) ;;
        match persistedRow raid with
        | Some sheetRow => updateRow sheetRow (raidToRow raid)
        | None => ret tt
        end
  end.

(** The entry point: dispatch on [data.type]; whatever is caught is logged
    and thrown again. *)
Definition appendToSheet (data : Event) : M unit :=
  tryCatch
    (match data with
     | Points d => handleRaidCompletion d ;; ret tt
     | Duration d => handleDurationUpdate d
     | Loot d => handleLootDrop d
     | Other type => throw (UnknownDataType type)
     end)
    (fun error => throw error).

(** The world the module starts from: nothing recorded yet; the start-up
    initialisation has either cached a client or failed. *)
Definition startup (client : bool) : World :=
  mkWorld client 0 [] [] [] 0 [] [].

(** Delivery of one event: the environment fixes the time of arrival and
    what the service will answer, the entry point runs to completion. *)
Record Delivery := mkDelivery {
  arrival : Z;
  answers : list Response;
  event : Event
}.

(** The world in which a delivery is handled. *)
Definition atArrival (d : Delivery) (w : World) : World :=
  setPending (answers d) (setClock (arrival d) w).

Definition deliver (d : Delivery) (w : World) : Result unit * World :=
  appendToSheet (event d) (atArrival d w).

Definition run (ds : list Delivery) (w : World) : World :=
  foldl (fun w d => snd (deliver d w)) w ds.

(** * Vocabulary of the properties *)

(** ** Lookup by total points *)

(** The two conditions of a match, as propositions. A raid whose
    [totalPoints] is still null enters the difference as 0, which is what
    the subtraction of the source computes. *)
Definition withinTolerance (points : Z) (raid : Raid.t) : Prop :=
  Z.abs (toNumber (Raid.totalPoints raid) - points) <= 500.

Definition withinWindow (now : Z) (raid : Raid.t) : Prop :=
  now - Raid.timestamp raid <= 120000.

Definition qualifies (now : Z) (points : option Z) (raid : Raid.t) : Prop :=
  match points with
  | Some p => withinTolerance p raid /\ withinWindow now raid
  | None => Raid.totalPoints raid = None /\ withinWindow now raid
  end.

(** Two raids inside the window: the older one at distance 0 from the
    points looked up, the newer one at distance 400. *)
Definition olderExact : Raid.t :=
  Raid.mk 1700000000000 (Some 30000) "" "" "" [] None false.
Definition newerNear : Raid.t :=
  Raid.mk 1700000030000 (Some 30400) "" "" "" [] None false.
Definition twoCandidates : World :=
  mkWorld true 0 [olderExact; newerNear] [] [] 1700000060000 [] [].


(** ** Reasoning about computations *)

(** [wp m Q w]: run from [w], the computation [m] ends (normally or by an
    exception) in a result and a world that satisfy [Q]. *)
Definition wp {A} (m : M A) (Q : Result A -> World -> Prop) (w : World) : Prop :=
  Q (m w).1 (m w).2.

(** The registry and the orphan buffers of two worlds agree. *)
Definition sameRecords (w w' : World) : Prop :=
  recentRaids w' = recentRaids w
  /\ durations w' = durations w
  /\ loots w' = loots w.

(** A computation that keeps a relation between a reference world and
    the current one. *)
Definition keeps {A} (Rel : World -> World -> Prop) (m : M A) : Prop :=
  forall w0 w, Rel w0 w -> wp m (fun _ w' => Rel w0 w') w.

(** A relation that survives the elementary effects of the persistence
    calls: trace, pending answers, clock, client handle, cooldown stamp. *)
Definition gatewayStable (Rel : World -> World -> Prop) : Prop :=
  forall w0 w, Rel w0 w ->
    (forall a, Rel w0 (emit a w))
    /\ (forall l, Rel w0 (setPending l w))
    /\ (forall t, Rel w0 (setClock t w))
    /\ (forall b, Rel w0 (setSheetsClient b w))
    /\ (forall t, Rel w0 (setLastRateLimitError t w)).

(** A computation that leaves the registry and the orphan buffers alone. *)
Definition gatewayOnly {A} (m : M A) : Prop := keeps sameRecords m.

(** ** Evolution of a raid *)

Definition eventTotalPoints (e : Event) : option Z :=
  match e with
  | Points d => PointsData.totalPoints d
  | _ => None
  end.

(** What one event carrying [tp] may do to the identity of a raid: the
    timestamp stays, and the total points stay unless they were null and
    become [tp]. *)
Definition raidStep (tp : option Z) (r r' : Raid.t) : Prop :=
  Raid.timestamp r' = Raid.timestamp r
  /\ (Raid.totalPoints r' = Raid.totalPoints r
      \/ (Raid.totalPoints r = None /\ Raid.totalPoints r' = tp)).

(** The player list of a raid once a points message for it has offered
    [newPlayer]. *)
Definition addPlayer (newPlayer : option Player) (players : list Player) : list Player :=
  match newPlayer with
  | Some p =>
      if points p <? MIN_POINTS_THRESHOLD then players
      else if (length players <? MAX_PLAYERS)%nat
              && negb (existsb (fun q => String.eqb (name q) (name p)) players)
      then players ++ [p]
      else players
  | None => players
  end.

(** A raid variable [ref] holding [raid] is in step with the registry. *)
Definition refHolds (ref : option nat) (raid : Raid.t) (w : World) : Prop :=
  match ref with
  | Some i => recentRaids w !! i = Some raid
  | None => True
  end.

(** ** Sample worlds and events *)

(** A full registry: ten raids, twenty seconds apart, all written to the
    sheet, the oldest 200 s old; and an eleventh points message. *)
Definition agedRaid (t : Z) : Raid.t :=
  Raid.mk t (Some 30000) "" "" "" [] (Some 7) true.

Definition fullRegistry : World :=
  mkWorld true 0
    (map (fun i => agedRaid (1700000000000 + 20000 * Z.of_nat i)) (seq 0 10))
    [] [] 1700000200000 [] [].

Definition eleventh : PointsData.t :=
  PointsData.mk 1700000199000 (Some 41000) None [mkPlayer "Hyperr" 20000].

(** ** Well-formed input *)

(** The parser hands over a points message only when it found the total. *)
Definition carriesTotalPoints (e : Event) : Prop :=
  match e with
  | Points d => PointsData.totalPoints d <> None
  | _ => True
  end.

Definition hasTotalPoints (raid : Raid.t) : Prop := Raid.totalPoints raid <> None.

(** A points message, then a duration and a loot message for it. *)
Definition samplePoints : Event :=
  Points (PointsData.mk 1700000000000 (Some 285423) None [mkPlayer "Hyperr" 99816]).
Definition sampleDuration : Event :=
  Duration (DurationData.mk 1700000001000 "46:43.80" (Some "11-15") None).
Definition sampleLoot : Event :=
  Loot (LootData.mk 1700000002000 "Twisted bow" (Some "Hyperr")).
Definition sampleDeliveries : list Delivery :=
  [mkDelivery 1700000000100 [Success (Some 2)] samplePoints;
   mkDelivery 1700000001100 [] sampleDuration;
   mkDelivery 1700000002100 [] sampleLoot].

(** Two states of a raid with the same timestamp, total points and
    players. *)
Definition sameCore (r r' : Raid.t) : Prop :=
  Raid.timestamp r' = Raid.timestamp r
  /\ Raid.totalPoints r' = Raid.totalPoints r
  /\ Raid.players r' = Raid.players r.

(** ** Participants of an occurrence *)

Definition eventPlayers (e : Event) : list Player :=
  match e with
  | Points d => PointsData.players d
  | _ => []
  end.

Definition aboveThreshold (p : Player) : bool := points p >=? MIN_POINTS_THRESHOLD.

Definition sameName (p q : Player) : bool := String.eqb (name p) (name q).

(** De-duplication by name, first arrival kept. *)
Fixpoint dedupByName (l : list Player) : list Player :=
  match l with
  | [] => []
  | p :: l' => p :: List.filter (fun q => negb (sameName q p)) (dedupByName l')
  end.

(** A later points message for the occurrence opened by a message with
    total [tp1] and timestamp [t1]: not stale, its total within the
    tolerance of [tp1], arriving within two minutes of [t1], carrying at
    most one participant. *)
Definition correlated (tp1 t1 : Z) (d : Delivery) : Prop :=
  exists data tp,
    event d = Points data
    /\ PointsData.totalPoints data = Some tp
    /\ Z.abs (tp1 - tp) <= 500
    /\ arrival d - t1 <= 120000
    /\ arrival d - PointsData.timestamp data <= MAX_DATA_AGE
    /\ (length (PointsData.players data) <= 1)%nat.

(** The players offered by a run of deliveries, in order of arrival. *)
Definition offeredPlayers (ds : list Delivery) : list Player :=
  flat_map (fun d => eventPlayers (event d)) ds.

(** De-duplication one player at a time, without the cap. *)
Definition keepNew (acc : list Player) (p : Player) : list Player :=
  if aboveThreshold p && negb (existsb (fun q => sameName q p) acc)
  then acc ++ [p] else acc.

Definition notIn (acc : list Player) (q : Player) : bool :=
  negb (existsb (fun a => sameName a q) acc).

(** Four points messages of one raid: two players, an alt below the
    threshold, and a repeated delivery of the first player. *)
Definition hyperrPoints : PointsData.t :=
  PointsData.mk 1700000000000 (Some 291233) None [mkPlayer "Hyperr" 94987].
Definition rg44Points : PointsData.t :=
  PointsData.mk 1700000004000 (Some 291200) None [mkPlayer "rg44" 94394].
Definition altPoints : PointsData.t :=
  PointsData.mk 1700000005000 (Some 291233) None [mkPlayer "mule" 1500].
Definition hyperrAgain : PointsData.t :=
  PointsData.mk 1700000006000 (Some 291233) None [mkPlayer "Hyperr" 94987].

Definition firstDelivery : Delivery :=
  mkDelivery 1700000000100 [Success (Some 2)] (Points hyperrPoints).
Definition laterDeliveries : list Delivery :=
  [mkDelivery 1700000004100 [] (Points rg44Points);
   mkDelivery 1700000005100 [Failure 500 false] (Points altPoints);
   mkDelivery 1700000006100 [] (Points hyperrAgain)].


(** ** Team-size filter *)

(** The team size is known, starts with digits, and these read as a
    number below the minimum. *)
Definition teamSizeBelowMinimum (s : string) : Prop :=
  truthy s = true
  /\ truthy (leadingDigits s) = true
  /\ parseInt (leadingDigits s) < MIN_TEAM_SIZE.

(** The create-or-promote step of the points handler, up to the team-size
    filter: the raid variable, the raid, and the world at that point. *)
Definition scoreTarget (data : PointsData.t) (w : World)
    : Result (option nat * Raid.t) * World :=
  match findRaidByTotalPoints None (cleanOrphans w) with
  | Some (i, raid) => promotePlaceholder data i raid (cleanOrphans w)
  | None => createAndMerge data (cleanOrphans w)
  end.

(** Since the world [w0] the trace has grown. *)
Definition traceExtends (w0 w : World) : Prop :=
  exists more, trace w = trace w0 ++ more.

(** Since the world [w0] the append of [row] has been attempted: the row
    was sent, or the initialisation of the client it needs was tried. *)
Definition attempted (row : Row) (w0 w : World) : Prop :=
  exists more,
    trace w = trace w0 ++ more /\ (Append row ∈ more \/ InitClient ∈ more).

(** A raid entry for a team of 8 to 10: a duration message arrived first
    and waits in the orphan buffer when the points message comes. *)
Definition smallTeamWaiting : World :=
  mkWorld true 0 [] [DurationOrphan.mk 1700000000000 "31:02.40" (Some "8-10") None] []
          1700000001000 [] [].
Definition smallTeamPoints : PointsData.t :=
  PointsData.mk 1700000000900 (Some 61000) None [mkPlayer "Hyperr" 30500].

(** ** Expiry of orphans *)


(** ** Failures and their propagation *)

Definition recognized (e : Event) : Prop :=
  match e with
  | Other _ => False
  | _ => True
  end.

(** The service answers every coming call with success. *)
Definition isSuccess (r : Response) : Prop :=
  match r with
  | Success _ => True
  | Failure _ _ => False
  end.

Definition calm (w : World) : Prop := Forall isSuccess (pending w).

(** An error that comes from a persistence call. *)
Definition persistenceError (e : Exn) : Prop :=
  match e with
  | UnknownDataType _ => False
  | _ => True
  end.

Definition persistenceResult {A} (r : Result A) : Prop :=
  match r with
  | Ok _ => True
  | Throw e => persistenceError e
  end.

(** A computation that throws nothing but persistence errors. *)
Definition onlyPersistence {A} (m : M A) : Prop :=
  forall w, persistenceResult (m w).1.

(** A computation that throws nothing but persistence errors, and
    nothing at all when the service is calm. *)
Definition behaves {A} (m : M A) : Prop :=
  forall w,
    persistenceResult (m w).1
    /\ (calm w -> (exists a, (m w).1 = Ok a) /\ calm (m w).2).

(** The sheet answers the append with an internal error. *)
Definition serviceDown : World :=
  mkWorld true 0 [] [] [] 1700000000100 [Failure 500 false] [].

(** ** Sample runs of the persistence calls and of the loot paths *)

(** The service rejects the credentials once. *)
Definition credentialsRejected : World :=
  mkWorld true 0 [] [] [] 1700000000000 [Failure 401 false] [].

(** The same drop reported twice for one player, before and after the
    points message that opens the raid. *)
Definition bowFirst : Event :=
  Loot (LootData.mk 1700000000000 "Twisted bow" (Some "Hyperr")).
Definition bowSecond : Event :=
  Loot (LootData.mk 1700000000400 "Twisted bow" (Some "Hyperr")).
Definition raidOfTheBow : Event :=
  Points (PointsData.mk 1700000001000 (Some 291233) None [mkPlayer "Hyperr" 94987]).

Definition lootBeforePoints : list Delivery :=
  [mkDelivery 1700000000050 [] bowFirst;
   mkDelivery 1700000000450 [] bowSecond;
   mkDelivery 1700000001050 [Success (Some 2)] raidOfTheBow].

Definition lootAfterPoints : list Delivery :=
  [mkDelivery 1700000001050 [Success (Some 2)] raidOfTheBow;
   mkDelivery 1700000001500 [] bowFirst;
   mkDelivery 1700000001900 [] bowSecond].



(** ** Orphan loot *)

(** The orphan precedes the raid by 0 to 3000 ms. *)
Definition inMergeWindow (raidTime : Z) (o : LootOrphan.t) : bool :=
  let timeDiff := raidTime - LootOrphan.timestamp o in
  (timeDiff >=? 0) && (timeDiff <=? MERGE_WINDOW).

(** Appending the loot of an orphan to a raid. *)
Definition consume (raid : Raid.t) (o : LootOrphan.t) : Raid.t :=
  addLoot (lootMessage (LootOrphan.playerName o) (LootOrphan.itemName o)) raid.

(** [a] is at least as close to the raid as [b]. *)
Definition closerTo (raidTime : Z) (a b : LootOrphan.t) : Prop :=
  raidTime - LootOrphan.timestamp a <= raidTime - LootOrphan.timestamp b.

(** * Further vocabulary *)

(** ** The raid a loot message goes to *)

(** The raid is at most 60 s old. *)
Definition withinLootWindow (now : Z) (raid : Raid.t) : Prop :=
  now - Raid.timestamp raid <= 60000.

(** The raid is at most 60 s old and lists the player of the loot. *)
Definition participates (now : Z) (playerName : option string) (raid : Raid.t) : Prop :=
  withinLootWindow now raid /\ hasPlayer playerName raid = true.

(** ** The raid a duration message goes to *)

(** The raid is at most 60 s old and has no completion time yet. *)
Definition awaitsDuration (now : Z) (raid : Raid.t) : Prop :=
  now - Raid.timestamp raid <= 60000 /\ truthy (Raid.completionTime raid) = false.

(** The raid once the duration message has been applied to it. *)
Definition withDuration (data : DurationData.t) (raid : Raid.t) : Raid.t :=
  let raid := Raid.setCompletionTime (DurationData.raidTime data) raid in
  match orNull (DurationData.scale data) with
  | Some s => Raid.setScale s raid
  | None => raid
  end.

(** The orphan the duration handler buffers. *)
Definition durationOrphanOf (data : DurationData.t) : DurationOrphan.t :=
  DurationOrphan.mk (DurationData.timestamp data) (DurationData.raidTime data)
                    (orNull (DurationData.scale data))
                    (orNull (DurationData.playerName data)).

(** The duration orphan precedes the raid by 0 to 3000 ms. *)
Definition durationInWindow (raidTime : Z) (o : DurationOrphan.t) : Prop :=
  0 <= raidTime - DurationOrphan.timestamp o <= MERGE_WINDOW.

(** The raid once a duration orphan has been merged into it. *)
Definition withOrphanDuration (o : DurationOrphan.t) (raid : Raid.t) : Raid.t :=
  let raid := Raid.setCompletionTime (DurationOrphan.raidTime o) raid in
  match orNull (DurationOrphan.scale o) with
  | Some s => Raid.setScale s raid
  | None => raid
  end.

(** What the first loop of [mergeOrphansWithRaid] has found after the
    orphans [seen]: nothing in the window, or the position of the orphan
    in the window that is closest to the raid, the first of them on a tie. *)
Definition closestOf (raidTime : Z) (seen : list DurationOrphan.t)
    (best : option (nat * Z)) : Prop :=
  match best with
  | None => forall o, o ∈ seen -> ~ durationInWindow raidTime o
  | Some (k, d) =>
      exists o, seen !! k = Some o
        /\ d = raidTime - DurationOrphan.timestamp o
        /\ durationInWindow raidTime o
        /\ forall j o', seen !! j = Some o' -> durationInWindow raidTime o' ->
             DurationOrphan.timestamp o' <= DurationOrphan.timestamp o
             /\ (DurationOrphan.timestamp o' = DurationOrphan.timestamp o -> (k <= j)%nat)
  end.

(** ** Sample worlds for the loot and duration paths *)

(** A raid written to row 2 of the sheet two seconds ago, and the drop
    of one of its players. *)
Definition writtenRaid : Raid.t :=
  Raid.mk 1700000000000 (Some 285423) "" "" "" [mkPlayer "Hyperr" 99816] (Some 2) true.
Definition afterTheRaid : World :=
  mkWorld true 0 [writtenRaid] [] [] 1700000002100 [] [].
Definition theBow : LootData.t :=
  LootData.mk 1700000002000 "Twisted bow" (Some "Hyperr").

(** ** Layout of a row *)

(** [String.fromCharCode(65 + 3 + (MAX_PLAYERS * 2) + 1)], the last
    column of the range [updateRow] writes. *)
Definition endColumn : ascii := ascii_of_nat (65 + 3 + MAX_PLAYERS * 2 + 1).

(** Number of columns from [A] to the given one. *)
Definition columnsUpTo (column : ascii) : nat := nat_of_ascii column - 65 + 1.

(** A number inside a template literal: its decimal digits. *)
Fixpoint numeral (d : Decimal.uint) : string :=
  match d with
  | Decimal.Nil => ""
  | Decimal.D0 d => String "0"%char (numeral d)
  | Decimal.D1 d => String "1"%char (numeral d)
  | Decimal.D2 d => String "2"%char (numeral d)
  | Decimal.D3 d => String "3"%char (numeral d)
  | Decimal.D4 d => String "4"%char (numeral d)
  | Decimal.D5 d => String "5"%char (numeral d)
  | Decimal.D6 d => String "6"%char (numeral d)
  | Decimal.D7 d => String "7"%char (numeral d)
  | Decimal.D8 d => String "8"%char (numeral d)
  | Decimal.D9 d => String "9"%char (numeral d)
  end.

Definition decimal (n : nat) : string := numeral (Nat.to_uint n).

(** The header row [addHeaders] builds. *)
Definition headers : list string :=
  ["Timestamp"; "Total Points"; "Completion Time"; "Unique Drop"]
  ++ flat_map (fun i => ["Player " +:+ decimal i +:+ " Name";
                         "Player " +:+ decimal i +:+ " Points"])
              (seq 1 MAX_PLAYERS).

(** ** What is sent to the sheet *)




(** ** Retries under a rate limit *)

(** The world in which a rate-limited call retries, when the call was
    made inside the cooldown: the rest of the cooldown was waited out, the
    call [a] was sent at [sent] and refused, and the backoff [delay] has
    passed. *)
Definition retried (a : Action) (delay : Z) (rest : list Response) (w : World) : World :=
  let sent := lastRateLimitError w + RATE_LIMIT_COOLDOWN in
  mkWorld (sheetsClient w) sent (recentRaids w) (durations w) (loots w)
          (sent + delay) rest
          (trace w ++ [Wait (RATE_LIMIT_COOLDOWN - (clock w - lastRateLimitError w));
                       a; Wait delay]).

(** What is sent, and when the process sleeps, while four attempts in a
    row are refused with a rate limit. *)
Definition fourAttempts (a : Action) : list Action :=
  [a; Wait 2000; Wait 58000; a; Wait 4000; Wait 56000; a; Wait 8000; Wait 52000; a].

(** The world after the fourth refusal: three minutes later, the cooldown
    stamped anew. *)
Definition exhausted (a : Action) (rest : list Response) (w : World) : World :=
  mkWorld (sheetsClient w) (clock w + 180000) (recentRaids w) (durations w) (loots w)
          (clock w + 180000) rest (trace w ++ fourAttempts a).

(** The sheet refuses four calls in a row with code 429. *)
Definition rateLimited : World :=
  mkWorld true 0 [] [] [] 1700000000000
          [Failure 429 false; Failure 429 false; Failure 429 false; Failure 429 false] [].

(** ** Which events add a row *)




(** ** Players of a raid *)

(** What holds of the player list of every raid of the registry: at most
    [MAX_PLAYERS] players, none below the points threshold, no name twice. *)
Definition teamOk (players : list Player) : Prop :=
  (length players <= MAX_PLAYERS)%nat
  /\ Forall (fun p => MIN_POINTS_THRESHOLD <= points p) players
  /\ NoDup (name <$> players).

Definition playersOk (raid : Raid.t) : Prop := teamOk (Raid.players raid).

(** A points message names no player twice (the parser reads at most one
    player from a message). *)
Definition distinctNames (ev : Event) : Prop :=
  match ev with
  | Points data => NoDup (name <$> PointsData.players data)
  | _ => True
  end.

(** A raid keeps a well-formed player list. *)
Definition keepsPlayersOk (r r' : Raid.t) : Prop := playersOk r -> playersOk r'.

(** ** A duration message that arrives before the points *)

(** A raid the registry has just opened, possibly with the row number of
    its append filled in. *)
Definition uptoRow (merged raid : Raid.t) : Prop :=
  raid = merged \/ exists rowNumber, raid = Raid.setSheetRow rowNumber merged.

(** The duration message of a raid, and its points message 800 ms later,
    handled 900 ms after the duration. *)
Definition earlyDuration : DurationData.t :=
  DurationData.mk 1700000000000 "46:43.80" (Some "11-15") None.
Definition latePoints : PointsData.t :=
  PointsData.mk 1700000000800 (Some 285423) None [mkPlayer "Hyperr" 99816].
Definition quiet : World :=
  mkWorld true 0 [] [] [] 1700000000050 [] [].

(** ** A points message is never lost *)

(** A points message for a raid the registry holds, seven seconds after
    the raid, handled while the sheet is down. *)
Definition sheetDown : World :=
  mkWorld true 0 [writtenRaid] [] [] 1700000007100 [Failure 500 false] [].
Definition thirdPlayer : PointsData.t :=
  PointsData.mk 1700000007000 (Some 285600) None [mkPlayer "dot o" 101852].

(** The raid answers for the points message: its total is within the
    tolerance of the total of the message, and the player of the message,
    if above the threshold, is among its players unless the raid is full. *)
Definition records (data : PointsData.t) (tp : Z) (raid : Raid.t) : Prop :=
  withinTolerance tp raid
  /\ forall p, head (PointsData.players data) = Some p ->
       MIN_POINTS_THRESHOLD <= points p ->
       name p ∈ name <$> Raid.players raid
       \/ (MAX_PLAYERS <= length (Raid.players raid))%nat.

(** Total and players of a raid stay. *)
Definition sameScore (r r' : Raid.t) : Prop :=
  Raid.totalPoints r' = Raid.totalPoints r /\ Raid.players r' = Raid.players r.

(** ** A points message delivered again *)

(** Nothing is left for [newPlayer] to do to the player list: there is no
    player, the player is below the threshold, the list is full, or the
    name is on it. *)
Definition settled (newPlayer : option Player) (players : list Player) : bool :=
  match newPlayer with
  | Some p =>
      (points p <? MIN_POINTS_THRESHOLD)
      || negb (length players <? MAX_PLAYERS)%nat
      || existsb (fun q => String.eqb (name q) (name p)) players
  | None => true
  end.

(** ** A call inside the cooldown *)

(** What a persistence call that succeeds at once leaves, with a cached
    client: the call [a] is sent when the cooldown is over, after a wait
    for the rest of it if the call came earlier. *)
Definition sentAfterCooldown (a : Action) (rest : list Response) (w : World) : World :=
  let elapsed := clock w - lastRateLimitError w in
  mkWorld (sheetsClient w) (lastRateLimitError w) (recentRaids w) (durations w) (loots w)
          (Z.max (clock w) (lastRateLimitError w + RATE_LIMIT_COOLDOWN)) rest
          (trace w
           ++ (if elapsed <? RATE_LIMIT_COOLDOWN
               then [Wait (RATE_LIMIT_COOLDOWN - elapsed)] else [])
           ++ [a]).

(** Twenty seconds after a rate limit, the sheet answering again. *)
Definition coolingDown : World :=
  mkWorld true 1700000000000 [] [] [] 1700000020000 [Success (Some 7)] [].

(** ** Purging the orphan buffers *)



(** ** The team-size filter when the points come first *)

(** Since the world [w0] the call [a] has been issued. *)
Definition issued (a : Action) (w0 w : World) : Prop :=
  exists more, trace w = trace w0 ++ more /\ a ∈ more.

(** The points message of a raid and, two seconds later, its duration
    message with a team of 8 to 10. *)
Definition pointsFirst : PointsData.t :=
  PointsData.mk 1700000000000 (Some 61000) None [mkPlayer "Hyperr" 30500].
Definition smallTeamDuration : DurationData.t :=
  DurationData.mk 1700000002000 "31:02.40" (Some "8-10") None.

(** * Configuration, logger and connection *)

(** ** Configuration ([config/index.js]) *)

Module Config.

(** [process.env]: a variable is a string or undefined. *)
Definition Env := string -> option string.

Definition required : list string :=
  ["DISCORD_BOT_TOKEN"; "DISCORD_CHANNEL_ID"; "GOOGLE_SHEET_ID"].

Inductive Error :=
| CredentialsMissing       (* 'Either GOOGLE_CREDENTIALS_PATH or GOOGLE_CREDENTIALS_JSON must be set' *)
| MissingVariables (missing : list string)
                           (* 'Missing required environment variables: ...' *)
| InvalidCredentialsJson   (* 'Invalid JSON in GOOGLE_CREDENTIALS_JSON environment variable' *)
| PathNotAString.          (* the TypeError of path.resolve on undefined *)

Definition validateConfig (env : Env) : Error + unit :=
  let hasCredentialsPath := truthyOpt (env "GOOGLE_CREDENTIALS_PATH") in
  let hasCredentialsJson := truthyOpt (env "GOOGLE_CREDENTIALS_JSON") in
  if negb hasCredentialsPath && negb hasCredentialsJson then inl CredentialsMissing
  else
    let missing := List.filter (fun key => negb (truthyOpt (env key))) required in
    if (0 <? length missing)%nat then inl (MissingVariables missing)
    else inr tt.

Section Load.
(** [JSON.parse], which throws on text that is not JSON, and
    [path.resolve(process.cwd(), _)]. *)
Context {Json : Type} (parseJson : string -> option Json) (resolve : string -> string).

Inductive Credentials :=
| FromJson (credentials : Json)
| FromPath (keyFile : string).

Record t := mk {
  token : option string;
  channelId : option string;
  sheetId : option string;
  credentials : Credentials;
  serviceAccountEmail : option string;
  level : string
}.

Definition getGoogleCredentials (env : Env) : Error + Credentials :=
  if truthyOpt (env "GOOGLE_CREDENTIALS_JSON") then
    match parseJson (orEmpty (env "GOOGLE_CREDENTIALS_JSON")) with
    | Some credentials => inr (FromJson credentials)
    | None => inl InvalidCredentialsJson
    end
  else
    match env "GOOGLE_CREDENTIALS_PATH" with
    | Some credentialsPath => inr (FromPath (resolve credentialsPath))
    | None => inl PathNotAString
    end.

Definition loadConfig (env : Env) : Error + t :=
  match validateConfig env with
  | inl error => inl error
  | inr _ =>
      match getGoogleCredentials env with
      | inl error => inl error
      | inr googleCredentials =>
          inr (mk (env "DISCORD_BOT_TOKEN") (env "DISCORD_CHANNEL_ID")
                  (env "GOOGLE_SHEET_ID") googleCredentials
                  (env "GOOGLE_SERVICE_ACCOUNT_EMAIL")
                  (match orNull (env "LOG_LEVEL") with
                   | Some level => level
                   | None => "info"
                   end))
      end
  end.
End Load.

(** The variable is set to a non-empty string. *)
Definition isSet (env : Env) (key : string) : Prop := truthyOpt (env key) = true.

End Config.

(** ** Logger ([utils/logger.js]) *)

Module Logger.


Section Levels.
(** The property names [Object.prototype] defines. *)
Context (inherited : string -> bool).






End Levels.

End Logger.

(** ** Reconnecting ([index.js]) *)

Module Bot.

Definition MAX_RECONNECT_ATTEMPTS : nat := 5.
Definition RECONNECT_DELAY : Z := 5000.

(** [reconnectAttempts], whether the listener registered with
    [client.once('ready')] is still there, whether [process.exit] was
    called, and the delays of the logins scheduled so far. *)
Record Connection := mkConnection {
  reconnectAttempts : nat;
  readyListener : bool;
  exited : bool;
  scheduled : list Z
}.

Definition attemptReconnect (c : Connection) : Connection :=
  if (MAX_RECONNECT_ATTEMPTS <=? reconnectAttempts c)%nat
  then mkConnection (reconnectAttempts c) (readyListener c) true (scheduled c)
  else
    let attempts := S (reconnectAttempts c) in
    mkConnection attempts (readyListener c) false
                 (scheduled c ++ [RECONNECT_DELAY * Z.of_nat attempts]).

(** What reaches the handlers: the client is ready, the shard was
    disconnected, a scheduled login was rejected. *)
Inductive Signal := Ready | ShardDisconnect | LoginRejected.

Definition handle (c : Connection) (s : Signal) : Connection :=
  if exited c then c
  else
    match s with
    | Ready =>
        if readyListener c
        then mkConnection 0 false (exited c) (scheduled c)
        else c
    | ShardDisconnect | LoginRejected => attemptReconnect c
    end.

Definition handleAll (c : Connection) (signals : list Signal) : Connection :=
  foldl handle c signals.

(** The signals that call [attemptReconnect]. *)
Definition reconnects (s : Signal) : bool :=
  match s with
  | Ready => false
  | _ => true
  end.

End Bot.

(** ** A sample session *)

(** A session that reconnects twice with success before it is cut off
    four more times. *)
Definition connected : Bot.Connection := Bot.mkConnection 0 false false [].

Definition longSession : list Bot.Signal :=
  [Bot.ShardDisconnect; Bot.Ready; Bot.ShardDisconnect; Bot.Ready;
   Bot.ShardDisconnect; Bot.LoginRejected; Bot.LoginRejected; Bot.Ready;
   Bot.ShardDisconnect].

(** ** Intake of messages ([index.js]) *)

Module Discord.

Definition MAX_MESSAGE_AGE : Z := 300000.

(** What [processMessage] reads of a message; [embeds] holds the
    description of each embed. *)
Record Message := mkMessage {
  authorId : string;
  username : string;
  channelId : string;
  createdTimestamp : Z;
  content : string;
  embeds : list (option string)
}.

Section Intake.
(** [parseRaidNotification(content, username)] at the time [now], which
    the parser writes into the timestamp of what it returns; the id of
    the bot's own user and the configured channel. *)
Context (parseRaidNotification : Z -> string -> string -> option Event).
Context (clientUserId configuredChannelId : string).

Definition contentSources (message : Message) : list string :=
  (if truthy (content message) then [content message] else [])
  ++ flat_map (fun description =>
                 match orNull description with
                 | Some text => [text]
                 | None => []
                 end)
              (embeds message).

(** The loop over the content sources. *)
Fixpoint processSources (name : string) (sources : list string) : M unit :=
  match sources with
  | [] => ret tt
  | source :: rest =>
      now <- get clock ;;
      match parseRaidNotification now source name with
      | None => processSources name rest
      | Some parsedData =>
          appendToSheet parsedData ;;
          processSources name rest
      end
  end.

Definition processMessage (message : Message) : M unit :=
  if String.eqb (authorId message) clientUserId then ret tt
  else if negb (String.eqb (channelId message) configuredChannelId) then ret tt
  else
    now <- get clock ;;
    let messageAge := now - createdTimestamp message in
    if messageAge >? MAX_MESSAGE_AGE then ret tt
    else
      let sources := contentSources message in
      if (length sources =? 0)%nat then ret tt
      else processSources (username message) sources.

(** The loop of [processMessageQueue] over the queued messages: each
    one is awaited inside its own try block and its promise is resolved
    or rejected. The result lists how the promises were settled. *)
Fixpoint processMessageQueue (queue : list Message) : M (list (Result unit)) :=
  match queue with
  | [] => ret []
  | message :: rest =>
      outcome <- tryCatch (processMessage message ;; ret (Ok tt))
                          (fun error => ret (Throw error)) ;;
      outcomes <- processMessageQueue rest ;;
      ret (outcome :: outcomes)
  end.

(** The world the messages [before] leave. *)
Definition worldAfter (before : list Message) (w : World) : World :=
  foldl (fun w message => (processMessage message w).2) w before.

(** The message is one [processMessage] drops unread. *)
Definition dropped (message : Message) (w : World) : Prop :=
  authorId message = clientUserId
  \/ channelId message <> configuredChannelId
  \/ clock w - createdTimestamp message > MAX_MESSAGE_AGE
  \/ (truthy (content message) = false
      /\ Forall (fun description => truthyOpt description = false) (embeds message)).
End Intake.

End Discord.

(** A parser that reads every text as the points message of its sender,
    and two messages of the watched channel, from two players of one
    raid. *)
Definition samePoints (now : Z) (text name : string) : option Event :=
  Some (Points (PointsData.mk now (Some 285423) None [mkPlayer name 99816])).
Definition firstMessage : Discord.Message :=
  Discord.mkMessage "7" "Hyperr" "42" 1700000000000 "Total points: 285,423" [].
Definition secondMessage : Discord.Message :=
  Discord.mkMessage "8" "rg44" "42" 1700000000050 "Total points: 285,423" [].
(** * Properties *)

(** ** Rules for computations *)

Section Wp.
Context {A B : Type}.
Implicit Types (Q : Result A -> World -> Prop) (w : World).

Lemma wp_ret (a : A) Q w : Q (Ok a) w -> wp (ret a) Q w.
  Proof. done. Qed.

Lemma wp_throw e Q w : Q (Throw e) w -> wp (throw e) Q w.
  Proof. done. Qed.

Lemma wp_get (f : World -> A) Q w : Q (Ok (f w)) w -> wp (get f) Q w.
  Proof. done. Qed.

Lemma wp_state (f : World -> A * World) Q w :
    Q (Ok (f w).1) (f w).2 -> wp (state f) Q w.
  Proof. unfold wp, state. by destruct (f w). Qed.

Lemma wp_bind (m : M A) (k : A -> M B) (R : Result B -> World -> Prop) w :
    wp m (fun r w' =>
            match r with
            | Ok a => wp (k a) R w'
            | Throw e => R (Throw e) w'
            end) w ->
    wp (bind m k) R w.
  Proof. unfold wp, bind. by destruct (m w) as [[a|e] w']. Qed.

Lemma wp_tryCatch (m : M A) (h : Exn -> M A) Q w :
    wp m (fun r w' =>
            match r with
            | Ok a => Q (Ok a) w'
            | Throw e => wp (h e) Q w'
            end) w ->
    wp (tryCatch m h) Q w.
  Proof. unfold wp, tryCatch. by destruct (m w) as [[a|e] w']. Qed.

Lemma wp_mono (m : M A) Q (Q' : Result A -> World -> Prop) w :
    wp m Q w -> (forall r w', Q r w' -> Q' r w') -> wp m Q' w.
  Proof. unfold wp. auto. Qed.
End Wp.

Lemma wp_modify f (Q : Result unit -> World -> Prop) w :
  Q (Ok tt) (f w) -> wp (modify f) Q w.
Proof. done. Qed.

Lemma wp_when b m (Q : Result unit -> World -> Prop) w :
  (b = true -> wp m Q w) -> (b = false -> Q (Ok tt) w) -> wp (when b m) Q w.
Proof.
  unfold when. destruct b; intros H1 H2; [by apply H1 | by apply wp_ret, H2].
Qed.

(** ** What the persistence calls can change *)

Create HintDb gateway.

Section Gateway.
Context (Rel : World -> World -> Prop) (Rel_stable : gatewayStable Rel).

Lemma keeps_ret {A} (a : A) : keeps Rel (ret a).
Proof. by intros w0 w H. Qed.

Lemma keeps_throw {A} e : keeps Rel (@throw A e).
Proof. by intros w0 w H. Qed.

Lemma keeps_get {A} (f : World -> A) : keeps Rel (get f).
Proof. by intros w0 w H. Qed.

Lemma keeps_bind {A B} (m : M A) (k : A -> M B) :
  keeps Rel m -> (forall a, keeps Rel (k a)) -> keeps Rel (bind m k).
Proof.
  intros Hm Hk w0 w H. apply wp_bind. eapply wp_mono; [by apply Hm|].
  intros [a|e] w' H'; [by apply Hk | done].
Qed.

Lemma keeps_tryCatch {A} (m : M A) h :
  keeps Rel m -> (forall e, keeps Rel (h e)) -> keeps Rel (tryCatch m h).
Proof.
  intros Hm Hh w0 w H. apply wp_tryCatch. eapply wp_mono; [by apply Hm|].
  intros [a|e] w' H'; [done | by apply Hh].
Qed.

Lemma keeps_when b m : keeps Rel m -> keeps Rel (when b m).
Proof. destruct b; [done | intros _; apply keeps_ret]. Qed.

Lemma keeps_call a : keeps Rel (call a).
Proof.
  intros w0 w H. unfold wp, call.
  destruct (Rel_stable w0 w H) as (Hemit & _).
  destruct (pending (emit a w)) as [|[r|c m] rest]; simpl; [apply Hemit|..];
    by apply (Rel_stable w0 (emit a w)).
Qed.

Lemma keeps_wait ms : keeps Rel (wait ms).
Proof.
  intros w0 w H. apply wp_modify.
  apply (Rel_stable w0 (setClock (clock w + ms) w)).
  by apply (Rel_stable w0 w).
Qed.

Lemma keeps_setSheetsClient b : keeps Rel (modify (setSheetsClient b)).
Proof. intros w0 w H. apply wp_modify. by apply (Rel_stable w0 w). Qed.

Lemma keeps_setLastRateLimitError t : keeps Rel (modify (setLastRateLimitError t)).
Proof. intros w0 w H. apply wp_modify. by apply (Rel_stable w0 w). Qed.

Lemma keeps_emit a : keeps Rel (modify (emit a)).
Proof. intros w0 w H. apply wp_modify. by apply (Rel_stable w0 w). Qed.

#[local] Hint Resolve keeps_ret keeps_throw keeps_get keeps_bind keeps_tryCatch
  keeps_when keeps_call keeps_wait keeps_setSheetsClient
  keeps_setLastRateLimitError keeps_emit : gateway.

Lemma keeps_initializeSheetsClient : keeps Rel initializeSheetsClient.
Proof. unfold initializeSheetsClient. auto with gateway. Qed.

#[local] Hint Resolve keeps_initializeSheetsClient : gateway.

Lemma keeps_ensureSheetsExist : keeps Rel ensureSheetsExist.
Proof. unfold ensureSheetsExist. auto 10 with gateway. Qed.

#[local] Hint Resolve keeps_ensureSheetsExist : gateway.

Lemma keeps_awaitCooldown : keeps Rel awaitCooldown.
Proof. unfold awaitCooldown. auto 10 with gateway. Qed.

Lemma keeps_ensureClient : keeps Rel ensureClient.
Proof. unfold ensureClient. auto 10 with gateway. Qed.

#[local] Hint Resolve keeps_awaitCooldown keeps_ensureClient : gateway.

(** What the handler of a caught error does, retries included. *)
Lemma keeps_appendRowFrom n row : keeps Rel (appendRowFrom n row).
Proof.
  induction n as [|n IH]; simpl.
  - apply keeps_tryCatch; [auto 10 with gateway|].
    intros e. destruct (isRateLimit e); [auto 10 with gateway|].
    destruct (isAuthError e); auto 10 with gateway.
  - apply keeps_tryCatch; [auto 10 with gateway|].
    intros e. destruct (isRateLimit e); [auto 10 with gateway|].
    destruct (isAuthError e); auto 10 with gateway.
Qed.

Lemma keeps_updateRowFrom n rowNumber row : keeps Rel (updateRowFrom n rowNumber row).
Proof.
  induction n as [|n IH]; simpl.
  - apply keeps_tryCatch; [auto 10 with gateway|].
    intros e. destruct (isRateLimit e); auto 10 with gateway.
  - apply keeps_tryCatch; [auto 10 with gateway|].
    intros e. destruct (isRateLimit e); auto 10 with gateway.
Qed.
End Gateway.

(** The persistence calls leave the registry and the orphan buffers alone. *)
Lemma sameRecords_refl w : sameRecords w w.
Proof. by repeat split. Qed.

Lemma sameRecords_stable : gatewayStable sameRecords.
Proof. intros w0 w H. by split_and?. Qed.

Lemma gatewayOnly_appendRow row : gatewayOnly (appendRow row).
Proof. apply keeps_appendRowFrom, sameRecords_stable. Qed.

Lemma gatewayOnly_updateRow rowNumber row : gatewayOnly (updateRow rowNumber row).
Proof. apply keeps_updateRowFrom, sameRecords_stable. Qed.

(** ** Scanning a list from its newest end *)

Section ScanDown.
Context {A : Type} (p : A -> bool).

Lemma scanDown_Some l n i x :
    scanDown p l n = Some (i, x) ->
    (i < n)%nat /\ l !! i = Some x /\ p x = true /\
    forall j y, (i < j < n)%nat -> l !! j = Some y -> p y = false.
  Proof.
    induction n as [|n IH]; simpl; [discriminate|].
    destruct (l !! n) as [y|] eqn:Hn.
    - destruct (p y) eqn:Hp.
      + intros [= <- <-]. repeat split; auto with lia.
      + intros H. destruct (IH H) as (Hi & Hx & Hpx & Hlater).
        repeat split; auto with lia.
        intros j z Hj Hz. destruct (decide (j = n)) as [->|Hne].
        * congruence.
        * apply (Hlater j); auto with lia.
    - intros H. destruct (IH H) as (Hi & Hx & Hpx & Hlater).
      repeat split; auto with lia.
      intros j z Hj Hz. destruct (decide (j = n)) as [->|Hne].
      + congruence.
      + apply (Hlater j); auto with lia.
  Qed.

Lemma scanDown_None l n :
    scanDown p l n = None ->
    forall j y, (j < n)%nat -> l !! j = Some y -> p y = false.
  Proof.
    induction n as [|n IH]; simpl; [lia|].
    destruct (l !! n) as [y|] eqn:Hn.
    - destruct (p y) eqn:Hp; [discriminate|].
      intros H j z Hj Hz. destruct (decide (j = n)) as [->|Hne].
      + congruence.
      + apply (IH H j); auto with lia.
    - intros H j z Hj Hz. destruct (decide (j = n)) as [->|Hne].
      + congruence.
      + apply (IH H j); auto with lia.
  Qed.

  (** Scanning the whole list: nothing in it passes the test. *)
Lemma scanDown_None_all l x :
    scanDown p l (length l) = None -> x ∈ l -> p x = false.
  Proof.
    intros H Hin. apply list_elem_of_lookup in Hin as [j Hj].
    apply (scanDown_None _ _ H j); [|done].
    by apply lookup_lt_Some in Hj.
  Qed.

  (** The newest element is examined first. *)
Lemma scanDown_last l x :
    p x = true -> scanDown p (l ++ [x]) (length (l ++ [x])) = Some (length l, x).
  Proof.
    intros Hp. rewrite length_app, Nat.add_1_r. simpl.
    rewrite lookup_app_r by lia. rewrite Nat.sub_diag. simpl. by rewrite Hp.
  Qed.
End ScanDown.

(** ** Lookup of a raid by total points *)

Lemma matchesTotalPoints_qualifies now points raid :
  matchesTotalPoints now points raid = true <-> qualifies now points raid.
Proof.
  unfold matchesTotalPoints, qualifies, withinTolerance, withinWindow.
  destruct points as [p|].
  - rewrite andb_true_iff, !Z.leb_le. tauto.
  - destruct (Raid.totalPoints raid).
    + split; [discriminate | intros [[=] _]].
    + rewrite Z.leb_le. tauto.
Qed.

Lemma matchesTotalPoints_not_qualifies now points raid :
  matchesTotalPoints now points raid = false <-> ~ qualifies now points raid.
Proof.
  rewrite <- matchesTotalPoints_qualifies.
  destruct (matchesTotalPoints now points raid); split; congruence.
Qed.

(** C4. [findRaidByTotalPoints] returns the most recent raid that is
    within 500 points of the value looked up and not older than 120 s (for
    a null value: the most recent raid without total points in that
    window), and nothing when no raid qualifies. The first hit of the
    newest-first scan wins even when an older raid is closer in points. *)
Theorem findRaidByTotalPoints_most_recent :
  (forall (points : option Z) (w : World),
      match findRaidByTotalPoints points w with
      | Some (i, raid) =>
          recentRaids w !! i = Some raid
          /\ qualifies (clock w) points raid
          /\ forall j later,
               (i < j)%nat -> recentRaids w !! j = Some later ->
               ~ qualifies (clock w) points later
      | None =>
          forall raid, raid ∈ recentRaids w -> ~ qualifies (clock w) points raid
      end)
  /\ findRaidByTotalPoints (Some 30000) twoCandidates = Some (1%nat, newerNear).
Proof.
  split; [|reflexivity].
  intros points w. unfold findRaidByTotalPoints.
  destruct (scanDown _ _ _) as [[i raid]|] eqn:Hscan.
  - apply scanDown_Some in Hscan as (Hi & Hraid & Hp & Hlater).
    split; [done|]. split; [by apply matchesTotalPoints_qualifies|].
    intros j later Hj Hl. apply matchesTotalPoints_not_qualifies.
    apply (Hlater j); [|done]. apply lookup_lt_Some in Hl. lia.
  - intros raid Hin. apply matchesTotalPoints_not_qualifies.
    by apply (scanDown_None_all _ _ _ Hscan).
Qed.

(** ** Trimming the registry *)

Lemma evictOld_drop cutoff l :
  exists k, (k <= length l)%nat
    /\ evictOld cutoff l = drop k l
    /\ (forall j r, (j < k)%nat -> l !! j = Some r -> Raid.timestamp r < cutoff)
    /\ (forall r, head (evictOld cutoff l) = Some r -> cutoff <= Raid.timestamp r).
Proof.
  induction l as [|x l IH]; simpl.
  - exists 0%nat. split; [lia|]. split; [done|]. split.
    + intros j r Hj. lia.
    + intros r [=].
  - destruct (Raid.timestamp x <? cutoff) eqn:Hx.
    + destruct IH as (k & Hk & Hdrop & Hold & Hhead).
      exists (S k). split; [lia|]. split; [done|]. split; [|done].
      intros [|j] r Hj Hr; simpl in Hr.
      * injection Hr as <-. by apply Z.ltb_lt.
      * apply (Hold j); [lia|done].
    + exists 0%nat. split; [lia|]. split; [done|]. split.
      * intros j r Hj. lia.
      * simpl. intros r [= <-]. by apply Z.ltb_ge.
Qed.

(** What [createRaidEntry] does to the registry, in one statement: the
    new registry is the old one with the raid pushed and its [k] oldest
    entries dropped. *)
Lemma createRaidEntry_drop data w :
  let raid := (createRaidEntry data w).1 in
  let w' := (createRaidEntry data w).2 in
  let pushed := recentRaids w ++ [raid] in
  exists k, (k <= length pushed)%nat
    /\ recentRaids w' = drop k pushed
    /\ ((MAX_RAID_HISTORY < length pushed)%nat -> (1 <= k)%nat)
    /\ (forall j r, (j < k)%nat -> pushed !! j = Some r ->
          (j = 0%nat /\ (MAX_RAID_HISTORY < length pushed)%nat)
          \/ clock w - Raid.timestamp r > RAID_TIMEOUT)
    /\ (forall oldest, head (recentRaids w') = Some oldest ->
          clock w - Raid.timestamp oldest <= RAID_TIMEOUT).
Proof.
  unfold createRaidEntry. cbv zeta. simpl.
  set (raid := Raid.mk _ _ _ _ _ _ _ _).
  set (pushed := recentRaids w ++ [raid]).
  destruct (MAX_RAID_HISTORY <? length pushed)%nat eqn:Hcap.
  - apply Nat.ltb_lt in Hcap.
    destruct (evictOld_drop (clock w - RAID_TIMEOUT) (drop 1 pushed))
      as (k & Hk & Hdrop & Hold & Hhead).
    rewrite length_drop in Hk. unfold MAX_RAID_HISTORY in Hcap.
    exists (S k). repeat split.
    + lia.
    + rewrite Hdrop, drop_drop. done.
    + lia.
    + intros [|j] r Hj Hr; [left; split; [done|unfold MAX_RAID_HISTORY; lia]|].
      right. assert (Raid.timestamp r < clock w - RAID_TIMEOUT); [|lia].
      apply (Hold j); [lia|]. by rewrite lookup_drop.
    + intros oldest Ho. apply Hhead in Ho. lia.
  - apply Nat.ltb_ge in Hcap.
    destruct (evictOld_drop (clock w - RAID_TIMEOUT) pushed)
      as (k & Hk & Hdrop & Hold & Hhead).
    exists k. repeat split.
    + lia.
    + done.
    + lia.
    + intros j r Hj Hr. right.
      assert (Raid.timestamp r < clock w - RAID_TIMEOUT); [|lia].
      by apply (Hold j).
    + intros oldest Ho. apply Hhead in Ho. lia.
Qed.

Lemma createRaidEntry_length data w :
  (length (recentRaids w) <= MAX_RAID_HISTORY)%nat ->
  (length (recentRaids (createRaidEntry data w).2) <= MAX_RAID_HISTORY)%nat.
Proof.
  intros Hlen.
  destruct (createRaidEntry_drop data w) as (k & Hk & Hdrop & Hcap & _).
  rewrite Hdrop, length_drop. rewrite length_app in *. simpl in *.
  unfold MAX_RAID_HISTORY in *. lia.
Qed.

(** The raid just pushed is the newest entry, when anything is left. *)
Lemma createRaidEntry_newest data w i :
  newestRef (createRaidEntry data w).2 = Some i ->
  recentRaids (createRaidEntry data w).2 !! i = Some (createRaidEntry data w).1.
Proof.
  destruct (createRaidEntry_drop data w) as (k & Hk & Hdrop & _).
  unfold newestRef. rewrite Hdrop.
  set (raid := (createRaidEntry data w).1).
  destruct (drop k (recentRaids w ++ [raid])) as [|x l] eqn:Hd; [discriminate|].
  intros [= <-]. rewrite <- Hd.
  assert (Hlen : length (drop k (recentRaids w ++ [raid])) = S (length l))
    by (by rewrite Hd).
  rewrite length_drop, length_app in Hlen. simpl in Hlen.
  rewrite lookup_drop, lookup_app_r by lia.
  replace (k + length l - length (recentRaids w))%nat with 0%nat by lia.
  done.
Qed.

(** ** The handlers, branch by branch *)

(** After a persistence call the records are what they were before it. *)
Lemma wp_gateway {A} (m : M A) (Q : Result A -> World -> Prop) w :
  gatewayOnly m ->
  (forall r w', sameRecords w w' -> Q r w') ->
  wp m Q w.
Proof.
  intros Hm HQ. eapply wp_mono; [apply (Hm w w), sameRecords_refl|].
  intros r w' H. by apply HQ.
Qed.

Lemma raidStep_refl tp r : raidStep tp r r.
Proof. split; auto. Qed.

Lemma raidStep_trans tp a b c : raidStep tp a b -> raidStep tp b c -> raidStep tp a c.
Proof.
  intros [Ht1 H1] [Ht2 H2]. split; [congruence|].
  destruct H1 as [H1|[H1 H1']], H2 as [H2|[H2 H2']];
    [left|right|right|right]; split_and?; congruence.
Qed.

Lemma cleanOrphans_recentRaids w : recentRaids (cleanOrphans w) = recentRaids w.
Proof. done. Qed.

Lemma cleanOrphans_clock w : clock (cleanOrphans w) = clock w.
Proof. done. Qed.

Lemma findRaidByTotalPoints_cleanOrphans tp w :
  findRaidByTotalPoints tp (cleanOrphans w) = findRaidByTotalPoints tp w.
Proof. done. Qed.

Lemma findRaidByTotalPoints_lookup tp w i raid :
  findRaidByTotalPoints tp w = Some (i, raid) -> recentRaids w !! i = Some raid.
Proof. intros H. by apply scanDown_Some in H as (_ & H & _). Qed.

(** The found-raid branch rewrites position [i], and nothing else. *)
Lemma addToExistingRaid_spec data i raid w :
  recentRaids w !! i = Some raid ->
  wp (addToExistingRaid data i raid)
     (fun _ w' =>
        exists raid',
          recentRaids w' = <[i := raid']> (recentRaids w)
          /\ durations w' = durations w /\ loots w' = loots w
          /\ Raid.timestamp raid' = Raid.timestamp raid
          /\ Raid.totalPoints raid' =
               match Raid.totalPoints raid with
               | None => PointsData.totalPoints data
               | Some v => Some v
               end
          /\ Raid.players raid' =
               addPlayer (head (PointsData.players data)) (Raid.players raid)) w.
Proof.
  intros Hi. unfold addToExistingRaid.
  set (raid1 := match Raid.totalPoints raid with
                | None => Raid.setTotalPoints (PointsData.totalPoints data) raid
                | Some _ => raid
                end).
  assert (Ht : Raid.timestamp raid1 = Raid.timestamp raid)
    by (unfold raid1; by destruct (Raid.totalPoints raid)).
  assert (Hp : Raid.players raid1 = Raid.players raid)
    by (unfold raid1; by destruct (Raid.totalPoints raid)).
  assert (Htp : Raid.totalPoints raid1 =
                match Raid.totalPoints raid with
                | None => PointsData.totalPoints data
                | Some v => Some v
                end)
    by (unfold raid1; by destruct (Raid.totalPoints raid) eqn:E).
  clearbody raid1.
  apply wp_bind, wp_modify.
  assert (Hstay : exists raid',
             recentRaids (writeRaid (Some i) raid1 w) = <[i := raid']> (recentRaids w)
             /\ durations (writeRaid (Some i) raid1 w) = durations w
             /\ loots (writeRaid (Some i) raid1 w) = loots w
             /\ Raid.timestamp raid' = Raid.timestamp raid
             /\ Raid.totalPoints raid' =
                  match Raid.totalPoints raid with
                  | None => PointsData.totalPoints data
                  | Some v => Some v
                  end
             /\ Raid.players raid' = Raid.players raid)
    by (exists raid1; by repeat split).
  unfold addPlayer.
  destruct (head (PointsData.players data)) as [newPlayer|]; [|by apply wp_ret].
  destruct (points newPlayer <? MIN_POINTS_THRESHOLD); [by apply wp_ret|].
  unfold playerExists. rewrite Hp.
  destruct (length (Raid.players raid) <? MAX_PLAYERS)%nat; [|by apply wp_ret].
  destruct (existsb _ (Raid.players raid)); simpl; [by apply wp_ret|].
  apply wp_bind, wp_modify.
  set (raid2 := Raid.pushPlayer newPlayer raid1).
  assert (Hpushed : forall w',
             sameRecords (writeRaid (Some i) raid2 (writeRaid (Some i) raid1 w)) w' ->
             exists raid',
               recentRaids w' = <[i := raid']> (recentRaids w)
               /\ durations w' = durations w /\ loots w' = loots w
               /\ Raid.timestamp raid' = Raid.timestamp raid
               /\ Raid.totalPoints raid' =
                    match Raid.totalPoints raid with
                    | None => PointsData.totalPoints data
                    | Some v => Some v
                    end
               /\ Raid.players raid' = Raid.players raid ++ [newPlayer]).
  { intros w' (H1 & H2 & H3). exists raid2. rewrite H1, H2, H3. simpl.
    rewrite list_insert_insert_eq, Hp. by repeat split. }
  destruct (persistedRow raid2) as [sheetRow|].
  - apply wp_bind, wp_gateway; [apply gatewayOnly_updateRow|].
    intros [[]|e] w' Hsame; [apply wp_ret|]; by apply Hpushed.
  - apply wp_bind, wp_modify, wp_ret. by apply Hpushed.
Qed.

(** Merging orphans touches neither the registry nor the identity of the
    raid; it fills in duration, scale and loot. *)
Lemma addLoot_fields message raid :
  Raid.timestamp (addLoot message raid) = Raid.timestamp raid
  /\ Raid.totalPoints (addLoot message raid) = Raid.totalPoints raid
  /\ Raid.players (addLoot message raid) = Raid.players raid
  /\ Raid.scale (addLoot message raid) = Raid.scale raid
  /\ Raid.sheetRow (addLoot message raid) = Raid.sheetRow raid
  /\ Raid.addedToSheet (addLoot message raid) = Raid.addedToSheet raid.
Proof. unfold addLoot. by destruct (truthy (Raid.uniqueDrop raid)). Qed.

Lemma mergeLootOrphans_fields raid w :
  let '(_, raid', w') := mergeLootOrphans raid w in
  recentRaids w' = recentRaids w /\ clock w' = clock w
  /\ durations w' = durations w
  /\ trace w' = trace w /\ pending w' = pending w
  /\ sheetsClient w' = sheetsClient w
  /\ lastRateLimitError w' = lastRateLimitError w
  /\ Raid.timestamp raid' = Raid.timestamp raid
  /\ Raid.totalPoints raid' = Raid.totalPoints raid
  /\ Raid.players raid' = Raid.players raid
  /\ Raid.scale raid' = Raid.scale raid
  /\ Raid.sheetRow raid' = Raid.sheetRow raid
  /\ Raid.addedToSheet raid' = Raid.addedToSheet raid.
Proof.
  unfold mergeLootOrphans.
  destruct (0 <? length (loots w))%nat; [|by repeat split].
  destruct (0 <? length (matchingLoots _ _ _))%nat; [|by repeat split].
  split_and?; try done.
  all: generalize (sort (fun a b => timeDiff a - timeDiff b)
                        (matchingLoots (Raid.timestamp raid) (loots w) (length (loots w)))).
  all: intros l; revert raid; induction l as [|m l IH]; intros raid; simpl; [done|].
  all: rewrite IH; apply addLoot_fields.
Qed.

Lemma mergeDurationOrphan_fields raid w :
  let '(_, raid', w') := mergeDurationOrphan raid w in
  recentRaids w' = recentRaids w /\ clock w' = clock w
  /\ loots w' = loots w
  /\ trace w' = trace w /\ pending w' = pending w
  /\ sheetsClient w' = sheetsClient w
  /\ lastRateLimitError w' = lastRateLimitError w
  /\ Raid.timestamp raid' = Raid.timestamp raid
  /\ Raid.totalPoints raid' = Raid.totalPoints raid
  /\ Raid.players raid' = Raid.players raid
  /\ Raid.uniqueDrop raid' = Raid.uniqueDrop raid
  /\ Raid.sheetRow raid' = Raid.sheetRow raid
  /\ Raid.addedToSheet raid' = Raid.addedToSheet raid.
Proof.
  unfold mergeDurationOrphan.
  destruct (_ && _); [|by repeat split].
  destruct (closestDuration _ _ _ _) as [[i d]|]; [|by repeat split].
  destruct (durations w !! i) as [o|]; [|by repeat split].
  by destruct (orNull (DurationOrphan.scale o)).
Qed.

Lemma mergeOrphansWithRaid_fields raid w :
  let '(_, raid', w') := mergeOrphansWithRaid raid w in
  recentRaids w' = recentRaids w /\ clock w' = clock w
  /\ trace w' = trace w /\ pending w' = pending w
  /\ sheetsClient w' = sheetsClient w
  /\ lastRateLimitError w' = lastRateLimitError w
  /\ Raid.timestamp raid' = Raid.timestamp raid
  /\ Raid.totalPoints raid' = Raid.totalPoints raid
  /\ Raid.players raid' = Raid.players raid
  /\ Raid.sheetRow raid' = Raid.sheetRow raid
  /\ Raid.addedToSheet raid' = Raid.addedToSheet raid.
Proof.
  unfold mergeOrphansWithRaid.
  pose proof (mergeDurationOrphan_fields raid w) as H1.
  destruct (mergeDurationOrphan raid w) as [[m1 raid1] w1].
  pose proof (mergeLootOrphans_fields raid1 w1) as H2.
  destruct (mergeLootOrphans raid1 w1) as [[m2 raid2] w2].
  destruct H1 as (? & ? & ? & ? & ? & ? & ? & ? & ? & ? & ? & ? & ?).
  destruct H2 as (? & ? & ? & ? & ? & ? & ? & ? & ? & ? & ? & ? & ?).
  split_and?; congruence.
Qed.

Lemma writeRaid_refHolds ref raid raid' w :
  refHolds ref raid w -> refHolds ref raid' (writeRaid ref raid' w).
Proof.
  destruct ref as [i|]; simpl; [|done]. intros H.
  apply list_lookup_insert_eq. by eapply lookup_lt_Some.
Qed.

(** Writing the raid to the sheet changes, of the records, at most the
    row bookkeeping of that raid. *)
Lemma persistRaid_spec ref raid w :
  wp (persistRaid ref raid)
     (fun _ w' =>
        durations w' = durations w /\ loots w' = loots w
        /\ (recentRaids w' = recentRaids w
            \/ exists n,
                 recentRaids w' = recentRaids (writeRaid ref (Raid.setSheetRow n raid) w))) w.
Proof.
  unfold persistRaid. destruct (_ && _).
  - apply wp_bind, wp_gateway; [apply gatewayOnly_appendRow|].
    intros [[n|]|e] w' (H1 & H2 & H3).
    + apply wp_bind, wp_modify, wp_ret.
      destruct ref as [i|]; simpl; [|auto]. split_and?; [done..|].
      right. exists n. simpl. by rewrite H1.
    + apply wp_ret. auto.
    + auto.
  - destruct (persistedRow raid) as [n|]; [|apply wp_ret; auto].
    apply wp_bind, wp_gateway; [apply gatewayOnly_updateRow|].
    intros [[]|e] w' (H1 & H2 & H3); [apply wp_ret|]; auto.
Qed.

(** Relations between the states of a raid that contain [sameCore] and
    are transitive are kept, position by position, by everything the
    handlers do to the registry after the lookup. *)
Section Evolution.
Context (R : Raid.t -> Raid.t -> Prop).
Context (R_core : forall r r', sameCore r r' -> R r r').
Context (R_trans : forall a b c, R a b -> R b c -> R a c).

Lemma evolves_refl l : Forall2 R l l.
Proof. induction l; constructor; [by apply R_core|done]. Qed.

Lemma insert_evolves base l i raid raid' :
  Forall2 R base l -> l !! i = Some raid -> R raid raid' ->
  Forall2 R base (<[i := raid']> l).
Proof.
  intros Hbase Hi Hstep.
  apply (Forall2_trans R R R base l); [apply R_trans | done |].
  apply Forall2_same_length_lookup. split; [by rewrite length_insert|].
  intros j x y Hx Hy. destruct (decide (i = j)) as [->|Hne].
  - rewrite list_lookup_insert_eq in Hy by (by eapply lookup_lt_Some).
    congruence.
  - rewrite list_lookup_insert_ne in Hy by done.
    assert (x = y) as -> by congruence. by apply R_core.
Qed.

Lemma writeRaid_evolves base ref raid raid' w :
  Forall2 R base (recentRaids w) -> refHolds ref raid w -> R raid raid' ->
  Forall2 R base (recentRaids (writeRaid ref raid' w)).
Proof.
  destruct ref as [i|]; simpl; [|done].
  intros. by eapply insert_evolves.
Qed.

(** The tail of the create-or-promote branch: team-size filter, then the
    sheet. *)
Lemma finishBranch_evolves base ref raid w :
  Forall2 R base (recentRaids w) ->
  refHolds ref raid w ->
  wp (if negb (isScaleLargeEnough (Raid.scale raid))
      then ret (Some raid) else persistRaid ref raid)
     (fun _ w' => Forall2 R base (recentRaids w')) w.
Proof.
  intros Hbase Href. destruct (negb _); [by apply wp_ret|].
  eapply wp_mono; [apply persistRaid_spec|].
  intros r w' (_ & _ & [H|[n H]]); rewrite H; [done|].
  eapply writeRaid_evolves; [done..|]. by apply R_core.
Qed.

(** The create branch: the registry [createRaidEntry] leaves, evolved. *)
Lemma createBranch_evolves data w :
  wp (bind (createAndMerge data)
           (fun target =>
              let '(ref, raid) := target in
              if negb (isScaleLargeEnough (Raid.scale raid)) then ret (Some raid)
              else persistRaid ref raid))
     (fun _ w' =>
        Forall2 R (recentRaids (createRaidEntry data w).2) (recentRaids w')) w.
Proof.
  apply wp_bind. unfold createAndMerge.
  apply wp_bind, wp_state, wp_bind, wp_get, wp_bind, wp_state.
  set (created := createRaidEntry data w).
  pose proof (mergeOrphansWithRaid_fields created.1 created.2) as Hm.
  destruct (mergeOrphansWithRaid created.1 created.2) as [[m merged] w2].
  destruct Hm as (Hreg & _ & _ & _ & _ & _ & Ht & Htp & Hpl & _).
  simpl. apply wp_bind, wp_modify, wp_ret.
  assert (Href : refHolds (newestRef created.2) created.1 w2).
  { destruct (newestRef created.2) as [i|] eqn:Hnew; simpl; [|done].
    rewrite Hreg. by apply createRaidEntry_newest. }
  apply (finishBranch_evolves (recentRaids created.2) (newestRef created.2) merged).
  - apply (writeRaid_evolves _ _ created.1); [|done|].
    + rewrite Hreg. apply evolves_refl.
    + by apply R_core.
  - by eapply writeRaid_refHolds.
Qed.
End Evolution.

Lemma raidStep_core tp r r' : sameCore r r' -> raidStep tp r r'.
Proof. intros (? & ? & ?). split; auto. Qed.

Lemma registry_insert_step tp base l i raid raid' :
  Forall2 (raidStep tp) base l ->
  l !! i = Some raid ->
  raidStep tp raid raid' ->
  Forall2 (raidStep tp) base (<[i := raid']> l).
Proof. apply insert_evolves; [apply raidStep_core | apply raidStep_trans]. Qed.

Lemma Forall2_raidStep_refl tp l : Forall2 (raidStep tp) l l.
Proof. apply evolves_refl, raidStep_core. Qed.

Lemma writeRaid_step tp base ref raid raid' w :
  Forall2 (raidStep tp) base (recentRaids w) ->
  refHolds ref raid w ->
  raidStep tp raid raid' ->
  Forall2 (raidStep tp) base (recentRaids (writeRaid ref raid' w)).
Proof. apply writeRaid_evolves; [apply raidStep_core | apply raidStep_trans]. Qed.

Lemma finishBranch_step tp base ref raid w :
  Forall2 (raidStep tp) base (recentRaids w) ->
  refHolds ref raid w ->
  wp (if negb (isScaleLargeEnough (Raid.scale raid))
      then ret (Some raid) else persistRaid ref raid)
     (fun _ w' => Forall2 (raidStep tp) base (recentRaids w')) w.
Proof. apply finishBranch_evolves; [apply raidStep_core | apply raidStep_trans]. Qed.

Lemma placeholder_totalPoints w i raid :
  findRaidByTotalPoints None w = Some (i, raid) -> Raid.totalPoints raid = None.
Proof.
  intros H. apply scanDown_Some in H as (_ & _ & H & _).
  by apply matchesTotalPoints_qualifies in H as [H _].
Qed.

(** The registry after a points message: either every raid is where it
    was, evolved by [raidStep], or no raid matched, one was created, and
    the registry is the one [createRaidEntry] leaves, evolved likewise. *)
Lemma handleRaidCompletion_registry data w :
  let tp := PointsData.totalPoints data in
  wp (handleRaidCompletion data)
     (fun _ w' =>
        Forall2 (raidStep tp) (recentRaids w) (recentRaids w')
        \/ (findRaidByTotalPoints tp w = None
            /\ findRaidByTotalPoints None w = None
            /\ clock w - PointsData.timestamp data <= MAX_DATA_AGE
            /\ Forall2 (raidStep tp)
                 (recentRaids (createRaidEntry data (cleanOrphans w)).2)
                 (recentRaids w'))) w.
Proof.
  intros tp. unfold handleRaidCompletion.
  apply wp_bind, wp_get.
  destruct (clock w - PointsData.timestamp data >? MAX_DATA_AGE) eqn:Hage.
  { apply wp_ret. left. apply Forall2_raidStep_refl. }
  assert (clock w - PointsData.timestamp data <= MAX_DATA_AGE) by lia.
  apply wp_bind, wp_modify, wp_bind, wp_get.
  rewrite findRaidByTotalPoints_cleanOrphans.
  destruct (findRaidByTotalPoints _ w) as [[i raid]|] eqn:Hfound.
  - eapply wp_mono.
    { apply addToExistingRaid_spec.
      by apply findRaidByTotalPoints_lookup in Hfound. }
    intros r w' (raid' & Hr & _ & _ & Ht & Htp & _). left.
    rewrite Hr. simpl. eapply registry_insert_step.
    + apply Forall2_raidStep_refl.
    + by eapply findRaidByTotalPoints_lookup.
    + split; [done|]. rewrite Htp. destruct (Raid.totalPoints raid); auto.
  - apply wp_bind, wp_get. rewrite findRaidByTotalPoints_cleanOrphans.
    destruct (findRaidByTotalPoints None w) as [[i raid]|] eqn:Hplace.
    + apply wp_bind. unfold promotePlaceholder.
      apply wp_bind, wp_modify, wp_ret.
      pose proof (placeholder_totalPoints _ _ _ Hplace) as Hnull.
      pose proof (findRaidByTotalPoints_lookup _ _ _ _ Hplace) as Hi.
      match goal with
      | |- wp _ _ (writeRaid _ ?r _) => set (promoted := r)
      end.
      eapply wp_mono.
      { apply (finishBranch_step tp (recentRaids w) (Some i) promoted).
        - apply (writeRaid_step tp _ (Some i) raid); [apply Forall2_raidStep_refl|done|].
          unfold promoted.
          destruct (head (PointsData.players data)) as [p|];
            [destruct (_ && _); [destruct (negb _)|]|]; by split; [|right].
        - by eapply (writeRaid_refHolds (Some i)). }
      intros r w'. auto.
    + eapply wp_mono.
      { apply (createBranch_evolves (raidStep tp));
          [apply raidStep_core | apply raidStep_trans]. }
      intros r w' Hw'. right. by split_and?.
Qed.

Lemma findRaidForLoot_lookup data w i raid :
  findRaidForLoot data w = Some (i, raid) -> recentRaids w !! i = Some raid.
Proof.
  unfold findRaidForLoot. destruct (scanDown _ _ _) as [hit|] eqn:H1.
  - intros [= ->]. by apply scanDown_Some in H1 as (_ & H & _).
  - intros H2. by apply scanDown_Some in H2 as (_ & H & _).
Qed.

Lemma handleDurationUpdate_registry tp data w :
  wp (handleDurationUpdate data)
     (fun _ w' => Forall2 (raidStep tp) (recentRaids w) (recentRaids w')) w.
Proof.
  unfold handleDurationUpdate.
  apply wp_bind, wp_modify, wp_bind, wp_get.
  destruct (scanDown _ _ _) as [[i raid]|] eqn:Hscan.
  - apply scanDown_Some in Hscan as (_ & Hi & _).
    match goal with
    | |- wp (bind (modify (writeRaid _ ?r)) _) _ _ => set (raid' := r)
    end.
    assert (Hstep : raidStep tp raid raid').
    { unfold raid'. destruct (orNull (DurationData.scale data)); by split; [|left]. }
    apply wp_bind, wp_modify.
    assert (Hreg : Forall2 (raidStep tp) (recentRaids w)
                     (recentRaids (writeRaid (Some i) raid' (cleanOrphans w)))).
    { apply (writeRaid_step tp _ (Some i) raid); [apply Forall2_raidStep_refl|done..]. }
    destruct (persistedRow raid'); [|by apply wp_ret].
    apply wp_gateway; [apply gatewayOnly_updateRow|].
    intros r w' (H1 & _). by rewrite H1.
  - apply wp_modify. apply Forall2_raidStep_refl.
Qed.

Lemma handleLootDrop_registry tp data w :
  wp (handleLootDrop data)
     (fun _ w' => Forall2 (raidStep tp) (recentRaids w) (recentRaids w')) w.
Proof.
  unfold handleLootDrop.
  apply wp_bind, wp_modify, wp_bind, wp_get.
  destruct (findRaidForLoot data (cleanOrphans w)) as [[i raid]|] eqn:Hfound.
  - apply findRaidForLoot_lookup in Hfound.
    destruct (alreadyHasLoot _ _); [apply wp_ret, Forall2_raidStep_refl|].
    apply wp_bind, wp_modify.
    set (raid' := addLoot _ raid).
    assert (Hreg : Forall2 (raidStep tp) (recentRaids w)
                     (recentRaids (writeRaid (Some i) raid' (cleanOrphans w)))).
    { apply (writeRaid_step tp _ (Some i) raid); [apply Forall2_raidStep_refl|done|].
      destruct (addLoot_fields (lootMessage (LootData.playerName data)
                                            (LootData.itemName data)) raid)
        as (? & ? & _).
      by split; [|left]. }
    destruct (persistedRow raid'); [|by apply wp_ret].
    apply wp_gateway; [apply gatewayOnly_updateRow|].
    intros r w' (H1 & _). by rewrite H1.
  - apply wp_modify. apply Forall2_raidStep_refl.
Qed.

(** One event, whatever its kind and whatever the service answers. *)
Lemma appendToSheet_registry ev w :
  let tp := eventTotalPoints ev in
  let w' := (appendToSheet ev w).2 in
  Forall2 (raidStep tp) (recentRaids w) (recentRaids w')
  \/ exists data,
       ev = Points data
       /\ findRaidByTotalPoints tp w = None
       /\ findRaidByTotalPoints None w = None
       /\ clock w - PointsData.timestamp data <= MAX_DATA_AGE
       /\ Forall2 (raidStep tp)
            (recentRaids (createRaidEntry data (cleanOrphans w)).2)
            (recentRaids w').
Proof.
  intros tp.
  change (wp (appendToSheet ev)
             (fun _ w' =>
                Forall2 (raidStep tp) (recentRaids w) (recentRaids w')
                \/ exists data,
                     ev = Points data
                     /\ findRaidByTotalPoints tp w = None
                     /\ findRaidByTotalPoints None w = None
                     /\ clock w - PointsData.timestamp data <= MAX_DATA_AGE
                     /\ Forall2 (raidStep tp)
                          (recentRaids (createRaidEntry data (cleanOrphans w)).2)
                          (recentRaids w')) w).
  unfold appendToSheet. apply wp_tryCatch.
  destruct ev as [data|data|data|type].
  - apply wp_bind. eapply wp_mono; [apply handleRaidCompletion_registry|].
    intros r w' [H|H].
    + destruct r; [apply wp_ret|apply wp_throw]; by left.
    + destruct r; [apply wp_ret|apply wp_throw]; right; by exists data.
  - eapply wp_mono; [apply (handleDurationUpdate_registry tp)|].
    intros [[]|e] w' H; [|apply wp_throw]; by left.
  - eapply wp_mono; [apply (handleLootDrop_registry tp)|].
    intros [[]|e] w' H; [|apply wp_throw]; by left.
  - apply wp_throw, wp_throw. left. apply Forall2_raidStep_refl.
Qed.

(** ** Capacity and eviction of the registry *)

Lemma deliver_length d w :
  (length (recentRaids w) <= MAX_RAID_HISTORY)%nat ->
  (length (recentRaids (deliver d w).2) <= MAX_RAID_HISTORY)%nat.
Proof.
  intros Hlen. unfold deliver.
  set (w1 := atArrival d w).
  destruct (appendToSheet_registry (event d) w1) as [H|(data & _ & _ & _ & _ & H)];
    apply Forall2_length in H; rewrite <- H; [done|].
  by apply createRaidEntry_length.
Qed.

Lemma run_length ds w :
  (length (recentRaids w) <= MAX_RAID_HISTORY)%nat ->
  (length (recentRaids (run ds w)) <= MAX_RAID_HISTORY)%nat.
Proof.
  revert w. induction ds as [|d ds IH]; intros w Hlen; [done|].
  apply IH. by apply deliver_length.
Qed.

(** C6. The registry never holds more than 10 raids. A creation pushes
    the new raid at the newest end and removes raids from the oldest end
    only: the single oldest one when the push made 11, whether or not it
    was written to the sheet, and then every leading raid older than
    300 s; what remains keeps its order and starts with a raid that is at
    most 300 s old. *)
Theorem registry_capacity_fifo :
  (forall client ds,
      (length (recentRaids (run ds (startup client))) <= MAX_RAID_HISTORY)%nat)
  /\ (forall data w,
        let raid := (createRaidEntry data w).1 in
        let w' := (createRaidEntry data w).2 in
        let pushed := recentRaids w ++ [raid] in
        exists k,
          (k <= length pushed)%nat
          /\ recentRaids w' = drop k pushed
          /\ (length (recentRaids w) = MAX_RAID_HISTORY ->
              (1 <= k)%nat /\ (length (recentRaids w') <= MAX_RAID_HISTORY)%nat)
          /\ (forall j r,
                (j < k)%nat -> pushed !! j = Some r ->
                (j = 0%nat /\ (MAX_RAID_HISTORY <= length (recentRaids w))%nat)
                \/ clock w - Raid.timestamp r > RAID_TIMEOUT)
          /\ (forall oldest,
                head (recentRaids w') = Some oldest ->
                clock w - Raid.timestamp oldest <= RAID_TIMEOUT)).
Proof.
  split.
  - intros client ds. apply run_length. simpl. unfold MAX_RAID_HISTORY. lia.
  - intros data w raid w' pushed.
    destruct (createRaidEntry_drop data w) as (k & Hk & Hdrop & Hcap & Hevicted & Hhead).
    fold raid w' pushed in Hk, Hdrop, Hcap, Hevicted, Hhead.
    assert (Hpushed : length pushed = S (length (recentRaids w)))
      by (unfold pushed; rewrite length_app; simpl; lia).
    exists k. split_and?; try done.
    + intros Hfull. split; [apply Hcap; lia|].
      unfold w'. apply createRaidEntry_length. lia.
    + intros j r Hj Hr. destruct (Hevicted j r Hj Hr) as [[-> H]|H]; [left|by right].
      split; [done|lia].
Qed.

Lemma registry_capacity_fifo_witness :
  length (recentRaids fullRegistry) = MAX_RAID_HISTORY
  /\ (length (recentRaids (createRaidEntry eleventh fullRegistry).2)
      <= MAX_RAID_HISTORY)%nat.
Proof.
  split; [reflexivity|].
  destruct (proj2 registry_capacity_fifo eleventh fullRegistry)
    as (k & _ & _ & H & _).
  apply H. reflexivity.
Defined.

(** ** No raid without total points *)

Lemma scanDown_all_false {A} (p : A -> bool) l n :
  (forall x, x ∈ l -> p x = false) -> scanDown p l n = None.
Proof.
  intros Hall. induction n as [|n IH]; simpl; [done|].
  destruct (l !! n) as [x|] eqn:Hx; [|done].
  rewrite (Hall x); [done|]. by eapply list_elem_of_lookup_2.
Qed.

Lemma raidStep_hasTotalPoints tp l l' :
  Forall2 (raidStep tp) l l' -> Forall hasTotalPoints l -> Forall hasTotalPoints l'.
Proof.
  induction 1 as [|r r' l l' [_ Hstep] _ IH]; [done|].
  intros Hall. apply Forall_cons in Hall as [Hr Hl].
  constructor; [|by apply IH].
  unfold hasTotalPoints in *. destruct Hstep as [H|[H _]]; congruence.
Qed.

Lemma createRaidEntry_hasTotalPoints data w :
  PointsData.totalPoints data <> None ->
  Forall hasTotalPoints (recentRaids w) ->
  Forall hasTotalPoints (recentRaids (createRaidEntry data w).2).
Proof.
  intros Htp Hall.
  destruct (createRaidEntry_drop data w) as (k & _ & Hdrop & _).
  rewrite Hdrop. apply Forall_drop, Forall_app. split; [done|].
  by constructor.
Qed.

Lemma deliver_hasTotalPoints d w :
  carriesTotalPoints (event d) ->
  Forall hasTotalPoints (recentRaids w) ->
  Forall hasTotalPoints (recentRaids (deliver d w).2).
Proof.
  intros Hev Hall. unfold deliver.
  set (w1 := atArrival d w).
  destruct (appendToSheet_registry (event d) w1) as [H|(data & Hd & _ & _ & _ & H)];
    eapply raidStep_hasTotalPoints; try exact H; [done|].
  rewrite Hd in Hev. by apply createRaidEntry_hasTotalPoints.
Qed.

Lemma run_hasTotalPoints ds w :
  Forall (fun d => carriesTotalPoints (event d)) ds ->
  Forall hasTotalPoints (recentRaids w) ->
  Forall hasTotalPoints (recentRaids (run ds w)).
Proof.
  revert w. induction ds as [|d ds IH]; intros w Hds Hall; [done|].
  apply Forall_cons in Hds as [Hd Hds].
  apply IH; [done|]. by apply deliver_hasTotalPoints.
Qed.

Lemma no_placeholder w :
  Forall hasTotalPoints (recentRaids w) -> findRaidByTotalPoints None w = None.
Proof.
  intros Hall. unfold findRaidByTotalPoints. apply scanDown_all_false.
  intros raid Hin. rewrite Forall_forall in Hall. specialize (Hall raid Hin).
  unfold matchesTotalPoints, hasTotalPoints in *.
  by destruct (Raid.totalPoints raid).
Qed.

(** C10. In every world reached from the start by deliveries whose points
    messages carry a total, every raid of the registry has total points, and
    the lookup of a placeholder finds nothing at any time; a duration or a
    loot message never changes the number of raids. *)
Theorem every_raid_has_totalPoints client ds :
  Forall (fun d => carriesTotalPoints (event d)) ds ->
  let w := run ds (startup client) in
  Forall hasTotalPoints (recentRaids w)
  /\ (forall now, findRaidByTotalPoints None (setClock now w) = None)
  /\ (forall ev w0,
        (forall data, ev <> Points data) ->
        length (recentRaids (appendToSheet ev w0).2) = length (recentRaids w0)).
Proof.
  intros Hds w.
  assert (Hall : Forall hasTotalPoints (recentRaids w))
    by (apply run_hasTotalPoints; [done | constructor]).
  split_and?; [done | intros now; by apply no_placeholder |].
  intros ev w0 Hev.
  destruct (appendToSheet_registry ev w0) as [H|(data & Hd & _)].
  - symmetry. by eapply Forall2_length.
  - by destruct (Hev data).
Qed.

Lemma every_raid_has_totalPoints_witness :
  Forall (fun d => carriesTotalPoints (event d)) sampleDeliveries
  /\ Forall hasTotalPoints (recentRaids (run sampleDeliveries (startup true))).
Proof.
  assert (H : Forall (fun d => carriesTotalPoints (event d)) sampleDeliveries)
    by (repeat constructor; discriminate).
  split; [exact H|].
  exact (proj1 (every_raid_has_totalPoints true sampleDeliveries H)).
Defined.

(** ** The entry point and its handlers *)

Lemma tryCatch_rethrow {A} (m : M A) w : tryCatch m (fun error => throw error) w = m w.
Proof. unfold tryCatch, throw. by destruct (m w) as [[a|e] w']. Qed.

Lemma appendToSheet_Points data w :
  appendToSheet (Points data) w =
  (match (handleRaidCompletion data w).1 with
   | Ok _ => Ok tt
   | Throw e => Throw e
   end, (handleRaidCompletion data w).2).
Proof.
  unfold appendToSheet. rewrite tryCatch_rethrow. unfold bind, ret.
  by destruct (handleRaidCompletion data w) as [[a|e] w'].
Qed.

(** ** Points messages of one occurrence *)

Lemma Forall2_last {A B} (R : A -> B -> Prop) l k x :
  Forall2 R l k -> last l = Some x -> exists y, last k = Some y /\ R x y.
Proof.
  intros H Hl. apply last_Some in Hl as [l' ->].
  apply Forall2_app_inv_l in H as (k1 & k2 & _ & H2 & ->).
  apply Forall2_cons_inv_l in H2 as (y & k3 & Hxy & H3 & ->).
  apply Forall2_nil_inv_l in H3 as ->.
  exists y. by rewrite last_snoc.
Qed.

(** A raid younger than the registry's time-out survives its own
    creation, as the newest entry. *)
Lemma createRaidEntry_last data w :
  clock w - PointsData.timestamp data <= RAID_TIMEOUT ->
  last (recentRaids (createRaidEntry data w).2) = Some (createRaidEntry data w).1.
Proof.
  intros Hfresh.
  destruct (createRaidEntry_drop data w) as (k & Hk & Hdrop & _ & Hevicted & _).
  rewrite Hdrop. set (raid := (createRaidEntry data w).1) in *.
  assert (Hle : (k <= length (recentRaids w))%nat).
  { destruct (decide (k <= length (recentRaids w))%nat) as [|Hgt]; [done|].
    destruct (Hevicted (length (recentRaids w)) raid) as [[H0 Hcap]|Hold].
    - lia.
    - rewrite lookup_app_r by lia. by rewrite Nat.sub_diag.
    - rewrite length_app in Hcap. rewrite H0 in Hcap. simpl in Hcap.
      unfold MAX_RAID_HISTORY in Hcap. lia.
    - unfold raid in Hold. simpl in Hold. unfold RAID_TIMEOUT in *. lia. }
  rewrite drop_app_le by done. apply last_snoc.
Qed.

Lemma sameCore_trans a b c : sameCore a b -> sameCore b c -> sameCore a c.
Proof. intros (? & ? & ?) (? & ? & ?). unfold sameCore. split_and?; congruence. Qed.

(** No raid and no placeholder match: the message opens a new raid, which
    ends up newest in the registry with the message's timestamp and total
    and its players above the threshold. *)
Lemma handleRaidCompletion_creates data w :
  clock w - PointsData.timestamp data <= MAX_DATA_AGE ->
  findRaidByTotalPoints (PointsData.totalPoints data) w = None ->
  findRaidByTotalPoints None w = None ->
  exists raid,
    last (recentRaids (handleRaidCompletion data w).2) = Some raid
    /\ Raid.timestamp raid = PointsData.timestamp data
    /\ Raid.totalPoints raid = PointsData.totalPoints data
    /\ Raid.players raid =
         take MAX_PLAYERS (List.filter aboveThreshold (PointsData.players data))
    /\ length (recentRaids (handleRaidCompletion data w).2) =
       length (recentRaids (createRaidEntry data (cleanOrphans w)).2).
Proof.
  intros Hfresh Hnone Hplace.
  assert (Hwp : wp (handleRaidCompletion data)
                   (fun _ w' =>
                      Forall2 sameCore
                        (recentRaids (createRaidEntry data (cleanOrphans w)).2)
                        (recentRaids w')) w).
  { unfold handleRaidCompletion. apply wp_bind, wp_get.
    destruct (clock w - PointsData.timestamp data >? MAX_DATA_AGE) eqn:Hage; [lia|].
    apply wp_bind, wp_modify, wp_bind, wp_get.
    rewrite findRaidByTotalPoints_cleanOrphans, Hnone.
    apply wp_bind, wp_get. rewrite findRaidByTotalPoints_cleanOrphans, Hplace.
    apply (createBranch_evolves sameCore); [done | apply sameCore_trans]. }
  unfold wp in Hwp.
  destruct (Forall2_last _ _ _ _ Hwp (createRaidEntry_last data (cleanOrphans w) Hfresh))
    as (raid & Hlast & Ht & Htp & Hpl).
  exists raid. split_and?; try done.
  symmetry. by eapply Forall2_length.
Qed.

(** The newest raid matches: the message joins it, and it stays newest. *)
Lemma handleRaidCompletion_joins data tp raid w :
  clock w - PointsData.timestamp data <= MAX_DATA_AGE ->
  PointsData.totalPoints data = Some tp ->
  last (recentRaids w) = Some raid ->
  qualifies (clock w) (Some tp) raid ->
  exists raid',
    last (recentRaids (handleRaidCompletion data w).2) = Some raid'
    /\ Raid.timestamp raid' = Raid.timestamp raid
    /\ Raid.totalPoints raid' =
         match Raid.totalPoints raid with
         | None => Some tp
         | Some v => Some v
         end
    /\ Raid.players raid' =
         addPlayer (head (PointsData.players data)) (Raid.players raid)
    /\ length (recentRaids (handleRaidCompletion data w).2) = length (recentRaids w).
Proof.
  intros Hfresh Htp Hlast Hq.
  apply last_Some in Hlast as [l Hl].
  assert (Hfound : findRaidByTotalPoints (Some tp) w = Some (length l, raid)).
  { unfold findRaidByTotalPoints. rewrite Hl. apply scanDown_last.
    by apply matchesTotalPoints_qualifies. }
  assert (Hwp : wp (handleRaidCompletion data)
                   (fun _ w' =>
                      exists raid',
                        recentRaids w' = l ++ [raid']
                        /\ Raid.timestamp raid' = Raid.timestamp raid
                        /\ Raid.totalPoints raid' =
                             match Raid.totalPoints raid with
                             | None => Some tp
                             | Some v => Some v
                             end
                        /\ Raid.players raid' =
                             addPlayer (head (PointsData.players data))
                                       (Raid.players raid)) w).
  { unfold handleRaidCompletion. apply wp_bind, wp_get.
    destruct (clock w - PointsData.timestamp data >? MAX_DATA_AGE) eqn:Hage; [lia|].
    apply wp_bind, wp_modify, wp_bind, wp_get.
    rewrite findRaidByTotalPoints_cleanOrphans, Htp, Hfound.
    eapply wp_mono.
    { apply addToExistingRaid_spec. simpl. rewrite Hl.
      rewrite lookup_app_r by lia. by rewrite Nat.sub_diag. }
    intros r w' (raid' & Hr & _ & _ & Ht & Htp' & Hpl).
    exists raid'. split_and?; try done.
    - rewrite Hr. simpl. rewrite Hl.
      rewrite insert_app_r_alt by lia. by rewrite Nat.sub_diag.
    - by rewrite Htp', Htp. }
  unfold wp in Hwp. destruct Hwp as (raid' & Hr & H1 & H2 & H3).
  exists raid'. split_and?; try done.
  - rewrite Hr. apply last_snoc.
  - rewrite Hr, Hl, !length_app. done.
Qed.

(** *** The player list as a function of the players offered *)

Lemma filter_filter_bool {A} (f g : A -> bool) l :
  List.filter f (List.filter g l) = List.filter (fun x => g x && f x) l.
Proof.
  induction l as [|x l IH]; simpl; [done|].
  destruct (g x); simpl; [destruct (f x)|]; by rewrite IH.
Qed.

Lemma filter_all {A} (l : list A) : List.filter (fun _ => true) l = l.
Proof. induction l; simpl; congruence. Qed.

Lemma sameName_sym p q : sameName p q = sameName q p.
Proof. apply String.eqb_sym. Qed.

Lemma existsb_sameName acc p q :
  sameName q p = true ->
  existsb (fun a => sameName a q) acc = existsb (fun a => sameName a p) acc.
Proof.
  intros H. apply String.eqb_eq in H. unfold sameName.
  induction acc as [|a acc IH]; simpl; [done|]. by rewrite IH, H.
Qed.

Lemma addPlayer_keepNew p acc :
  addPlayer (Some p) (take MAX_PLAYERS acc) = take MAX_PLAYERS (keepNew acc p).
Proof.
  unfold addPlayer, keepNew, aboveThreshold.
  rewrite Z.geb_leb, (Z.leb_antisym (points p)).
  destruct (points p <? MIN_POINTS_THRESHOLD); simpl; [done|].
  destruct (decide (length acc < MAX_PLAYERS)%nat) as [Hlt|Hge].
  - rewrite !take_ge by lia.
    assert ((length acc <? MAX_PLAYERS)%nat = true) as -> by (by apply Nat.ltb_lt).
    simpl.
    change (fun q : Player => String.eqb (name q) (name p))
      with (fun q : Player => sameName q p).
    destruct (existsb _ acc); simpl; [by rewrite take_ge by lia|].
    rewrite take_ge; [done|]. rewrite length_app. simpl. unfold MAX_PLAYERS in *. lia.
  - assert ((length (take MAX_PLAYERS acc) <? MAX_PLAYERS)%nat = false) as ->.
    { apply Nat.ltb_ge. rewrite length_take. lia. }
    simpl. destruct (existsb _ acc); simpl; [done|].
    rewrite take_app_le by lia. done.
Qed.

Lemma foldl_addPlayer_keepNew l acc :
  foldl (fun a p => addPlayer (Some p) a) (take MAX_PLAYERS acc) l =
  take MAX_PLAYERS (foldl keepNew acc l).
Proof.
  revert acc. induction l as [|p l IH]; intros acc; [done|].
  cbn [foldl]. by rewrite addPlayer_keepNew, IH.
Qed.

Lemma foldl_keepNew l acc :
  foldl keepNew acc l =
  acc ++ List.filter (notIn acc) (dedupByName (List.filter aboveThreshold l)).
Proof.
  revert acc. induction l as [|p l IH]; intros acc; simpl.
  { by rewrite app_nil_r. }
  unfold keepNew at 2. destruct (aboveThreshold p) eqn:Hok; simpl; [|apply IH].
  rewrite IH. fold (notIn acc p).
  destruct (notIn acc p) eqn:Hp; simpl.
  - rewrite <- app_assoc. simpl. do 2 f_equal.
    rewrite filter_filter_bool. apply List.filter_ext. intros q.
    unfold notIn. rewrite existsb_app. simpl. rewrite orb_false_r, negb_orb.
    by rewrite andb_comm, (sameName_sym p q).
  - f_equal. rewrite filter_filter_bool. apply List.filter_ext. intros q.
    destruct (sameName q p) eqn:Hqp; simpl; [|done].
    unfold notIn in *. by rewrite (existsb_sameName acc p q Hqp), Hp.
Qed.

(** Offering the players one by one to an empty list leaves the
    de-duplicated list of those above the threshold, cut at five. *)
Lemma foldl_addPlayer l :
  foldl (fun a p => addPlayer (Some p) a) [] l =
  take MAX_PLAYERS (dedupByName (List.filter aboveThreshold l)).
Proof.
  change (@nil Player) with (take MAX_PLAYERS (@nil Player)) at 1.
  rewrite foldl_addPlayer_keepNew, foldl_keepNew. simpl.
  f_equal. apply filter_all.
Qed.

Lemma foldl_heads ds acc :
  Forall (fun d => (length (eventPlayers (event d)) <= 1)%nat) ds ->
  foldl (fun a d => addPlayer (head (eventPlayers (event d))) a) acc ds =
  foldl (fun a p => addPlayer (Some p) a) acc (offeredPlayers ds).
Proof.
  revert acc. induction ds as [|d ds IH]; intros acc Hds; [done|].
  apply Forall_cons in Hds as [Hd Hds].
  unfold offeredPlayers. cbn [foldl flat_map]. rewrite foldl_app.
  fold (offeredPlayers ds). rewrite <- IH by done. f_equal.
  destruct (eventPlayers (event d)) as [|p [|q l]]; simpl in *; [done..|lia].
Qed.

Lemma correlated_players tp1 t1 ds :
  Forall (correlated tp1 t1) ds ->
  Forall (fun d => (length (eventPlayers (event d)) <= 1)%nat) ds.
Proof.
  intros Hds. eapply Forall_impl; [exact Hds|].
  intros d (data & tp & -> & _ & _ & _ & _ & H). exact H.
Qed.

(** Later messages of the occurrence all join the newest raid. *)
Lemma run_correlated tp1 t1 rest w raid :
  Forall (correlated tp1 t1) rest ->
  last (recentRaids w) = Some raid ->
  Raid.timestamp raid = t1 ->
  Raid.totalPoints raid = Some tp1 ->
  exists raid',
    last (recentRaids (run rest w)) = Some raid'
    /\ Raid.timestamp raid' = t1
    /\ Raid.totalPoints raid' = Some tp1
    /\ Raid.players raid' =
         foldl (fun a d => addPlayer (head (eventPlayers (event d))) a)
               (Raid.players raid) rest
    /\ length (recentRaids (run rest w)) = length (recentRaids w).
Proof.
  revert w raid. induction rest as [|d rest IH]; intros w raid Hrest Hlast Ht Htp.
  { exists raid. by split_and?. }
  apply Forall_cons in Hrest as [(data & tp & Hev & Hdtp & Htol & Hwin & Hfresh & _) Hrest].
  assert (Hdel : (deliver d w).2 = (handleRaidCompletion data (atArrival d w)).2)
    by (unfold deliver; by rewrite Hev, appendToSheet_Points).
  destruct (handleRaidCompletion_joins data tp raid (atArrival d w))
    as (raid' & Hlast' & Ht' & Htp' & Hpl' & Hlen'); try done.
  { split.
    - unfold withinTolerance. by rewrite Htp.
    - unfold withinWindow. simpl. by rewrite Ht. }
  destruct (IH (deliver d w).2 raid') as (raid'' & H1 & H2 & H3 & H4 & H5); try done.
  - by rewrite Hdel.
  - congruence.
  - rewrite Htp', Htp. done.
  - exists raid''. split_and?; try done.
    + rewrite H4, Hpl'. cbn [foldl]. by rewrite Hev.
    + cbn [run foldl]. change (foldl _ ?a rest) with (run rest a).
      rewrite H5, Hdel. exact Hlen'.
Qed.

(** The record of an occurrence: the message that opens it and the
    messages correlated with it leave, as the newest raid, one with the
    opening message's timestamp and total and the players offered,
    filtered, de-duplicated and capped. *)
Lemma occurrence_record w first rest data1 tp1 :
  event first = Points data1 ->
  PointsData.totalPoints data1 = Some tp1 ->
  arrival first - PointsData.timestamp data1 <= MAX_DATA_AGE ->
  (length (PointsData.players data1) <= 1)%nat ->
  findRaidByTotalPoints (Some tp1) (atArrival first w) = None ->
  findRaidByTotalPoints None (atArrival first w) = None ->
  Forall (correlated tp1 (PointsData.timestamp data1)) rest ->
  exists raid,
    last (recentRaids (run (first :: rest) w)) = Some raid
    /\ Raid.timestamp raid = PointsData.timestamp data1
    /\ Raid.totalPoints raid = Some tp1
    /\ Raid.players raid =
         take MAX_PLAYERS
           (dedupByName (List.filter aboveThreshold (offeredPlayers (first :: rest))))
    /\ length (recentRaids (run (first :: rest) w)) =
       length (recentRaids (createRaidEntry data1 (cleanOrphans (atArrival first w))).2).
Proof.
  intros Hev Htp Hfresh Hone Hnone Hplace Hrest.
  assert (Hdel : (deliver first w).2 = (handleRaidCompletion data1 (atArrival first w)).2)
    by (unfold deliver; by rewrite Hev, appendToSheet_Points).
  destruct (handleRaidCompletion_creates data1 (atArrival first w))
    as (raid1 & Hlast1 & Ht1 & Htp1 & Hpl1 & Hlen1); try done.
  { by rewrite Htp. }
  destruct (run_correlated tp1 (PointsData.timestamp data1) rest
              (deliver first w).2 raid1)
    as (raid & Hlast & Ht & Htp' & Hpl & Hlen); try done.
  { by rewrite Hdel. }
  { congruence. }
  exists raid. split_and?; try done.
  2: { cbn [run foldl]. change (foldl _ ?a rest) with (run rest a).
       by rewrite Hlen, Hdel. }
  rewrite Hpl, Hpl1.
  rewrite foldl_heads by (by eapply correlated_players).
  rewrite <- foldl_addPlayer.
  unfold offeredPlayers at 2. cbn [flat_map]. rewrite Hev. cbn [eventPlayers].
  rewrite foldl_app. f_equal. fold (offeredPlayers rest).
  destruct (PointsData.players data1) as [|p [|q l]]; simpl in *; [done| |lia].
  unfold addPlayer, aboveThreshold.
  rewrite Z.geb_leb, (Z.leb_antisym (points p)).
  by destruct (points p <? MIN_POINTS_THRESHOLD).
Qed.

Lemma dedupByName_In p l : In p (dedupByName l) -> In p l.
Proof.
  induction l as [|q l IH]; simpl; [done|].
  intros [->|H]; [by left|]. right. apply filter_In in H as [H _]. by apply IH.
Qed.

(** C5. The points messages of one occurrence (the message that opens the
    raid, then messages within 500 points of its total arriving within two
    minutes of it, one participant each) leave a raid whose players are
    the participants offered, in order of arrival, without those below
    2000 points, de-duplicated by name and cut at five. *)
Theorem participants_of_one_occurrence w first rest data1 tp1 :
  event first = Points data1 ->
  PointsData.totalPoints data1 = Some tp1 ->
  arrival first - PointsData.timestamp data1 <= MAX_DATA_AGE ->
  (length (PointsData.players data1) <= 1)%nat ->
  findRaidByTotalPoints (Some tp1) (atArrival first w) = None ->
  findRaidByTotalPoints None (atArrival first w) = None ->
  Forall (correlated tp1 (PointsData.timestamp data1)) rest ->
  exists raid,
    last (recentRaids (run (first :: rest) w)) = Some raid
    /\ Raid.players raid =
         take MAX_PLAYERS
           (dedupByName (List.filter aboveThreshold (offeredPlayers (first :: rest))))
    /\ (length (Raid.players raid) <= MAX_PLAYERS)%nat
    /\ Forall (fun p => MIN_POINTS_THRESHOLD <= points p) (Raid.players raid).
Proof.
  intros Hev Htp Hfresh Hone Hnone Hplace Hrest.
  destruct (occurrence_record w first rest data1 tp1)
    as (raid & Hlast & _ & _ & Hpl & _); try done.
  exists raid. split_and?; try done.
  - rewrite Hpl, length_take. lia.
  - rewrite Hpl. apply Forall_take. apply Forall_forall. intros p Hp.
    apply list_elem_of_In, dedupByName_In, filter_In in Hp as [_ Hp].
    unfold aboveThreshold in Hp. lia.
Qed.

Lemma participants_of_one_occurrence_witness :
  exists raid,
    last (recentRaids (run (firstDelivery :: laterDeliveries) (startup true))) = Some raid
    /\ Raid.players raid = [mkPlayer "Hyperr" 94987; mkPlayer "rg44" 94394].
Proof.
  destruct (participants_of_one_occurrence (startup true) firstDelivery
              laterDeliveries hyperrPoints 291233)
    as (raid & Hlast & Hpl & _).
  - reflexivity.
  - reflexivity.
  - vm_compute. discriminate.
  - simpl. lia.
  - reflexivity.
  - reflexivity.
  - repeat constructor.
    + exists rg44Points, 291200. split_and?; try reflexivity; vm_compute; discriminate.
    + exists altPoints, 291233. split_and?; try reflexivity; vm_compute; discriminate.
    + exists hyperrAgain, 291233. split_and?; try reflexivity; vm_compute; discriminate.
  - exists raid. split; [exact Hlast|]. rewrite Hpl. reflexivity.
Defined.

(** ** Total points are set once *)









(** ** The team-size filter on the points path *)

Lemma isScaleLargeEnough_false s :
  isScaleLargeEnough s = false <-> teamSizeBelowMinimum s.
Proof.
  unfold isScaleLargeEnough, teamSizeBelowMinimum.
  destruct (truthy s); simpl; [|split; [discriminate | by intros [? _]]].
  destruct (truthy (leadingDigits s)); simpl;
    [|split; [discriminate | by intros (_ & ? & _)]].
  rewrite Z.geb_leb, Z.leb_gt. tauto.
Qed.

Lemma attempted_stable row : gatewayStable (attempted row).
Proof.
  intros w0 w (more & H & Hin). split_and?; try (intros; by exists more).
  intros a. exists (more ++ [a]). simpl. rewrite H, app_assoc. split; [done|].
  rewrite !elem_of_app. tauto.
Qed.

Lemma awaitCooldown_run w :
  exists w', awaitCooldown w = (Ok tt, w')
    /\ traceExtends w w'
    /\ sheetsClient w' = sheetsClient w.
Proof.
  unfold awaitCooldown, bind, get, when.
  destruct (_ <? _).
  - eexists. split; [reflexivity|]. split; [|done]. by eexists [_].
  - exists w. split; [reflexivity|]. split; [|done]. exists []. by rewrite app_nil_r.
Qed.

#[local] Hint Resolve keeps_ret keeps_throw keeps_get keeps_bind keeps_tryCatch
  keeps_when keeps_call keeps_wait keeps_setSheetsClient
  keeps_setLastRateLimitError keeps_emit keeps_initializeSheetsClient
  keeps_ensureSheetsExist keeps_awaitCooldown keeps_ensureClient
  keeps_appendRowFrom keeps_updateRowFrom attempted_stable : gateway.

Lemma call_attempted row a w w1 :
  a = Append row \/ a = InitClient ->
  traceExtends w w1 ->
  wp (call a) (fun _ w' => attempted row w w') w1.
Proof.
  intros Ha [more1 H1].
  assert (Hemit : attempted row w (emit a w1)).
  { exists (more1 ++ [a]). simpl. rewrite H1, app_assoc. split; [done|].
    rewrite !elem_of_app, !list_elem_of_singleton.
    destruct Ha as [->| ->]; [left|right]; by right. }
  unfold wp, call.
  destruct (pending (emit a w1)) as [|[r|c m] rest]; simpl; [done|..];
    by apply (attempted_stable row w (emit a w1)).
Qed.

(** The body of the [try] of [appendRow] gets as far as sending the row
    or trying to initialise the client. *)
Lemma appendRow_try_attempts row w :
  wp (awaitCooldown ;; ensureClient ;; call (Append row))%js
     (fun _ w' => attempted row w w') w.
Proof.
  destruct (awaitCooldown_run w) as (w1 & Hrun & Hext & Hclient).
  apply wp_bind. unfold wp at 1. rewrite Hrun. cbn [fst snd].
  apply wp_bind. unfold ensureClient. apply wp_bind, wp_get.
  destruct (sheetsClient w1); unfold when; cbn [negb].
  - apply wp_ret. by apply call_attempted; [left|].
  - eapply wp_mono with (Q := fun _ w' => attempted row w w').
    + apply wp_bind. unfold initializeSheetsClient. apply wp_bind.
      eapply wp_mono; [by apply (call_attempted row); [right|]|].
      intros [r|e] w2 H2; [|done].
      apply wp_modify.
      apply (keeps_ensureSheetsExist (attempted row) (attempted_stable row) w).
      by apply (attempted_stable row w w2).
    + intros [[]|e] w3 H3; [|done].
      by apply (keeps_call (attempted row) (attempted_stable row) _ w).
Qed.

Lemma appendRow_attempts row w : attempted row w (appendRow row w).2.
Proof.
  change (wp (appendRow row) (fun _ w' => attempted row w w') w).
  unfold appendRow. simpl. apply wp_tryCatch.
  eapply wp_mono; [apply appendRow_try_attempts|].
  intros [a|e] w' H; [done|].
  assert (Hk : keeps (attempted row)
            (if isRateLimit e
             then (now <- get clock ;;
                   modify (setLastRateLimitError now) ;;
                   wait (RETRY_DELAY * 2 ^ Z.of_nat (MAX_RETRIES - 3)) ;;
                   appendRowFrom 2 row)%js
             else if isAuthError e
                  then (modify (setSheetsClient false) ;;
                        wait RETRY_DELAY ;; appendRowFrom 2 row)%js
                  else throw e)).
  { destruct (isRateLimit e); [auto 10 with gateway|].
    destruct (isAuthError e); auto 10 with gateway. }
  by apply Hk.
Qed.

Lemma handleRaidCompletion_notFound data w :
  clock w - PointsData.timestamp data <= MAX_DATA_AGE ->
  findRaidByTotalPoints (PointsData.totalPoints data) w = None ->
  handleRaidCompletion data w =
  match scoreTarget data w with
  | (Ok (ref, raid), wg) =>
      (if negb (isScaleLargeEnough (Raid.scale raid)) then ret (Some raid)
       else persistRaid ref raid) wg
  | (Throw e, wg) => (Throw e, wg)
  end.
Proof.
  intros Hfresh Hnone.
  unfold handleRaidCompletion, scoreTarget, bind at 1, get at 1.
  destruct (clock w - PointsData.timestamp data >? MAX_DATA_AGE) eqn:Hage; [lia|].
  unfold bind at 1, modify at 1, bind at 1, get at 1.
  rewrite findRaidByTotalPoints_cleanOrphans, Hnone.
  unfold bind at 1, get at 1, bind at 1.
  destruct (findRaidByTotalPoints None (cleanOrphans w)) as [[i r]|].
  - by destruct (promotePlaceholder data i r (cleanOrphans w)) as [[[ref raid]|e] wg].
  - by destruct (createAndMerge data (cleanOrphans w)) as [[[ref raid]|e] wg].
Qed.

Lemma scoreTarget_spec data w ref raid wg :
  clock w - PointsData.timestamp data <= MAX_DATA_AGE ->
  scoreTarget data w = (Ok (ref, raid), wg) ->
  raid ∈ recentRaids wg /\ trace wg = trace w.
Proof.
  intros Hfresh. unfold scoreTarget.
  destruct (findRaidByTotalPoints None (cleanOrphans w)) as [[i r]|] eqn:Hplace.
  - unfold promotePlaceholder, bind, modify, ret. intros [= <- <- <-].
    split; [|done]. simpl. apply list_elem_of_lookup. exists i.
    apply list_lookup_insert_eq.
    apply findRaidByTotalPoints_lookup in Hplace. by eapply lookup_lt_Some.
  - unfold createAndMerge, bind, state, get, modify, ret.
    pose proof (createRaidEntry_last data (cleanOrphans w) Hfresh) as Hlast.
    pose proof (createRaidEntry_newest data (cleanOrphans w)) as Hnew.
    destruct (createRaidEntry data (cleanOrphans w)) as [raid0 w1] eqn:Hc.
    simpl in Hlast, Hnew.
    pose proof (mergeOrphansWithRaid_fields raid0 w1) as Hm.
    destruct (mergeOrphansWithRaid raid0 w1) as [[m merged] w2].
    destruct Hm as (Hreg & _ & Htr & _).
    intros [= <- <- <-].
    assert (Htrace : trace w1 = trace w).
    { replace w1 with (createRaidEntry data (cleanOrphans w)).2 by (by rewrite Hc).
      done. }
    destruct (newestRef w1) as [i|] eqn:Href.
    + split; [|simpl; congruence]. simpl. apply list_elem_of_lookup. exists i.
      apply list_lookup_insert_eq. rewrite Hreg.
      specialize (Hnew i eq_refl). by eapply lookup_lt_Some.
    + unfold newestRef in Href. destruct (recentRaids w1); [|discriminate].
      by rewrite last_nil in Hlast.
Qed.

Lemma persistRaid_attempts ref raid w :
  Raid.totalPoints raid <> None ->
  Raid.addedToSheet raid = false ->
  attempted (raidToRow raid) w (persistRaid ref raid w).2.
Proof.
  intros Htp Hnew.
  change (wp (persistRaid ref raid) (fun _ w' => attempted (raidToRow raid) w w') w).
  unfold persistRaid. rewrite Hnew, bool_decide_true by done. cbn [negb andb].
  apply wp_bind.
  apply (wp_mono _ (fun _ w' => attempted (raidToRow raid) w w'));
    [exact (appendRow_attempts (raidToRow raid) w)|].
  intros [[n|]|e] w' H; [|by apply wp_ret|done].
  apply wp_bind, wp_modify, wp_ret. by destruct ref.
Qed.

(** C7. On the points path, once the raid is created or promoted: if its
    team size is known, starts with a number and that number is below 10,
    the handler returns at once: nothing is sent to the sheet, no call or
    timer is issued, and the raid is in the registry; otherwise (empty
    team size, no leading number, or 10 and more) the handler goes on
    with the write to the sheet, which for a raid with total points not
    yet in the sheet is an append that gets as far as sending the row or
    initialising the client. *)
Theorem teamSize_gate data w ref raid wg :
  clock w - PointsData.timestamp data <= MAX_DATA_AGE ->
  findRaidByTotalPoints (PointsData.totalPoints data) w = None ->
  scoreTarget data w = (Ok (ref, raid), wg) ->
  (teamSizeBelowMinimum (Raid.scale raid) ->
     handleRaidCompletion data w = (Ok (Some raid), wg)
     /\ trace wg = trace w
     /\ raid ∈ recentRaids wg)
  /\ (~ teamSizeBelowMinimum (Raid.scale raid) ->
        handleRaidCompletion data w = persistRaid ref raid wg
        /\ (Raid.totalPoints raid <> None -> Raid.addedToSheet raid = false ->
            attempted (raidToRow raid) w (handleRaidCompletion data w).2)).
Proof.
  intros Hfresh Hnone Htarget.
  pose proof (handleRaidCompletion_notFound data w Hfresh Hnone) as Hrun.
  rewrite Htarget in Hrun.
  destruct (scoreTarget_spec data w ref raid wg Hfresh Htarget) as [Hin Htrace].
  split.
  - intros Hsmall. apply isScaleLargeEnough_false in Hsmall.
    rewrite Hsmall in Hrun. by split_and?.
  - intros Hlarge.
    assert (Hgate : isScaleLargeEnough (Raid.scale raid) = true).
    { destruct (isScaleLargeEnough (Raid.scale raid)) eqn:E; [done|].
      by apply isScaleLargeEnough_false in E. }
    rewrite Hgate in Hrun. split; [done|].
    intros Htp Hnew. rewrite Hrun.
    destruct (persistRaid_attempts ref raid wg Htp Hnew) as (more & Hmore & Hsent).
    exists more. by rewrite <- Htrace.
Qed.

Lemma teamSize_gate_witness :
  exists raid,
    handleRaidCompletion smallTeamPoints smallTeamWaiting
    = (Ok (Some raid), (scoreTarget smallTeamPoints smallTeamWaiting).2)
    /\ Raid.scale raid = "8-10"
    /\ trace (handleRaidCompletion smallTeamPoints smallTeamWaiting).2 = [].
Proof.
  assert (Hfresh : clock smallTeamWaiting - PointsData.timestamp smallTeamPoints
                   <= MAX_DATA_AGE) by (by vm_compute).
  assert (Hnone : findRaidByTotalPoints (PointsData.totalPoints smallTeamPoints)
                    smallTeamWaiting = None) by reflexivity.
  destruct (scoreTarget smallTeamPoints smallTeamWaiting) as [[[ref raid]|e] wg] eqn:Ht;
    [|by vm_compute in Ht].
  assert (Hscale : Raid.scale raid = "8-10") by (vm_compute in Ht; by injection Ht as _ <- _).
  destruct (teamSize_gate smallTeamPoints smallTeamWaiting ref raid wg Hfresh Hnone Ht)
    as [Hblocked _].
  destruct Hblocked as (Hrun & Htrace & _).
  { rewrite Hscale. unfold teamSizeBelowMinimum.
    split_and?; [reflexivity | reflexivity | by vm_compute]. }
  exists raid. rewrite Hrun. split_and?; [done | done | exact Htrace].
Defined.

(** ** Expiry of orphans *)



Lemma bind_get {A B} (f : World -> A) (k : A -> M B) w :
  bind (get f) k w = k (f w) w.
Proof. done. Qed.

Lemma bind_modify {B} f (k : unit -> M B) w :
  bind (modify f) k w = k tt (f w).
Proof. done. Qed.




(** ** What escapes the entry point *)

Create HintDb escapes.

Section OnlyPersistence.
Context {A B : Type}.

Lemma onlyPersistence_ret (a : A) : onlyPersistence (ret a).
Proof. by intros w. Qed.

Lemma onlyPersistence_get (f : World -> A) : onlyPersistence (get f).
Proof. by intros w. Qed.

Lemma onlyPersistence_throw e : persistenceError e -> onlyPersistence (@throw A e).
Proof. by intros He w. Qed.

Lemma onlyPersistence_bind (m : M A) (k : A -> M B) :
  onlyPersistence m -> (forall a, onlyPersistence (k a)) -> onlyPersistence (bind m k).
Proof.
  intros Hm Hk w. specialize (Hm w). unfold bind.
  destruct (m w) as [[a|e] w']; [apply Hk | done].
Qed.

Lemma onlyPersistence_tryCatch (m : M A) h :
  onlyPersistence m ->
  (forall e, persistenceError e -> onlyPersistence (h e)) ->
  onlyPersistence (tryCatch m h).
Proof.
  intros Hm Hh w. specialize (Hm w). unfold tryCatch.
  destruct (m w) as [[a|e] w']; [done | by apply Hh].
Qed.
End OnlyPersistence.

Lemma onlyPersistence_modify f : onlyPersistence (modify f).
Proof. by intros w. Qed.

Lemma onlyPersistence_when b m : onlyPersistence m -> onlyPersistence (when b m).
Proof. destruct b; [done | intros _; apply onlyPersistence_ret]. Qed.

Lemma onlyPersistence_call a : onlyPersistence (call a).
Proof. intros w. unfold call. by destruct (pending (emit a w)) as [|[r|c m] rest]. Qed.

Lemma onlyPersistence_wait ms : onlyPersistence (wait ms).
Proof. apply onlyPersistence_modify. Qed.

#[local] Hint Resolve onlyPersistence_ret onlyPersistence_get onlyPersistence_throw
  onlyPersistence_bind onlyPersistence_tryCatch onlyPersistence_modify
  onlyPersistence_when onlyPersistence_call onlyPersistence_wait : escapes.

Lemma persistenceError_exhausted : persistenceError AppendRetriesExhausted.
Proof. exact I. Qed.

#[local] Hint Resolve persistenceError_exhausted : escapes.

Lemma onlyPersistence_ensureClient : onlyPersistence ensureClient.
Proof.
  unfold ensureClient, initializeSheetsClient, ensureSheetsExist, initializeSheetsClient.
  auto 15 with escapes.
Qed.

Lemma onlyPersistence_awaitCooldown : onlyPersistence awaitCooldown.
Proof. unfold awaitCooldown. auto 10 with escapes. Qed.

#[local] Hint Resolve onlyPersistence_ensureClient onlyPersistence_awaitCooldown : escapes.

Lemma onlyPersistence_appendRowFrom n row : onlyPersistence (appendRowFrom n row).
Proof.
  induction n as [|n IH]; simpl.
  - apply onlyPersistence_tryCatch; [auto 10 with escapes|].
    intros e He. destruct (isRateLimit e); [auto 10 with escapes|].
    destruct (isAuthError e); auto 10 with escapes.
  - apply onlyPersistence_tryCatch; [auto 10 with escapes|].
    intros e He. destruct (isRateLimit e); [auto 10 with escapes|].
    destruct (isAuthError e); auto 10 with escapes.
Qed.

Lemma onlyPersistence_updateRowFrom n rowNumber row :
  onlyPersistence (updateRowFrom n rowNumber row).
Proof.
  induction n as [|n IH]; simpl.
  - apply onlyPersistence_tryCatch; [auto 10 with escapes|].
    intros e He. destruct (isRateLimit e); auto 10 with escapes.
  - apply onlyPersistence_tryCatch; [auto 10 with escapes|].
    intros e He. destruct (isRateLimit e); auto 10 with escapes.
Qed.

Section Behaves.
Context {A B : Type}.

Lemma behaves_ret (a : A) : behaves (ret a).
Proof. intros w. split; [done|]. intros H. split; [by exists a | done]. Qed.

Lemma behaves_get (f : World -> A) : behaves (get f).
Proof. intros w. split; [done|]. intros H. split; [by eexists | done]. Qed.

Lemma behaves_state (f : World -> A * World) :
  (forall w, pending (f w).2 = pending w) -> behaves (state f).
Proof.
  intros Hf w. specialize (Hf w). unfold state, calm.
  destruct (f w) as [a w']. simpl in *. split; [done|].
  intros H. split; [by exists a | by rewrite Hf].
Qed.

Lemma behaves_bind (m : M A) (k : A -> M B) :
  behaves m -> (forall a, behaves (k a)) -> behaves (bind m k).
Proof.
  intros Hm Hk w. destruct (Hm w) as [Hp Hc]. unfold bind.
  destruct (m w) as [[a|e] w']; simpl in *.
  - split; [apply Hk|]. intros H. destruct (Hc H) as [_ Hc']. by apply Hk.
  - split; [done|]. intros H. by destruct (Hc H) as [[a Ha] _].
Qed.

Lemma behaves_tryCatch (m : M A) h :
  behaves m ->
  (forall e, persistenceError e -> onlyPersistence (h e)) ->
  behaves (tryCatch m h).
Proof.
  intros Hm Hh w. destruct (Hm w) as [Hp Hc]. unfold tryCatch.
  destruct (m w) as [[a|e] w']; simpl in *.
  - split; [done|]. exact Hc.
  - split; [by apply Hh|]. intros H. by destruct (Hc H) as [[a Ha] _].
Qed.
End Behaves.

Lemma behaves_modify f : (forall w, pending (f w) = pending w) -> behaves (modify f).
Proof.
  intros Hf w. split; [done|]. intros H.
  split; [by exists tt|]. unfold calm, modify. simpl. by rewrite Hf.
Qed.

Lemma behaves_when b m : behaves m -> behaves (when b m).
Proof. destruct b; [done | intros _; apply behaves_ret]. Qed.

Lemma behaves_call a : behaves (call a).
Proof.
  intros w. split; [apply onlyPersistence_call|].
  unfold calm. intros H. unfold call.
  change (pending (emit a w)) with (pending w).
  destruct (pending w) as [|[r|c m] rest] eqn:E; cbn [fst snd].
  - split; [by eexists|]. change (pending (emit a w)) with (pending w).
    rewrite E. constructor.
  - split; [by eexists|]. cbn. by apply Forall_cons in H as [_ H].
  - by apply Forall_cons in H as [[] _].
Qed.

Lemma behaves_wait ms : behaves (wait ms).
Proof. by apply behaves_modify. Qed.

#[local] Hint Resolve behaves_ret behaves_get behaves_bind behaves_when
  behaves_call behaves_wait : escapes.

Lemma behaves_ensureClient : behaves ensureClient.
Proof.
  unfold ensureClient, initializeSheetsClient, ensureSheetsExist, initializeSheetsClient.
  assert (behaves (modify (setSheetsClient true))) by (by apply behaves_modify).
  auto 15 with escapes.
Qed.

Lemma behaves_awaitCooldown : behaves awaitCooldown.
Proof. unfold awaitCooldown. auto 10 with escapes. Qed.

#[local] Hint Resolve behaves_ensureClient behaves_awaitCooldown
  onlyPersistence_appendRowFrom onlyPersistence_updateRowFrom : escapes.

Lemma behaves_appendRowFrom n row : behaves (appendRowFrom n row).
Proof.
  destruct n as [|n]; simpl.
  - apply behaves_tryCatch; [auto 10 with escapes|].
    intros e He. destruct (isRateLimit e); [auto 10 with escapes|].
    destruct (isAuthError e); auto 10 with escapes.
  - apply behaves_tryCatch; [auto 10 with escapes|].
    intros e He. destruct (isRateLimit e); [auto 10 with escapes|].
    destruct (isAuthError e); auto 10 with escapes.
Qed.

Lemma behaves_updateRowFrom n rowNumber row : behaves (updateRowFrom n rowNumber row).
Proof.
  destruct n as [|n]; simpl.
  - apply behaves_tryCatch; [auto 10 with escapes|].
    intros e He. destruct (isRateLimit e); auto 10 with escapes.
  - apply behaves_tryCatch; [auto 10 with escapes|].
    intros e He. destruct (isRateLimit e); auto 10 with escapes.
Qed.

Lemma behaves_appendRow row : behaves (appendRow row).
Proof. apply behaves_appendRowFrom. Qed.

Lemma behaves_updateRow rowNumber row : behaves (updateRow rowNumber row).
Proof. apply behaves_updateRowFrom. Qed.

Lemma behaves_writeRaid ref raid : behaves (modify (writeRaid ref raid)).
Proof. apply behaves_modify. intros w. by destruct ref. Qed.

Lemma behaves_cleanOrphans : behaves (modify cleanOrphans).
Proof. by apply behaves_modify. Qed.

Lemma behaves_emit a : behaves (modify (emit a)).
Proof. by apply behaves_modify. Qed.

#[local] Hint Resolve behaves_writeRaid behaves_cleanOrphans behaves_emit
  behaves_appendRow behaves_updateRow : escapes.

Lemma behaves_addToExistingRaid data i raid : behaves (addToExistingRaid data i raid).
Proof.
  unfold addToExistingRaid.
  apply behaves_bind; [auto with escapes|]. intros _.
  destruct (head (PointsData.players data)) as [p|]; [|auto with escapes].
  destruct (points p <? MIN_POINTS_THRESHOLD); [auto with escapes|].
  destruct (_ <? _)%nat; [|auto with escapes].
  destruct (negb _); [|auto with escapes].
  apply behaves_bind; [auto with escapes|]. intros _.
  destruct (persistedRow _); auto 10 with escapes.
Qed.

Lemma behaves_persistRaid ref raid : behaves (persistRaid ref raid).
Proof.
  unfold persistRaid. destruct (_ && _).
  - apply behaves_bind; [auto with escapes|]. intros [n|]; auto 10 with escapes.
  - destruct (persistedRow raid); auto 10 with escapes.
Qed.

Lemma behaves_createAndMerge data : behaves (createAndMerge data).
Proof.
  unfold createAndMerge.
  apply behaves_bind; [by apply behaves_state|]. intros raid.
  apply behaves_bind; [auto with escapes|]. intros ref.
  apply behaves_bind; [|auto with escapes].
  apply behaves_state. intros w.
  pose proof (mergeOrphansWithRaid_fields raid w) as H.
  destruct (mergeOrphansWithRaid raid w) as [[m r] w']. simpl. tauto.
Qed.

Lemma behaves_promotePlaceholder data i raid : behaves (promotePlaceholder data i raid).
Proof. unfold promotePlaceholder. auto 10 with escapes. Qed.

#[local] Hint Resolve behaves_addToExistingRaid behaves_persistRaid
  behaves_createAndMerge behaves_promotePlaceholder : escapes.

Lemma behaves_handleRaidCompletion data : behaves (handleRaidCompletion data).
Proof.
  unfold handleRaidCompletion.
  apply behaves_bind; [auto with escapes|]. intros now.
  destruct (_ >? _); [auto with escapes|].
  apply behaves_bind; [auto with escapes|]. intros _.
  apply behaves_bind; [auto with escapes|]. intros [[i raid]|]; [auto with escapes|].
  apply behaves_bind; [auto with escapes|]. intros placeholder.
  apply behaves_bind.
  - destruct placeholder as [[i raid]|]; auto with escapes.
  - intros [ref raid]. destruct (negb _); auto with escapes.
Qed.

Lemma behaves_handleDurationUpdate data : behaves (handleDurationUpdate data).
Proof.
  unfold handleDurationUpdate.
  apply behaves_bind; [auto with escapes|]. intros _.
  apply behaves_bind; [auto with escapes|]. intros [[i raid]|].
  - apply behaves_bind; [auto with escapes|]. intros _.
    destruct (persistedRow _); auto with escapes.
  - by apply behaves_modify.
Qed.

Lemma behaves_handleLootDrop data : behaves (handleLootDrop data).
Proof.
  unfold handleLootDrop.
  apply behaves_bind; [auto with escapes|]. intros _.
  apply behaves_bind; [auto with escapes|]. intros [[i raid]|].
  - destruct (alreadyHasLoot _ _); [auto with escapes|].
    apply behaves_bind; [auto with escapes|]. intros _.
    destruct (persistedRow _); auto with escapes.
  - by apply behaves_modify.
Qed.

Lemma behaves_appendToSheet ev : recognized ev -> behaves (appendToSheet ev).
Proof.
  intros Hev. unfold appendToSheet.
  apply behaves_tryCatch; [|auto with escapes].
  destruct ev as [data|data|data|type]; [| | |done].
  - apply behaves_bind; [apply behaves_handleRaidCompletion | auto with escapes].
  - apply behaves_handleDurationUpdate.
  - apply behaves_handleLootDrop.
Qed.

(** C1, on the code: a failed append escapes the entry point. *)
Lemma appendToSheet_failure_escapes :
  recognized (Points hyperrPoints)
  /\ (appendToSheet (Points hyperrPoints) serviceDown).1 = Throw (ApiError 500 false).
Proof. split; [exact I | reflexivity]. Qed.

(** C1, as the code has it. The entry point catches only to log and
    throws again: on an event of a recognized type it ends as the handler
    ends, so what escapes is an error of a persistence call that failed for
    good, and nothing escapes when the service answers every call with
    success; on any other type it throws the unknown-type error and
    leaves the world as it is. *)
Theorem appendToSheet_rethrows :
  (forall data w,
      appendToSheet (Points data) w =
      (match (handleRaidCompletion data w).1 with
       | Ok _ => Ok tt
       | Throw e => Throw e
       end, (handleRaidCompletion data w).2))
  /\ (forall data w, appendToSheet (Duration data) w = handleDurationUpdate data w)
  /\ (forall data w, appendToSheet (Loot data) w = handleLootDrop data w)
  /\ (forall type w, appendToSheet (Other type) w = (Throw (UnknownDataType type), w))
  /\ (forall ev w e,
        recognized ev -> (appendToSheet ev w).1 = Throw e -> persistenceError e)
  /\ (forall ev w,
        recognized ev -> calm w -> (appendToSheet ev w).1 = Ok tt).
Proof.
  split_and?.
  - apply appendToSheet_Points.
  - intros data w. unfold appendToSheet. apply tryCatch_rethrow.
  - intros data w. unfold appendToSheet. apply tryCatch_rethrow.
  - done.
  - intros ev w e Hev Hthrow.
    destruct (behaves_appendToSheet ev Hev w) as [Hp _]. by rewrite Hthrow in Hp.
  - intros ev w Hev Hcalm.
    destruct (behaves_appendToSheet ev Hev w) as [_ Hc].
    destruct (Hc Hcalm) as [[[] Ha] _]. exact Ha.
Qed.

Lemma appendToSheet_rethrows_witness :
  recognized samplePoints
  /\ calm (atArrival (mkDelivery 1700000000100 [Success (Some 2)] samplePoints)
                     (startup true))
  /\ (appendToSheet samplePoints
        (atArrival (mkDelivery 1700000000100 [Success (Some 2)] samplePoints)
                   (startup true))).1 = Ok tt.
Proof.
  assert (Hcalm : calm (atArrival (mkDelivery 1700000000100 [Success (Some 2)] samplePoints)
                                  (startup true)))
    by (repeat constructor).
  split_and?; [exact I | exact Hcalm |].
  destruct appendToSheet_rethrows as (_ & _ & _ & _ & _ & H).
  apply H; [exact I | exact Hcalm].
Defined.

(** ** Retrying persistence calls *)

(** What the two calls share: a rate-limit answer stamps the cooldown,
    and while retries are left both wait [RETRY_DELAY * 2 ^ retryCount]
    and call themselves again. *)
Lemma rate_limit_backoff_shared n rowNumber row w code msg rest :
  sheetsClient w = true ->
  RATE_LIMIT_COOLDOWN <= clock w - lastRateLimitError w ->
  pending w = Failure code msg :: rest ->
  isRateLimit (ApiError code msg) = true ->
  let delay := RETRY_DELAY * 2 ^ Z.of_nat (MAX_RETRIES - S n) in
  let backedOff a :=
    emit (Wait delay)
         (setClock (clock w + delay)
                   (setLastRateLimitError (clock w) (setPending rest (emit a w)))) in
  appendRowFrom (S n) row w = appendRowFrom n row (backedOff (Append row))
  /\ updateRowFrom (S n) rowNumber row w
     = updateRowFrom n rowNumber row (backedOff (Update rowNumber row)).
Proof.
  intros Hclient Hcool Hpending Hrate delay backedOff.
  destruct w as [client last raids ds ls now pend tr]. simpl in *. subst client pend.
  assert (Hnow : (now - last <? RATE_LIMIT_COOLDOWN) = false) by lia.
  split.
  - cbn [appendRowFrom].
    unfold tryCatch at 1, bind at 1, awaitCooldown, bind at 1, get at 1, bind at 1,
      get at 1. cbn [clock lastRateLimitError fst snd].
    rewrite Hnow. unfold when at 1, ret at 1, bind at 1, ensureClient, bind at 1,
      get at 1. cbn [sheetsClient negb]. unfold when at 1, ret at 1, call at 1.
    cbn [pending emit]. cbn [isRateLimit]. cbn [isRateLimit] in Hrate. rewrite Hrate.
    reflexivity.
  - cbn [updateRowFrom].
    unfold tryCatch at 1, bind at 1, awaitCooldown, bind at 1, get at 1, bind at 1,
      get at 1. cbn [clock lastRateLimitError fst snd].
    rewrite Hnow. unfold when at 1, ret at 1, bind at 1, ensureClient, bind at 1,
      get at 1. cbn [sheetsClient negb]. unfold when at 1, ret at 1, bind at 1, call at 1.
    cbn [pending emit]. cbn [isRateLimit]. cbn [isRateLimit] in Hrate. rewrite Hrate.
    reflexivity.
Qed.

(** C8, on the code: an authentication error makes [updateRow] give up at
    once, with the cached client kept and a single call issued, where
    [appendRow] drops the client, waits, initialises a new one and sends
    the row again. *)
Theorem updateRow_gives_up_on_auth_error rowNumber row w code :
  sheetsClient w = true ->
  RATE_LIMIT_COOLDOWN <= clock w - lastRateLimitError w ->
  pending w = [Failure code false] ->
  code = 401 \/ code = 403 ->
  updateRow rowNumber row w
  = (Throw (ApiError code false), setPending [] (emit (Update rowNumber row) w))
  /\ (appendRow row w).1 = Ok None
  /\ trace (appendRow row w).2
     = trace w ++ [Append row; Wait RETRY_DELAY; InitClient; EnsureSheets; Append row]
  /\ sheetsClient (appendRow row w).2 = true.
Proof.
  intros Hclient Hcool Hpending Hcode.
  destruct w as [client last raids ds ls now pend tr]. simpl in *. subst client pend.
  assert (Hnow : (now - last <? RATE_LIMIT_COOLDOWN) = false) by lia.
  assert (Hlater : (now + RETRY_DELAY - last <? RATE_LIMIT_COOLDOWN) = false)
    by (unfold RETRY_DELAY; lia).
  unfold updateRow, appendRow. simpl.
  unfold tryCatch, bind, awaitCooldown, ensureClient, bind, get, when, call.
  simpl. rewrite Hnow. simpl.
  destruct Hcode as [-> | ->]; simpl.
  all: rewrite Hlater; unfold ret, initializeSheetsClient, ensureSheetsExist, bind,
         get, when, call, modify; simpl.
  all: rewrite <- !app_assoc; by split_and?.
Qed.

Lemma updateRow_gives_up_on_auth_error_witness :
  (updateRow 2 [] credentialsRejected).1 = Throw (ApiError 401 false)
  /\ sheetsClient (updateRow 2 [] credentialsRejected).2 = true
  /\ trace (updateRow 2 [] credentialsRejected).2 = [Update 2 []].
Proof.
  destruct (updateRow_gives_up_on_auth_error 2 [] credentialsRejected 401)
    as [Hupdate _]; [reflexivity | by vm_compute | reflexivity | by left |].
  rewrite Hupdate. by split_and?.
Defined.

(** ** Sorting *)

Section Sort.
Context {A : Type} (cmp : A -> A -> Z).
Context (cmp_total : forall x y, cmp x y <= 0 \/ cmp y x <= 0).

Lemma sortInsert_Permutation x l : sortInsert cmp x l ≡ₚ x :: l.
Proof.
  induction l as [|y l IH]; simpl; [done|].
  destruct (cmp x y <=? 0); [done|]. rewrite IH. apply Permutation_swap.
Qed.

Lemma sort_Permutation l : sort cmp l ≡ₚ l.
Proof.
  induction l as [|x l IH]; [done|].
  unfold sort in *. cbn [foldr]. by rewrite sortInsert_Permutation, IH.
Qed.

Lemma sortInsert_Sorted x l :
  Sorted (fun a b => cmp a b <= 0) l ->
  Sorted (fun a b => cmp a b <= 0) (sortInsert cmp x l).
Proof.
  induction 1 as [|y l Hl IH Hhd]; simpl; [by repeat constructor|].
  destruct (cmp x y <=? 0) eqn:Hxy.
  - apply Z.leb_le in Hxy. by repeat constructor.
  - apply Z.leb_gt in Hxy. constructor; [done|].
    destruct Hhd as [|z l Hyz]; simpl.
    + constructor. destruct (cmp_total x y); lia.
    + destruct (cmp x z <=? 0); constructor; [|done].
      destruct (cmp_total x y); lia.
Qed.

Lemma sort_Sorted l : Sorted (fun a b => cmp a b <= 0) (sort cmp l).
Proof.
  induction l as [|x l IH]; [constructor|].
  unfold sort in *. cbn [foldr]. by apply sortInsert_Sorted.
Qed.
End Sort.

(** ** Consumption of orphan loot *)

Lemma matchingLoots_ext raidTime l l' n :
  (forall i, (i < n)%nat -> l !! i = l' !! i) ->
  matchingLoots raidTime l n = matchingLoots raidTime l' n.
Proof.
  induction n as [|n IH]; intros Hext; simpl; [done|].
  rewrite <- (Hext n) by lia. rewrite IH by (intros; apply Hext; lia). done.
Qed.

Lemma matchingLoots_below raidTime l n :
  Forall (fun i => (i < n)%nat) (map index (matchingLoots raidTime l n)).
Proof.
  induction n as [|n IH]; simpl; [constructor|].
  assert (Hweak : Forall (fun i => (i < S n)%nat) (map index (matchingLoots raidTime l n)))
    by (eapply Forall_impl; [exact IH | simpl; lia]).
  destruct (l !! n) as [o|]; [|done].
  destruct (_ && _); [|done]. simpl. constructor; [lia|done].
Qed.

Lemma matchingLoots_descending raidTime l n :
  Sorted (fun a b => (b <= a)%nat) (map index (matchingLoots raidTime l n)).
Proof.
  induction n as [|n IH]; simpl; [constructor|].
  destruct (l !! n) as [o|]; [|done].
  destruct (_ && _); [|done]. simpl. constructor; [done|].
  pose proof (matchingLoots_below raidTime l n) as Hbelow.
  destruct (map index (matchingLoots raidTime l n)) as [|b rest]; constructor.
  apply Forall_cons in Hbelow as [Hb _]. lia.
Qed.

(** The matches are the orphans inside the window, newest position
    first, each with its distance to the raid. *)
Lemma matchingLoots_orphans raidTime l n :
  (n <= length l)%nat ->
  map orphan (matchingLoots raidTime l n)
  = rev (List.filter (inMergeWindow raidTime) (take n l))
  /\ Forall (fun m => timeDiff m = raidTime - LootOrphan.timestamp (orphan m))
            (matchingLoots raidTime l n).
Proof.
  induction n as [|n IH]; intros Hn.
  { split; [done | constructor]. }
  cbn [matchingLoots].
  destruct (lookup_lt_is_Some_2 l n) as [o Ho]; [lia|].
  destruct IH as [IH1 IH2]; [lia|].
  rewrite Ho, (take_S_r _ _ _ Ho), List.filter_app, rev_app_distr. cbv zeta.
  change ((raidTime - LootOrphan.timestamp o >=? 0)
          && (raidTime - LootOrphan.timestamp o <=? MERGE_WINDOW))
    with (inMergeWindow raidTime o).
  cbn [List.filter]. destruct (inMergeWindow raidTime o); simpl; [|by split].
  split; [by rewrite IH1 | by constructor].
Qed.

(** Deleting the matched positions, largest first, leaves the orphans
    outside the window. *)
Lemma delete_matching raidTime l n :
  (n <= length l)%nat ->
  foldl (fun l idx => delete idx l) l (map index (matchingLoots raidTime l n))
  = List.filter (fun o => negb (inMergeWindow raidTime o)) (take n l) ++ drop n l.
Proof.
  revert l. induction n as [|n IH]; intros l Hn.
  { done. }
  cbn [matchingLoots].
  destruct (lookup_lt_is_Some_2 l n) as [o Ho]; [lia|].
  rewrite Ho, (take_S_r _ _ _ Ho), List.filter_app. cbv zeta.
  change ((raidTime - LootOrphan.timestamp o >=? 0)
          && (raidTime - LootOrphan.timestamp o <=? MERGE_WINDOW))
    with (inMergeWindow raidTime o).
  cbn [List.filter]. destruct (inMergeWindow raidTime o); simpl.
  - rewrite (matchingLoots_ext raidTime l (delete n l) n)
      by (intros i Hi; by rewrite list_lookup_delete_lt).
    rewrite IH by (rewrite length_delete; [lia | by eexists]).
    rewrite app_nil_r, delete_take_drop.
    rewrite take_app_le, drop_app_length' by (rewrite ?length_take; lia).
    by rewrite take_take, Nat.min_id.
  - rewrite IH by lia. rewrite <- app_assoc. simpl.
    by rewrite (drop_S _ _ _ Ho).
Qed.

Lemma Sorted_weaken {A} (R1 R2 : A -> A -> Prop) l :
  (forall a b, R1 a b -> R2 a b) -> Sorted R1 l -> Sorted R2 l.
Proof.
  intros H. induction 1 as [|x l Hl IH Hhd]; constructor; [done|].
  destruct Hhd; constructor; auto.
Qed.

Lemma descending_unique (l1 l2 : list nat) :
  Sorted (fun a b => (b <= a)%nat) l1 ->
  Sorted (fun a b => (b <= a)%nat) l2 ->
  l1 ≡ₚ l2 -> l1 = l2.
Proof.
  apply Sorted_unique_strong.
  - intros x y z Hxy Hyz. lia.
  - intros x y _ _ Hxy Hyx. lia.
Qed.

(** What the loot half of [mergeOrphansWithRaid] does, whatever the raid
    already holds: every orphan inside the window leaves the buffer, and
    the raid receives them all, the closest first. *)
Lemma mergeLootOrphans_consumes raid w :
  let '(_, raid', w') := mergeLootOrphans raid w in
  loots w'
  = List.filter (fun o => negb (inMergeWindow (Raid.timestamp raid) o)) (loots w)
  /\ exists consumed,
       consumed ≡ₚ List.filter (inMergeWindow (Raid.timestamp raid)) (loots w)
       /\ Sorted (closerTo (Raid.timestamp raid)) consumed
       /\ raid' = foldl consume raid consumed.
Proof.
  unfold mergeLootOrphans.
  set (raidTime := Raid.timestamp raid).
  set (matches := matchingLoots raidTime (loots w) (length (loots w))).
  pose proof (delete_matching raidTime (loots w) (length (loots w)) (le_n _)) as Hdel.
  destruct (matchingLoots_orphans raidTime (loots w) (length (loots w)) (le_n _))
    as [Horph Hdiff].
  rewrite firstn_all, drop_all, app_nil_r in Hdel. rewrite firstn_all in Horph.
  fold matches in Hdel, Horph, Hdiff.
  assert (Hempty : matches = [] ->
            loots w = List.filter (fun o => negb (inMergeWindow raidTime o)) (loots w)
            /\ exists consumed,
                 consumed ≡ₚ List.filter (inMergeWindow raidTime) (loots w)
                 /\ Sorted (closerTo raidTime) consumed
                 /\ raid = foldl consume raid consumed).
  { intros Hnil. rewrite Hnil in Hdel, Horph. simpl in Hdel, Horph.
    split; [done|]. exists []. split_and?; [|constructor|done].
    apply (f_equal (@rev _)) in Horph. rewrite rev_involutive in Horph.
    by rewrite <- Horph. }
  destruct (0 <? length (loots w))%nat eqn:Hsome.
  2: { apply Hempty. apply Nat.ltb_ge in Hsome.
       unfold matches. by destruct (loots w); [|simpl in Hsome; lia]. }
  destruct (0 <? length matches)%nat eqn:Hmatch.
  2: { apply Hempty. apply Nat.ltb_ge in Hmatch.
       by destruct matches; [|simpl in Hmatch; lia]. }
  set (sorted := sort (fun a b => timeDiff a - timeDiff b) matches).
  assert (Hperm : sorted ≡ₚ matches) by apply sort_Permutation.
  split.
  - simpl. rewrite <- Hdel. f_equal.
    apply descending_unique.
    + eapply Sorted_weaken;
        [|apply (sort_Sorted (fun a b : nat => Z.of_nat b - Z.of_nat a))].
      * intros a b. simpl. lia.
      * intros a b. lia.
    + apply matchingLoots_descending.
    + rewrite sort_Permutation. by apply Permutation_map.
  - exists (map orphan sorted). split_and?.
    + rewrite <- (rev_involutive (List.filter _ _)), <- Horph.
      rewrite <- Permutation_rev. by apply Permutation_map.
    + assert (Hdiff' : Forall (fun m => timeDiff m
                                 = raidTime - LootOrphan.timestamp (orphan m)) sorted).
      { rewrite Forall_forall in *. intros m Hm. apply Hdiff. by rewrite <- Hperm. }
      pose proof (sort_Sorted (fun a b => timeDiff a - timeDiff b)
                    (fun a b => ltac:(lia)) matches) as Hsorted.
      fold sorted in Hsorted. clear -Hsorted Hdiff'.
      induction Hsorted as [|m l Hl IH Hhd]; simpl; [constructor|].
      apply Forall_cons in Hdiff' as [Hm Hrest].
      constructor; [by apply IH|].
      destruct Hhd as [|m' l Hmm']; simpl; constructor.
      apply Forall_cons in Hrest as [Hm' _]. unfold closerTo. lia.
    + clear. generalize raid. induction sorted as [|m l IH]; intros r; simpl; [done|].
      by rewrite IH.
Qed.

(** ** Loot reported before and after the raid exists *)

(** C2, on the code. The loot half of the orphan merge consumes every
    orphan inside the three seconds before the raid, the closest first,
    and removes each from the buffer; but it appends them all, without
    the test of the normal loot path: two orphans of one player are both
    appended to the raid's loot, where the same two messages arriving
    after the raid exists leave one entry. *)
Theorem orphan_loot_is_not_deduplicated :
  (forall raid w,
      let '(_, raid', w') := mergeLootOrphans raid w in
      loots w'
      = List.filter (fun o => negb (inMergeWindow (Raid.timestamp raid) o)) (loots w)
      /\ exists consumed,
           consumed ≡ₚ List.filter (inMergeWindow (Raid.timestamp raid)) (loots w)
           /\ Sorted (closerTo (Raid.timestamp raid)) consumed
           /\ raid' = foldl consume raid consumed)
  /\ Raid.uniqueDrop <$> recentRaids (run lootBeforePoints (startup true))
     = ["(Hyperr) - Twisted bow, (Hyperr) - Twisted bow"]
  /\ loots (run (take 2 lootBeforePoints) (startup true))
     = [LootOrphan.mk 1700000000000 "Twisted bow" (Some "Hyperr");
        LootOrphan.mk 1700000000400 "Twisted bow" (Some "Hyperr")]
  /\ loots (run lootBeforePoints (startup true)) = []
  /\ Raid.uniqueDrop <$> recentRaids (run lootAfterPoints (startup true))
     = ["(Hyperr) - Twisted bow"].
Proof.
  split; [apply mergeLootOrphans_consumes | by vm_compute].
Qed.

(** * Further properties *)

(** ** The raid a loot message goes to *)

(** X1. [findRaidForLoot] yields a raid that is at most 60 s old: the most
    recent one that lists the player of the loot, or, when no such raid
    lists the player, the most recent one at all; it yields nothing
    exactly when no raid is at most 60 s old. *)
Theorem findRaidForLoot_prefers_participant (data : LootData.t) (w : World) :
  match findRaidForLoot data w with
  | Some (i, raid) =>
      recentRaids w !! i = Some raid
      /\ withinLootWindow (clock w) raid
      /\ (forall j later,
            (i < j)%nat -> recentRaids w !! j = Some later ->
            ~ participates (clock w) (LootData.playerName data) later)
      /\ (hasPlayer (LootData.playerName data) raid = false ->
          (forall other, other ∈ recentRaids w ->
             ~ participates (clock w) (LootData.playerName data) other)
          /\ forall j later,
               (i < j)%nat -> recentRaids w !! j = Some later ->
               ~ withinLootWindow (clock w) later)
  | None => forall raid, raid ∈ recentRaids w -> ~ withinLootWindow (clock w) raid
  end.
Proof.
  unfold findRaidForLoot, participates, withinLootWindow. cbv zeta.
  set (both := fun raid : Raid.t =>
         (clock w - Raid.timestamp raid <=? 60000)
         && hasPlayer (LootData.playerName data) raid).
  set (recent := fun raid : Raid.t => clock w - Raid.timestamp raid <=? 60000).
  destruct (scanDown both _ _) as [[i raid]|] eqn:Hfirst.
  - apply scanDown_Some in Hfirst as (_ & Hi & Hp & Hlater).
    apply andb_true_iff in Hp as [Hwin Hhas]. apply Z.leb_le in Hwin.
    split_and?; [done | done | | congruence].
    intros j later Hj Hl [Hw Hh].
    assert (Hlt : (j < length (recentRaids w))%nat) by (by eapply lookup_lt_Some).
    specialize (Hlater j later (conj Hj Hlt) Hl).
    apply andb_false_iff in Hlater as [H|H]; [apply Z.leb_gt in H; lia | congruence].
  - assert (Hnone : forall other, other ∈ recentRaids w ->
              ~ (clock w - Raid.timestamp other <= 60000
                 /\ hasPlayer (LootData.playerName data) other = true)).
    { intros other Hin [Hw Hh].
      pose proof (scanDown_None_all _ _ _ Hfirst Hin) as H.
      apply andb_false_iff in H as [H|H]; [apply Z.leb_gt in H; lia | congruence]. }
    destruct (scanDown recent _ _) as [[i raid]|] eqn:Hsecond.
    + apply scanDown_Some in Hsecond as (_ & Hi & Hp & Hlater).
      apply Z.leb_le in Hp. split_and?; [done | done | |].
      * intros j later Hj Hl. apply Hnone. by eapply list_elem_of_lookup_2.
      * intros _. split; [done|]. intros j later Hj Hl Hw.
        assert (Hlt : (j < length (recentRaids w))%nat) by (by eapply lookup_lt_Some).
        specialize (Hlater j later (conj Hj Hlt) Hl). apply Z.leb_gt in Hlater. lia.
    + intros raid Hin Hw.
      pose proof (scanDown_None_all _ _ _ Hsecond Hin) as H.
      apply Z.leb_gt in H. lia.
Qed.

(** ** One loot entry per player *)

Lemma string_app_assoc (a b c : string) : (a +:+ b) +:+ c = a +:+ b +:+ c.
Proof.
  induction a as [|x a IH]; [done|].
  change (String x ((a +:+ b) +:+ c) = String x (a +:+ b +:+ c)). by rewrite IH.
Qed.

Lemma prefix_app (a b : string) : String.prefix a (a +:+ b) = true.
Proof.
  induction a as [|x a IH]; [by destruct b|].
  change (String.prefix (String x a) (String x (a +:+ b)) = true). simpl.
  destruct (ascii_dec x x); [exact IH | done].
Qed.

Lemma includes_here (needle rest : string) : includes needle (needle +:+ rest) = true.
Proof.
  assert (H : forall hay, String.prefix needle hay = true -> includes needle hay = true).
  { intros [|x hay] Hp; unfold includes; fold includes; by rewrite Hp. }
  apply H, prefix_app.
Qed.

Lemma includes_after (needle before hay : string) :
  includes needle hay = true -> includes needle (before +:+ hay) = true.
Proof.
  intros H. induction before as [|x before IH]; [done|].
  change (includes needle (String x (before +:+ hay)) = true).
  unfold includes; fold includes. rewrite IH. apply orb_true_r.
Qed.

(** Once a player's loot is added to a raid, the raid names the player. *)
Lemma addLoot_names_player (playerName : option string) (itemName : string) raid :
  truthyOpt playerName = true ->
  alreadyHasLoot playerName (addLoot (lootMessage playerName itemName) raid) = true.
Proof.
  intros Hp. unfold alreadyHasLoot, lootMessage, orNull. rewrite Hp.
  destruct playerName as [p|]; [|done].
  assert (Hmsg : includes ("(" +:+ p +:+ ")") ("(" +:+ p +:+ ") - " +:+ itemName) = true).
  { replace ("(" +:+ p +:+ ") - " +:+ itemName)
      with (("(" +:+ p +:+ ")") +:+ " - " +:+ itemName).
    - apply includes_here.
    - by rewrite !string_app_assoc. }
  unfold addLoot. destruct (truthy (Raid.uniqueDrop raid)) eqn:Hold;
    cbn [Raid.uniqueDrop Raid.setUniqueDrop].
  - rewrite (includes_after _ (Raid.uniqueDrop raid) (", " +:+ _)).
    + by destruct (Raid.uniqueDrop raid).
    + by apply (includes_after _ ", ").
  - by rewrite Hmsg.
Qed.

(** X2. A loot message whose player is named goes to its raid once: after
    it is handled the raid names the player in its loot, and a loot message
    for a raid that already names its player changes nothing but the purge
    of old orphans (no entry added, no call to the sheet, no exception). *)
Theorem loot_of_a_player_counts_once (data : LootData.t) (w : World) i raid :
  truthyOpt (LootData.playerName data) = true ->
  findRaidForLoot data (cleanOrphans w) = Some (i, raid) ->
  (exists raid1,
      recentRaids (handleLootDrop data w).2 !! i = Some raid1
      /\ alreadyHasLoot (LootData.playerName data) raid1 = true)
  /\ (alreadyHasLoot (LootData.playerName data) raid = true ->
      handleLootDrop data w = (Ok tt, cleanOrphans w)).
Proof.
  intros Hp Hfound.
  pose proof (findRaidForLoot_lookup _ _ _ _ Hfound) as Hi.
  assert (Hsame : alreadyHasLoot (LootData.playerName data) raid = true ->
                  handleLootDrop data w = (Ok tt, cleanOrphans w)).
  { intros Hdup. unfold handleLootDrop. rewrite bind_modify, bind_get, Hfound.
    by rewrite Hdup. }
  split; [|exact Hsame].
  destruct (alreadyHasLoot (LootData.playerName data) raid) eqn:Hdup.
  { rewrite Hsame by done. by exists raid. }
  change (wp (handleLootDrop data)
             (fun _ w' => exists raid1,
                  recentRaids w' !! i = Some raid1
                  /\ alreadyHasLoot (LootData.playerName data) raid1 = true) w).
  unfold handleLootDrop. apply wp_bind, wp_modify, wp_bind, wp_get.
  rewrite Hfound, Hdup. apply wp_bind, wp_modify.
  set (raid1 := addLoot _ raid).
  assert (Hdone : forall w',
            sameRecords (writeRaid (Some i) raid1 (cleanOrphans w)) w' ->
            exists r, recentRaids w' !! i = Some r
                      /\ alreadyHasLoot (LootData.playerName data) r = true).
  { intros w' (H1 & _). exists raid1. rewrite H1. simpl. split.
    - apply list_lookup_insert_eq. by eapply lookup_lt_Some.
    - by apply addLoot_names_player. }
  destruct (persistedRow raid1).
  - apply wp_gateway; [apply gatewayOnly_updateRow|]. intros r w' H. by apply Hdone.
  - apply wp_ret. apply Hdone, sameRecords_refl.
Qed.

(** ** Duration messages *)

(** X3. A duration message goes to the most recent raid that is at most
    60 s old and has no completion time yet: that raid gets the time (and
    the scale, when the message has one), every other raid and the orphan
    buffers stay as the purge left them. When no raid qualifies the
    message is buffered as an orphan, no raid changes and nothing is sent
    to the sheet. *)
Theorem duration_goes_to_newest_open_raid (data : DurationData.t) (w : World) :
  let w' := (handleDurationUpdate data w).2 in
  (exists i raid,
      recentRaids w !! i = Some raid
      /\ awaitsDuration (clock w) raid
      /\ (forall j later, (i < j)%nat -> recentRaids w !! j = Some later ->
            ~ awaitsDuration (clock w) later)
      /\ recentRaids w' = <[i := withDuration data raid]> (recentRaids w)
      /\ durations w' = durations (cleanOrphans w)
      /\ loots w' = loots (cleanOrphans w))
  \/ ((forall raid, raid ∈ recentRaids w -> ~ awaitsDuration (clock w) raid)
      /\ handleDurationUpdate data w =
           (Ok tt, setDurations (durations (cleanOrphans w) ++ [durationOrphanOf data])
                                (cleanOrphans w))).
Proof.
  cbv zeta. unfold handleDurationUpdate. cbv zeta.
  rewrite bind_modify, bind_get.
  rewrite cleanOrphans_recentRaids, cleanOrphans_clock.
  set (open := fun raid : Raid.t =>
         (clock w - Raid.timestamp raid <=? 60000)
         && negb (truthy (Raid.completionTime raid))).
  assert (Hopen : forall raid, open raid = true <-> awaitsDuration (clock w) raid).
  { intros raid. unfold open, awaitsDuration.
    rewrite andb_true_iff, Z.leb_le, negb_true_iff. done. }
  destruct (scanDown open _ _) as [[i raid]|] eqn:Hscan.
  - left. apply scanDown_Some in Hscan as (_ & Hi & Hp & Hlater).
    exists i, raid. split; [done|]. split; [by apply Hopen|]. split.
    { intros j later Hj Hl Hw. apply Hopen in Hw.
      assert (Hlt : (j < length (recentRaids w))%nat) by (by eapply lookup_lt_Some).
      rewrite (Hlater j later (conj Hj Hlt) Hl) in Hw. done. }
    fold (withDuration data raid).
    set (raid1 := withDuration data raid).
    change (wp (modify (writeRaid (Some i) raid1) ;;
                match persistedRow raid1 with
                | Some sheetRow => updateRow sheetRow (raidToRow raid1)
                | None => ret tt
                end)
               (fun _ w' =>
                  recentRaids w' = <[i := raid1]> (recentRaids w)
                  /\ durations w' = durations (cleanOrphans w)
                  /\ loots w' = loots (cleanOrphans w)) (cleanOrphans w)).
    apply wp_bind, wp_modify.
    assert (Hdone : forall w1,
              sameRecords (writeRaid (Some i) raid1 (cleanOrphans w)) w1 ->
              recentRaids w1 = <[i := raid1]> (recentRaids w)
              /\ durations w1 = durations (cleanOrphans w)
              /\ loots w1 = loots (cleanOrphans w)).
    { intros w1 (H1 & H2 & H3). rewrite H1, H2, H3. done. }
    destruct (persistedRow raid1).
    + apply wp_gateway; [apply gatewayOnly_updateRow|]. intros r w1 H. by apply Hdone.
    + apply wp_ret. apply Hdone, sameRecords_refl.
  - right. split; [|done].
    intros raid Hin Hw. apply Hopen in Hw.
    rewrite (scanDown_None_all _ _ _ Hscan Hin) in Hw. done.
Qed.

(** ** The duration orphan a new raid takes *)

Lemma closestDuration_closestOf raidTime l seen best :
  closestOf raidTime seen best ->
  closestOf raidTime (seen ++ l) (closestDuration raidTime l (length seen) best).
Proof.
  revert seen best. induction l as [|o l IH]; intros seen best Hbest.
  { by rewrite app_nil_r. }
  replace (seen ++ o :: l) with ((seen ++ [o]) ++ l) by (by rewrite <- app_assoc).
  replace (S (length seen)) with (length (seen ++ [o])) in *
    by (rewrite length_app; simpl; lia).
  simpl.
  replace (S (length seen)) with (length (seen ++ [o]))
    by (rewrite length_app; simpl; lia).
  apply IH. clear IH.
  set (d := raidTime - DurationOrphan.timestamp o).
  assert (Hwin : (d >=? 0) && (d <=? MERGE_WINDOW) = true <-> durationInWindow raidTime o).
  { unfold durationInWindow. fold d. rewrite andb_true_iff, Z.geb_le, Z.leb_le. lia. }
  assert (Hnew : (seen ++ [o]) !! length seen = Some o).
  { rewrite lookup_app_r by lia. by rewrite Nat.sub_diag. }
  assert (Hcases : forall j o', (seen ++ [o]) !! j = Some o' ->
            seen !! j = Some o' \/ (j = length seen /\ o' = o)).
  { intros j o' Hj. destruct (decide (j < length seen)%nat) as [Hlt|Hge].
    - left. by rewrite lookup_app_l in Hj.
    - right. rewrite lookup_app_r in Hj by lia.
      destruct (j - length seen)%nat as [|n] eqn:E; simpl in Hj; [|by destruct n].
      split; [lia | congruence]. }
  destruct best as [[k dk]|]; simpl in Hbest.
  - destruct Hbest as (ok & Hk & -> & Hok & Hmin).
    destruct ((d >=? 0) && (d <=? MERGE_WINDOW)) eqn:Hd; simpl.
    + apply proj1 in Hwin. specialize (Hwin eq_refl).
      destruct (d <? raidTime - DurationOrphan.timestamp ok) eqn:Hcl.
      * apply Z.ltb_lt in Hcl. exists o. split_and?; [done | done | done |].
        intros j o' Hj Hw. destruct (Hcases _ _ Hj) as [Hs|[-> ->]].
        -- destruct (Hmin _ _ Hs Hw) as [Hle _]. unfold d in Hcl. lia.
        -- split; [lia | done].
      * apply Z.ltb_ge in Hcl. exists ok.
        split_and?; [by apply lookup_app_l_Some | done | done |].
        intros j o' Hj Hw. destruct (Hcases _ _ Hj) as [Hs|[-> ->]].
        -- by apply Hmin.
        -- unfold d in Hcl. split; [lia|]. intros _.
           apply lookup_lt_Some in Hk. lia.
    + exists ok. split_and?; [by apply lookup_app_l_Some | done | done |].
      intros j o' Hj Hw. destruct (Hcases _ _ Hj) as [Hs|[-> ->]].
      * by apply Hmin.
      * apply Hwin in Hw. congruence.
  - destruct ((d >=? 0) && (d <=? MERGE_WINDOW)) eqn:Hd; simpl.
    + apply proj1 in Hwin. specialize (Hwin eq_refl).
      exists o. split_and?; [done | done | done |].
      intros j o' Hj Hw. destruct (Hcases _ _ Hj) as [Hs|[-> ->]].
      * exfalso. eapply Hbest; [|exact Hw]. by eapply list_elem_of_lookup_2.
      * split; [lia | done].
    + intros o' Hin Hw. apply elem_of_app in Hin as [Hin|Hin].
      * by eapply Hbest.
      * apply list_elem_of_singleton in Hin as ->. apply Hwin in Hw. congruence.
Qed.

(** X4. A raid without a completion time takes, of the duration orphans
    that precede it by at most 3 s, the one closest to it (the earliest
    buffered on a tie): its time and, if it has one, its scale are copied
    and exactly this orphan leaves the buffer. With no orphan in the
    window, or a completion time already set, nothing changes. *)
Theorem closest_duration_orphan_is_merged (raid : Raid.t) (w : World) :
  if truthy (Raid.completionTime raid)
  then mergeDurationOrphan raid w = (false, raid, w)
  else
    match mergeDurationOrphan raid w with
    | (true, raid', w') =>
        exists i o,
          durations w !! i = Some o
          /\ durationInWindow (Raid.timestamp raid) o
          /\ (forall j o', durations w !! j = Some o' ->
                durationInWindow (Raid.timestamp raid) o' ->
                DurationOrphan.timestamp o' <= DurationOrphan.timestamp o
                /\ (DurationOrphan.timestamp o' = DurationOrphan.timestamp o -> (i <= j)%nat))
          /\ raid' = withOrphanDuration o raid
          /\ w' = setDurations (delete i (durations w)) w
    | (false, raid', w') =>
        raid' = raid /\ w' = w
        /\ forall o, o ∈ durations w -> ~ durationInWindow (Raid.timestamp raid) o
    end.
Proof.
  unfold mergeDurationOrphan. cbv zeta.
  destruct (truthy (Raid.completionTime raid)); [done|]. simpl negb. simpl andb.
  pose proof (closestDuration_closestOf (Raid.timestamp raid) (durations w) [] None) as H.
  simpl in H. specialize (H ltac:(intros o Ho; by apply elem_of_nil in Ho)).
  destruct (0 <? length (durations w))%nat eqn:Hlen.
  - destruct (closestDuration _ _ _ _) as [[i d]|]; simpl in H.
    + destruct H as (o & Hi & -> & Hw & Hmin). rewrite Hi.
      exists i, o. by split_and?.
    + by split_and?.
  - apply Nat.ltb_ge in Hlen. destruct (durations w); [|simpl in Hlen; lia].
    split_and?; [done | done |]. intros o Ho. by apply elem_of_nil in Ho.
Qed.

Lemma loot_of_a_player_counts_once_witness :
  (exists raid1,
      recentRaids (handleLootDrop theBow afterTheRaid).2 !! 0%nat = Some raid1
      /\ alreadyHasLoot (Some "Hyperr") raid1 = true)
  /\ (alreadyHasLoot (Some "Hyperr") writtenRaid = true ->
      handleLootDrop theBow afterTheRaid = (Ok tt, cleanOrphans afterTheRaid)).
Proof.
  apply (loot_of_a_player_counts_once theBow afterTheRaid 0 writtenRaid);
    by vm_compute.
Defined.

(** ** Layout of a row *)

(** X5. A row has one cell for each column of the range [A]..[O] that
    [updateRow] writes: the timestamp, the total, the completion time and
    the loot, then name and points of the first five players (empty cells
    where the raid has fewer, nothing for a sixth player), then the scale
    in the fifteenth cell. The header row of [addHeaders] is one cell
    shorter: the scale column has no header. *)
Theorem row_fills_the_update_range (raid : Raid.t) :
  endColumn = "O"%char
  /\ length (raidToRow raid) = columnsUpTo endColumn
  /\ take 4 (raidToRow raid)
     = [Time (Raid.timestamp raid); numberOrEmpty (Raid.totalPoints raid);
        Text (Raid.completionTime raid); Text (Raid.uniqueDrop raid)]
  /\ (forall i, (i < MAX_PLAYERS)%nat ->
        take 2 (drop (4 + 2 * i) (raidToRow raid))
        = match Raid.players raid !! i with
          | Some p => [Text (name p); numberOrEmpty (Some (points p))]
          | None => [Text ""; Text ""]
          end)
  /\ raidToRow raid !! 14%nat = Some (Text (Raid.scale raid))
  /\ length (raidToRow raid) = S (length headers).
Proof.
  assert (Hrow : raidToRow raid =
            [Time (Raid.timestamp raid); numberOrEmpty (Raid.totalPoints raid);
             Text (Raid.completionTime raid); Text (Raid.uniqueDrop raid)]
            ++ playerCells (Raid.players raid) 0 ++ playerCells (Raid.players raid) 1
            ++ playerCells (Raid.players raid) 2 ++ playerCells (Raid.players raid) 3
            ++ playerCells (Raid.players raid) 4 ++ [Text (Raid.scale raid)]).
  { unfold raidToRow. cbn [MAX_PLAYERS seq flat_map]. by rewrite <- ?app_assoc, ?app_nil_r. }
  assert (Hcells : forall i, exists a b,
            playerCells (Raid.players raid) i = [a; b]
            /\ [a; b] = match Raid.players raid !! i with
                        | Some p => [Text (name p); numberOrEmpty (Some (points p))]
                        | None => [Text ""; Text ""]
                        end).
  { intros i. unfold playerCells. destruct (Raid.players raid !! i); eauto. }
  destruct (Hcells 0%nat) as (a0 & b0 & E0 & H0), (Hcells 1%nat) as (a1 & b1 & E1 & H1),
    (Hcells 2%nat) as (a2 & b2 & E2 & H2), (Hcells 3%nat) as (a3 & b3 & E3 & H3),
    (Hcells 4%nat) as (a4 & b4 & E4 & H4).
  rewrite Hrow, E0, E1, E2, E3, E4.
  split_and?; try done.
  intros i Hi. unfold MAX_PLAYERS in Hi.
  destruct i as [|[|[|[|[|i]]]]]; [by rewrite <- ?H0, <- ?H1, <- ?H2, <- ?H3, <- ?H4..|lia].
Qed.

(** ** What is sent to the sheet *)



Section Writes.
Context (allowed : Action -> Prop).




















End Writes.


(** ** Retries under a rate limit *)

Lemma bind_Ok {A B} (m : M A) (k : A -> M B) w a w' :
  m w = (Ok a, w') -> bind m k w = k a w'.
Proof. intros H. unfold bind. by rewrite H. Qed.

Lemma bind_Throw {A B} (m : M A) (k : A -> M B) w e w' :
  m w = (Throw e, w') -> bind m k w = (Throw e, w').
Proof. intros H. unfold bind. by rewrite H. Qed.

Lemma tryCatch_Ok {A} (m : M A) h w a w' :
  m w = (Ok a, w') -> tryCatch m h w = (Ok a, w').
Proof. intros H. unfold tryCatch. by rewrite H. Qed.

Lemma tryCatch_Throw {A} (m : M A) h w e w' :
  m w = (Throw e, w') -> tryCatch m h w = h e w'.
Proof. intros H. unfold tryCatch. by rewrite H. Qed.

Lemma awaitCooldown_within w :
  clock w - lastRateLimitError w < RATE_LIMIT_COOLDOWN ->
  awaitCooldown w
  = (Ok tt, emit (Wait (RATE_LIMIT_COOLDOWN - (clock w - lastRateLimitError w)))
                 (setClock (lastRateLimitError w + RATE_LIMIT_COOLDOWN) w)).
Proof.
  intros H. unfold awaitCooldown. rewrite !bind_get.
  replace (_ <? _) with true by lia. unfold when, wait, modify.
  do 3 f_equal. lia.
Qed.

Lemma awaitCooldown_elapsed w :
  RATE_LIMIT_COOLDOWN <= clock w - lastRateLimitError w -> awaitCooldown w = (Ok tt, w).
Proof.
  intros H. unfold awaitCooldown. rewrite !bind_get.
  by replace (_ <? _) with false by lia.
Qed.

Lemma ensureClient_cached w : sheetsClient w = true -> ensureClient w = (Ok tt, w).
Proof. intros H. unfold ensureClient. by rewrite bind_get, H. Qed.

Lemma call_refused a w code msg rest :
  pending w = Failure code msg :: rest ->
  call a w = (Throw (ApiError code msg), setPending rest (emit a w)).
Proof.
  intros H. unfold call. change (pending (emit a w)) with (pending w). by rewrite H.
Qed.

(** One failed attempt of either call, from the world [w1] the cooldown
    check leaves, with a cached client. *)
Lemma attempt_fails {A} (m : M A) (w w1 w2 : World) e :
  awaitCooldown w = (Ok tt, w1) ->
  sheetsClient w1 = true ->
  m w1 = (Throw e, w2) ->
  (awaitCooldown ;; ensureClient ;; m) w = (Throw e, w2).
Proof.
  intros Hwait Hclient Hm.
  rewrite (bind_Ok _ _ _ _ _ Hwait).
  by rewrite (bind_Ok _ _ _ _ _ (ensureClient_cached _ Hclient)).
Qed.

Lemma update_refused rowNumber row w code msg rest :
  pending w = Failure code msg :: rest ->
  (call (Update rowNumber row) ;; ret tt) w
  = (Throw (ApiError code msg), setPending rest (emit (Update rowNumber row) w)).
Proof. intros H. by rewrite (bind_Throw _ _ _ _ _ (call_refused _ _ _ _ _ H)). Qed.

(** A retry that starts inside the cooldown waits the cooldown out
    before it sends: the backoff that has just passed is part of it. *)
Lemma retry_within_cooldown n rowNumber row w code msg rest :
  sheetsClient w = true ->
  clock w - lastRateLimitError w < RATE_LIMIT_COOLDOWN ->
  pending w = Failure code msg :: rest ->
  isRateLimit (ApiError code msg) = true ->
  let delay := RETRY_DELAY * 2 ^ Z.of_nat (MAX_RETRIES - S n) in
  appendRowFrom (S n) row w = appendRowFrom n row (retried (Append row) delay rest w)
  /\ updateRowFrom (S n) rowNumber row w
     = updateRowFrom n rowNumber row (retried (Update rowNumber row) delay rest w).
Proof.
  intros Hclient Hcool Hpending Hrate delay.
  pose proof (awaitCooldown_within w Hcool) as Hwait.
  assert (Hw : forall a,
            emit (Wait delay)
              (setClock (lastRateLimitError w + RATE_LIMIT_COOLDOWN + delay)
                 (setLastRateLimitError (lastRateLimitError w + RATE_LIMIT_COOLDOWN)
                    (setPending rest
                       (emit a
                          (emit (Wait (RATE_LIMIT_COOLDOWN - (clock w - lastRateLimitError w)))
                             (setClock (lastRateLimitError w + RATE_LIMIT_COOLDOWN) w))))))
            = retried a delay rest w).
  { intros a. unfold retried, emit, setClock, setLastRateLimitError, setPending.
    destruct w. simpl. by rewrite <- !app_assoc. }
  split.
  - cbn [appendRowFrom].
    erewrite tryCatch_Throw;
      [|eapply attempt_fails; [exact Hwait | exact Hclient | by apply call_refused]].
    rewrite Hrate, bind_get, bind_modify. unfold bind at 1, wait at 1, modify at 1.
    fold delay. by rewrite <- Hw.
  - cbn [updateRowFrom].
    erewrite tryCatch_Throw;
      [|eapply attempt_fails; [exact Hwait | exact Hclient | by apply update_refused]].
    rewrite Hrate, bind_get, bind_modify. unfold bind at 1, wait at 1, modify at 1.
    fold delay. by rewrite <- Hw.
Qed.

Lemma world_eq (w w' : World) :
  sheetsClient w = sheetsClient w' ->
  lastRateLimitError w = lastRateLimitError w' ->
  recentRaids w = recentRaids w' ->
  durations w = durations w' ->
  loots w = loots w' ->
  clock w = clock w' ->
  pending w = pending w' ->
  trace w = trace w' ->
  w = w'.
Proof. destruct w, w'. simpl. congruence. Qed.

(** The attempt without retries left. *)
Lemma last_attempt_refused rowNumber row w code msg rest :
  sheetsClient w = true ->
  clock w - lastRateLimitError w < RATE_LIMIT_COOLDOWN ->
  pending w = Failure code msg :: rest ->
  isRateLimit (ApiError code msg) = true ->
  let final a :=
    setLastRateLimitError (lastRateLimitError w + RATE_LIMIT_COOLDOWN)
      (setPending rest
         (emit a
            (emit (Wait (RATE_LIMIT_COOLDOWN - (clock w - lastRateLimitError w)))
               (setClock (lastRateLimitError w + RATE_LIMIT_COOLDOWN) w)))) in
  appendRowFrom 0 row w = (Throw AppendRetriesExhausted, final (Append row))
  /\ updateRowFrom 0 rowNumber row w
     = (Throw (ApiError code msg), final (Update rowNumber row)).
Proof.
  intros Hclient Hcool Hpending Hrate final.
  pose proof (awaitCooldown_within w Hcool) as Hwait.
  split.
  - cbn [appendRowFrom].
    erewrite tryCatch_Throw;
      [|eapply attempt_fails; [exact Hwait | exact Hclient | by apply call_refused]].
    by rewrite Hrate, bind_get, bind_modify.
  - cbn [updateRowFrom].
    erewrite tryCatch_Throw;
      [|eapply attempt_fails; [exact Hwait | exact Hclient | by apply update_refused]].
    by rewrite Hrate, bind_get, bind_modify.
Qed.

(** X7. Four attempts in a row refused with a rate limit exhaust either
    call. A retry is sent one cooldown (60 s) after the attempt before
    it: the backoff of 2, 4 and 8 s is followed by a wait for the rest of
    the cooldown. After three minutes [appendRow] throws its own
    retries-exhausted error and [updateRow] the error of the service;
    each has sent its row four times. *)
Theorem rate_limited_retries_wait_out_the_cooldown
    (rowNumber : Z) (row : Row) (w : World) c1 m1 c2 m2 c3 m3 c4 m4 rest :
  sheetsClient w = true ->
  RATE_LIMIT_COOLDOWN <= clock w - lastRateLimitError w ->
  pending w = Failure c1 m1 :: Failure c2 m2 :: Failure c3 m3 :: Failure c4 m4 :: rest ->
  Forall (fun e => isRateLimit e = true)
         [ApiError c1 m1; ApiError c2 m2; ApiError c3 m3; ApiError c4 m4] ->
  appendRow row w = (Throw AppendRetriesExhausted, exhausted (Append row) rest w)
  /\ updateRow rowNumber row w
     = (Throw (ApiError c4 m4), exhausted (Update rowNumber row) rest w).
Proof.
  intros Hclient Hcool Hpending Hrate.
  apply Forall_cons in Hrate as [H1 Hrate]. apply Forall_cons in Hrate as [H2 Hrate].
  apply Forall_cons in Hrate as [H3 Hrate]. apply Forall_cons in Hrate as [H4 _].
  destruct (rate_limit_backoff_shared 2 rowNumber row w c1 m1 _ Hclient Hcool Hpending H1)
    as [Ha1 Hu1].
  change (appendRow row) with (appendRowFrom 3 row).
  change (updateRow rowNumber row) with (updateRowFrom 3 rowNumber row).
  rewrite Ha1, Hu1. clear Ha1 Hu1.
  change (RETRY_DELAY * 2 ^ Z.of_nat (MAX_RETRIES - 3)) with 2000.
  assert (Hchain : forall a,
            let w1 := emit (Wait 2000)
                        (setClock (clock w + 2000)
                           (setLastRateLimitError (clock w)
                              (setPending
                                 (Failure c2 m2 :: Failure c3 m3 :: Failure c4 m4 :: rest)
                                 (emit a w)))) in
            let w2 := retried a 4000 (Failure c3 m3 :: Failure c4 m4 :: rest) w1 in
            let w3 := retried a 8000 (Failure c4 m4 :: rest) w2 in
            (a = Append row -> appendRowFrom 2 row w1 = appendRowFrom 0 row w3)
            /\ (a = Update rowNumber row ->
                updateRowFrom 2 rowNumber row w1 = updateRowFrom 0 rowNumber row w3)
            /\ sheetsClient w3 = true
            /\ clock w3 - lastRateLimitError w3 < RATE_LIMIT_COOLDOWN
            /\ pending w3 = Failure c4 m4 :: rest
            /\ setLastRateLimitError (lastRateLimitError w3 + RATE_LIMIT_COOLDOWN)
                 (setPending rest
                    (emit a
                       (emit (Wait (RATE_LIMIT_COOLDOWN
                                    - (clock w3 - lastRateLimitError w3)))
                          (setClock (lastRateLimitError w3 + RATE_LIMIT_COOLDOWN) w3))))
               = exhausted a rest w).
  { intros a w1 w2 w3.
    assert (Hc1 : clock w1 - lastRateLimitError w1 < RATE_LIMIT_COOLDOWN)
      by (unfold RATE_LIMIT_COOLDOWN; simpl; lia).
    assert (Hc2 : clock w2 - lastRateLimitError w2 < RATE_LIMIT_COOLDOWN)
      by (unfold RATE_LIMIT_COOLDOWN; simpl; lia).
    assert (Hc3 : clock w3 - lastRateLimitError w3 < RATE_LIMIT_COOLDOWN)
      by (unfold RATE_LIMIT_COOLDOWN; simpl; lia).
    destruct (retry_within_cooldown 1 rowNumber row w1 c2 m2
                (Failure c3 m3 :: Failure c4 m4 :: rest) Hclient Hc1 eq_refl H2)
      as [Ea Eu].
    destruct (retry_within_cooldown 0 rowNumber row w2 c3 m3
                (Failure c4 m4 :: rest) Hclient Hc2 eq_refl H3)
      as [Ea' Eu'].
    split; [|split; [|split; [|split; [|split]]]].
    - intros Ha. rewrite <- Ha in Ea, Ea'. exact (eq_trans Ea Ea').
    - intros Hu. rewrite <- Hu in Eu, Eu'. exact (eq_trans Eu Eu').
    - exact Hclient.
    - exact Hc3.
    - reflexivity.
    - assert (Hl1 : lastRateLimitError w1 = clock w) by reflexivity.
      assert (Ht1 : clock w1 = clock w + 2000) by reflexivity.
      assert (Hl2 : lastRateLimitError w2 = clock w + 60000)
        by (unfold w2, retried; cbn [lastRateLimitError]; rewrite Hl1;
            unfold RATE_LIMIT_COOLDOWN; lia).
      assert (Ht2 : clock w2 = clock w + 64000)
        by (unfold w2, retried; cbn [clock]; rewrite Hl1;
            unfold RATE_LIMIT_COOLDOWN; lia).
      assert (Hl3 : lastRateLimitError w3 = clock w + 120000)
        by (unfold w3, retried; cbn [lastRateLimitError]; rewrite Hl2;
            unfold RATE_LIMIT_COOLDOWN; lia).
      assert (Ht3 : clock w3 = clock w + 128000)
        by (unfold w3, retried; cbn [clock]; rewrite Hl2;
            unfold RATE_LIMIT_COOLDOWN; lia).
      assert (Htr : trace w3
                    = trace w ++ [a; Wait 2000; Wait 58000; a; Wait 4000; Wait 56000; a;
                                  Wait 8000]).
      { unfold w3, retried. cbn [trace]. rewrite Hl2, Ht2.
        unfold w2, retried. cbn [trace]. rewrite Hl1, Ht1.
        unfold w1, emit, setClock, setLastRateLimitError, setPending, RATE_LIMIT_COOLDOWN.
        cbn [trace]. rewrite <- !app_assoc. cbn [app].
        replace (60000 - (clock w + 64000 - (clock w + 60000))) with 56000 by lia.
        replace (60000 - (clock w + 2000 - clock w)) with 58000 by lia.
        reflexivity. }
      apply world_eq; unfold exhausted, fourAttempts, setLastRateLimitError, setPending,
        emit, setClock;
        cbn [sheetsClient lastRateLimitError recentRaids durations loots clock pending trace].
      + reflexivity.
      + rewrite Hl3. unfold RATE_LIMIT_COOLDOWN. lia.
      + reflexivity.
      + reflexivity.
      + reflexivity.
      + rewrite Hl3. unfold RATE_LIMIT_COOLDOWN. lia.
      + reflexivity.
      + rewrite Htr, Hl3, Ht3. unfold RATE_LIMIT_COOLDOWN.
        rewrite <- !app_assoc. cbn [app].
        replace (60000 - (clock w + 128000 - (clock w + 120000))) with 52000 by lia.
        reflexivity. }
  split.
  - destruct (Hchain (Append row)) as (E & _ & Hcl & Hc & Hp & Hfinal).
    rewrite (E eq_refl).
    destruct (last_attempt_refused rowNumber row _ c4 m4 rest Hcl Hc Hp H4) as [El _].
    rewrite El. by rewrite Hfinal.
  - destruct (Hchain (Update rowNumber row)) as (_ & E & Hcl & Hc & Hp & Hfinal).
    rewrite (E eq_refl).
    destruct (last_attempt_refused rowNumber row _ c4 m4 rest Hcl Hc Hp H4) as [_ El].
    rewrite El. by rewrite Hfinal.
Qed.

Lemma rate_limited_retries_wait_out_the_cooldown_witness :
  appendRow [] rateLimited = (Throw AppendRetriesExhausted, exhausted (Append []) [] rateLimited)
  /\ updateRow 2 [] rateLimited
     = (Throw (ApiError 429 false), exhausted (Update 2 []) [] rateLimited).
Proof.
  apply (rate_limited_retries_wait_out_the_cooldown 2 [] rateLimited
           429 false 429 false 429 false 429 false []);
    [reflexivity | by vm_compute | reflexivity | by repeat constructor].
Defined.

(** ** Which events add a row *)


Lemma bind_ret_world {A B} (m : M A) (b : B) w : ((m ;; ret b) w).2 = (m w).2.
Proof. unfold bind. by destruct (m w) as [[a|e] w']. Qed.




(** ** Players of a raid *)

Lemma filter_sublist {A} (f : A -> bool) l : List.filter f l `sublist_of` l.
Proof.
  induction l as [|x l IH]; simpl; [done|].
  destruct (f x); [by apply sublist_skip | by apply sublist_cons].
Qed.

Lemma existsb_name_false (p : Player) l :
  existsb (fun q => String.eqb (name q) (name p)) l = false -> name p ∉ name <$> l.
Proof.
  intros Hex Hin. apply list_elem_of_fmap in Hin as (q & Hq & Hin).
  assert (existsb (fun q => String.eqb (name q) (name p)) l = true); [|congruence].
  apply existsb_exists. exists q. split; [by apply list_elem_of_In|].
  rewrite Hq. apply String.eqb_refl.
Qed.

Lemma teamOk_addPlayer newPlayer players :
  teamOk players -> teamOk (addPlayer newPlayer players).
Proof.
  intros (Hlen & Hpts & Hnames). unfold addPlayer.
  destruct newPlayer as [p|]; [|done].
  destruct (points p <? MIN_POINTS_THRESHOLD) eqn:Hp; [done|].
  destruct (length players <? MAX_PLAYERS)%nat eqn:Hl; simpl; [|done].
  destruct (existsb _ players) eqn:Hex; simpl; [done|].
  apply Nat.ltb_lt in Hl. apply Z.ltb_ge in Hp. unfold teamOk. split_and?.
  - rewrite length_app. simpl. lia.
  - apply Forall_app. split; [done|]. by constructor.
  - rewrite fmap_app. apply NoDup_app. split_and?; [done| |apply NoDup_singleton].
    intros x Hx Hx'. apply list_elem_of_singleton in Hx' as ->.
    by apply existsb_name_false in Hex.
Qed.

Lemma teamOk_created players :
  NoDup (name <$> players) ->
  teamOk (take MAX_PLAYERS
            (List.filter (fun p => points p >=? MIN_POINTS_THRESHOLD) players)).
Proof.
  intros Hnames. unfold teamOk. split_and?.
  - rewrite length_take. lia.
  - apply Forall_take. apply Forall_forall. intros p Hp.
    apply list_elem_of_In, filter_In in Hp as [_ Hp]. lia.
  - eapply sublist_NoDup; [exact Hnames|].
    apply fmap_sublist. etransitivity; [apply sublist_take | apply filter_sublist].
Qed.

Lemma keepsPlayersOk_core r r' : sameCore r r' -> keepsPlayersOk r r'.
Proof. intros (_ & _ & Hp). unfold keepsPlayersOk, playersOk. by rewrite Hp. Qed.

Lemma keepsPlayersOk_trans a b c :
  keepsPlayersOk a b -> keepsPlayersOk b c -> keepsPlayersOk a c.
Proof. unfold keepsPlayersOk. auto. Qed.

Lemma keepsPlayersOk_Forall l l' :
  Forall2 keepsPlayersOk l l' -> Forall playersOk l -> Forall playersOk l'.
Proof. induction 1; inversion 1; constructor; auto. Qed.

(** The duration and the loot handler change one raid of the registry,
    and of it neither timestamp, total nor players. *)
Section Fills.
Context (R : Raid.t -> Raid.t -> Prop).
Context (R_core : forall r r', sameCore r r' -> R r r').
Context (R_trans : forall a b c, R a b -> R b c -> R a c).

Lemma handleDurationUpdate_evolves data w :
  wp (handleDurationUpdate data)
     (fun _ w' => Forall2 R (recentRaids w) (recentRaids w')) w.
Proof.
  unfold handleDurationUpdate.
  apply wp_bind, wp_modify, wp_bind, wp_get.
  destruct (scanDown _ _ _) as [[i raid]|] eqn:Hscan.
  - apply scanDown_Some in Hscan as (_ & Hi & _).
    fold (withDuration data raid). set (raid' := withDuration data raid).
    assert (Hstep : R raid raid').
    { apply R_core. unfold raid', withDuration.
      by destruct (orNull (DurationData.scale data)). }
    apply wp_bind, wp_modify.
    assert (Hreg : Forall2 R (recentRaids w)
                     (recentRaids (writeRaid (Some i) raid' (cleanOrphans w)))).
    { apply (writeRaid_evolves R R_core R_trans _ (Some i) raid);
        [by apply evolves_refl | done..]. }
    destruct (persistedRow raid'); [|by apply wp_ret].
    apply wp_gateway; [apply gatewayOnly_updateRow|].
    intros r w' (H1 & _). by rewrite H1.
  - apply wp_modify. by apply evolves_refl.
Qed.

Lemma handleLootDrop_evolves data w :
  wp (handleLootDrop data)
     (fun _ w' => Forall2 R (recentRaids w) (recentRaids w')) w.
Proof.
  unfold handleLootDrop.
  apply wp_bind, wp_modify, wp_bind, wp_get.
  destruct (findRaidForLoot data (cleanOrphans w)) as [[i raid]|] eqn:Hfound.
  - apply findRaidForLoot_lookup in Hfound.
    destruct (alreadyHasLoot _ _); [by apply wp_ret, evolves_refl|].
    apply wp_bind, wp_modify.
    set (raid' := addLoot _ raid).
    assert (Hreg : Forall2 R (recentRaids w)
                     (recentRaids (writeRaid (Some i) raid' (cleanOrphans w)))).
    { apply (writeRaid_evolves R R_core R_trans _ (Some i) raid);
        [by apply evolves_refl | done |].
      apply R_core.
      destruct (addLoot_fields (lootMessage (LootData.playerName data)
                                            (LootData.itemName data)) raid)
        as (? & ? & ? & _).
      by split_and?. }
    destruct (persistedRow raid'); [|by apply wp_ret].
    apply wp_gateway; [apply gatewayOnly_updateRow|].
    intros r w' (H1 & _). by rewrite H1.
  - apply wp_modify. by apply evolves_refl.
Qed.
End Fills.

Lemma handleRaidCompletion_playersOk data w :
  NoDup (name <$> PointsData.players data) ->
  Forall playersOk (recentRaids w) ->
  wp (handleRaidCompletion data) (fun _ w' => Forall playersOk (recentRaids w')) w.
Proof.
  intros Hnames Hok. unfold handleRaidCompletion.
  apply wp_bind, wp_get.
  destruct (clock w - PointsData.timestamp data >? MAX_DATA_AGE); [by apply wp_ret|].
  apply wp_bind, wp_modify, wp_bind, wp_get.
  rewrite findRaidByTotalPoints_cleanOrphans.
  destruct (findRaidByTotalPoints _ w) as [[i raid]|] eqn:Hfound.
  - apply findRaidByTotalPoints_lookup in Hfound.
    eapply wp_mono; [by apply addToExistingRaid_spec|].
    intros r w' (raid' & Hr & _ & _ & _ & _ & Hp).
    rewrite Hr. apply Forall_insert; [done|].
    unfold playersOk. rewrite Hp. apply teamOk_addPlayer.
    by apply (Forall_lookup_1 _ _ _ _ Hok Hfound).
  - apply wp_bind, wp_get. rewrite findRaidByTotalPoints_cleanOrphans.
    destruct (findRaidByTotalPoints None w) as [[i raid]|] eqn:Hplace.
    + apply findRaidByTotalPoints_lookup in Hplace.
      apply wp_bind. unfold promotePlaceholder.
      apply wp_bind, wp_modify, wp_ret.
      match goal with
      | |- wp _ _ (writeRaid _ ?r _) => set (promoted := r)
      end.
      assert (Hstep : keepsPlayersOk raid promoted).
      { intros Hraid. unfold playersOk.
        replace (Raid.players promoted)
          with (addPlayer (head (PointsData.players data)) (Raid.players raid));
          [by apply teamOk_addPlayer|].
        unfold promoted, addPlayer, playerExists.
        destruct (head (PointsData.players data)) as [p|]; [|done].
        cbn [Raid.players Raid.setTotalPoints].
        replace (points p >=? MIN_POINTS_THRESHOLD)
          with (negb (points p <? MIN_POINTS_THRESHOLD)) by lia.
        destruct (points p <? MIN_POINTS_THRESHOLD); [done|].
        destruct (length (Raid.players raid) <? MAX_PLAYERS)%nat; [|done].
        simpl. by destruct (existsb _ (Raid.players raid)). }
      eapply wp_mono.
      { apply (finishBranch_evolves keepsPlayersOk keepsPlayersOk_core
                 keepsPlayersOk_trans (recentRaids w) (Some i) promoted).
        - apply (writeRaid_evolves keepsPlayersOk keepsPlayersOk_core
                   keepsPlayersOk_trans _ (Some i) raid);
            [by apply evolves_refl, keepsPlayersOk_core | done..].
        - by eapply (writeRaid_refHolds (Some i)). }
      intros r w' H. eapply keepsPlayersOk_Forall; [exact H | exact Hok].
    + eapply wp_mono.
      { apply (createBranch_evolves keepsPlayersOk keepsPlayersOk_core
                 keepsPlayersOk_trans). }
      intros r w' H. eapply keepsPlayersOk_Forall; [exact H|].
      destruct (createRaidEntry_drop data (cleanOrphans w)) as (k & _ & Hdrop & _).
      rewrite Hdrop. apply Forall_drop, Forall_app. split; [done|].
      constructor; [|done]. by apply teamOk_created.
Qed.

Lemma appendToSheet_playersOk ev w :
  distinctNames ev ->
  Forall playersOk (recentRaids w) ->
  Forall playersOk (recentRaids (appendToSheet ev w).2).
Proof.
  intros Hev Hok.
  change (wp (appendToSheet ev) (fun _ w' => Forall playersOk (recentRaids w')) w).
  unfold appendToSheet. apply wp_tryCatch.
  destruct ev as [data|data|data|type].
  - apply wp_bind. eapply wp_mono; [by apply handleRaidCompletion_playersOk|].
    intros [r|e] w' H; [by apply wp_ret | by apply wp_throw].
  - eapply wp_mono.
    { apply (handleDurationUpdate_evolves keepsPlayersOk keepsPlayersOk_core
               keepsPlayersOk_trans). }
    intros [[]|e] w' H; [|apply wp_throw]; by eapply keepsPlayersOk_Forall.
  - eapply wp_mono.
    { apply (handleLootDrop_evolves keepsPlayersOk keepsPlayersOk_core
               keepsPlayersOk_trans). }
    intros [[]|e] w' H; [|apply wp_throw]; by eapply keepsPlayersOk_Forall.
  - by apply wp_throw, wp_throw.
Qed.

(** X9. Whatever is delivered and whatever the service answers, every
    raid of the registry has at most five players, none of them below
    2000 points and no name twice, provided no points message names a
    player twice. *)
Theorem registry_players_are_well_formed (ds : list Delivery) (w : World) :
  Forall (fun d => distinctNames (event d)) ds ->
  Forall playersOk (recentRaids w) ->
  Forall playersOk (recentRaids (run ds w)).
Proof.
  revert w. induction ds as [|d ds IH]; intros w Hds Hok; [done|].
  apply Forall_cons in Hds as [Hd Hds].
  cbn [run foldl]. change (foldl _ ?a ds) with (run ds a).
  apply IH; [done|]. unfold deliver. by apply appendToSheet_playersOk.
Qed.

Lemma registry_players_are_well_formed_witness :
  Forall playersOk (recentRaids (run (firstDelivery :: laterDeliveries) (startup true))).
Proof.
  apply registry_players_are_well_formed.
  - repeat (apply Forall_cons; split); try apply Forall_nil_2; apply NoDup_singleton.
  - constructor.
Defined.

(** ** A duration message that arrives before the points *)

Lemma mergeLootOrphans_completionTime raid w :
  Raid.completionTime (mergeLootOrphans raid w).1.2 = Raid.completionTime raid.
Proof.
  unfold mergeLootOrphans.
  destruct (0 <? length (loots w))%nat; [|done].
  destruct (0 <? length (matchingLoots _ _ _))%nat; [|done].
  cbn [fst snd].
  generalize (sort (fun a b => timeDiff a - timeDiff b)
                   (matchingLoots (Raid.timestamp raid) (loots w) (length (loots w)))).
  intros l. revert raid. induction l as [|m l IH]; intros raid; simpl; [done|].
  rewrite IH. unfold addLoot. by destruct (truthy (Raid.uniqueDrop raid)).
Qed.

(** The one duration orphan in the window is the one merged. *)
Lemma mergeDurationOrphan_only raid w o :
  truthy (Raid.completionTime raid) = false ->
  o ∈ durations w ->
  durationInWindow (Raid.timestamp raid) o ->
  (forall o', o' ∈ durations w -> durationInWindow (Raid.timestamp raid) o' -> o' = o) ->
  exists i,
    durations w !! i = Some o
    /\ mergeDurationOrphan raid w
       = (true, withOrphanDuration o raid, setDurations (delete i (durations w)) w).
Proof.
  intros Hopen Hin Hwin Honly. unfold mergeDurationOrphan. cbv zeta. rewrite Hopen.
  pose proof (closestDuration_closestOf (Raid.timestamp raid) (durations w) [] None) as H.
  simpl in H. specialize (H ltac:(intros o' Ho'; by apply elem_of_nil in Ho')).
  replace (0 <? length (durations w))%nat with true
    by (symmetry; apply Nat.ltb_lt; destruct (durations w);
        [by apply elem_of_nil in Hin | simpl; lia]).
  simpl negb. simpl andb.
  destruct (closestDuration _ _ _ _) as [[i d]|]; simpl in H.
  - destruct H as (o' & Hi & -> & Hw & _).
    assert (o' = o) as -> by (apply Honly; [by eapply list_elem_of_lookup_2 | done]).
    rewrite Hi. by exists i.
  - by destruct (H o Hin).
Qed.

Lemma last_writeRaid_newest raid w0 w :
  length (recentRaids w) = length (recentRaids w0) ->
  recentRaids w0 <> [] ->
  last (recentRaids (writeRaid (newestRef w0) raid w)) = Some raid.
Proof.
  intros Hreg Hne. unfold newestRef.
  destruct (recentRaids w0) as [|r l] eqn:E; [done|].
  unfold writeRaid, setRecentRaids. cbn [recentRaids].
  rewrite last_lookup, length_insert, Hreg. simpl.
  apply list_lookup_insert_eq. rewrite Hreg. simpl. lia.
Qed.

(** What a points message leaves when it is not stale and finds neither
    a raid with its total nor a placeholder: the newest raid is the one
    [createRaidEntry] built with the orphans merged into it, up to the
    row number an append gave it, and the orphan buffers are the ones
    the merge left. *)
Lemma handleRaidCompletion_opens data w :
  clock w - PointsData.timestamp data <= MAX_DATA_AGE ->
  findRaidByTotalPoints (PointsData.totalPoints data) w = None ->
  findRaidByTotalPoints None w = None ->
  let created := createRaidEntry data (cleanOrphans w) in
  let merge := mergeOrphansWithRaid created.1 created.2 in
  let w' := (handleRaidCompletion data w).2 in
  (exists raid, last (recentRaids w') = Some raid /\ uptoRow merge.1.2 raid)
  /\ durations w' = durations merge.2
  /\ loots w' = loots merge.2.
Proof.
  intros Hfresh Hnone Hplace created merge.
  change (wp (handleRaidCompletion data)
             (fun _ w' =>
                (exists raid, last (recentRaids w') = Some raid /\ uptoRow merge.1.2 raid)
                /\ durations w' = durations merge.2
                /\ loots w' = loots merge.2) w).
  unfold handleRaidCompletion. apply wp_bind, wp_get.
  destruct (clock w - PointsData.timestamp data >? MAX_DATA_AGE) eqn:Hage; [lia|].
  apply wp_bind, wp_modify, wp_bind, wp_get.
  rewrite findRaidByTotalPoints_cleanOrphans, Hnone.
  apply wp_bind, wp_get. rewrite findRaidByTotalPoints_cleanOrphans, Hplace.
  apply wp_bind. unfold createAndMerge.
  apply wp_bind, wp_state. fold created.
  assert (Hlast : last (recentRaids created.2) = Some created.1)
    by (apply createRaidEntry_last; unfold RAID_TIMEOUT, MAX_DATA_AGE in *;
        by rewrite cleanOrphans_clock).
  destruct created as [raid0 wc] eqn:Hcreated. cbn [fst snd] in *.
  apply wp_bind, wp_get, wp_bind, wp_state.
  pose proof (mergeOrphansWithRaid_fields raid0 wc) as Hfields.
  unfold merge. destruct (mergeOrphansWithRaid raid0 wc) as [[m merged] wm].
  destruct Hfields as (Hreg & _). cbn [fst snd].
  apply wp_bind, wp_modify, wp_ret.
  assert (Hne : recentRaids wc <> []) by (by intros E; rewrite E in Hlast).
  set (wg := writeRaid (newestRef wc) merged wm).
  assert (Hnewest : forall raid,
            last (recentRaids (writeRaid (newestRef wc) raid wg)) = Some raid).
  { intros raid. apply last_writeRaid_newest; [|done].
    unfold wg. destruct (newestRef wc); simpl; by rewrite ?length_insert, Hreg. }
  assert (Hwg : last (recentRaids wg) = Some merged)
    by (apply last_writeRaid_newest; [by rewrite Hreg | done]).
  assert (Hbuf : durations wg = durations wm /\ loots wg = loots wm)
    by (unfold wg; by destruct (newestRef wc)).
  destruct Hbuf as [Hd Hl].
  destruct (negb (isScaleLargeEnough (Raid.scale merged))).
  - apply wp_ret. split_and?; [|done..]. exists merged. split; [done | by left].
  - eapply wp_mono; [apply persistRaid_spec|].
    intros r w' (Hd' & Hl' & [Hr|[n Hr]]); rewrite Hd', Hl', Hr.
    + split_and?; [|done..]. exists merged. split; [done | by left].
    + split_and?; [|done..]. exists (Raid.setSheetRow n merged).
      split; [apply Hnewest | right; by exists n].
Qed.

(** X10. A duration message that finds no open raid waits in the orphan
    buffer; when the points message of its raid follows (stamped 0 to
    3 s after it, handled within 10 s of it, opening a new raid) and no
    other buffered duration is in that window, the new raid takes the
    completion time and the scale of the duration message, and the
    orphan is gone from the buffer. *)
Theorem duration_before_points_is_merged
    (dd : DurationData.t) (pd : PointsData.t) (w : World)
    (t1 t2 : Z) (answers1 answers2 : list Response) :
  (forall raid, raid ∈ recentRaids w -> ~ awaitsDuration t1 raid) ->
  (forall o, o ∈ durations w -> ~ durationInWindow (PointsData.timestamp pd) o) ->
  durationInWindow (PointsData.timestamp pd) (durationOrphanOf dd) ->
  t2 - DurationData.timestamp dd <= ORPHAN_TIMEOUT ->
  t2 - PointsData.timestamp pd <= MAX_DATA_AGE ->
  orNull (PointsData.raidTime pd) = None ->
  findRaidByTotalPoints (PointsData.totalPoints pd) (setClock t2 w) = None ->
  findRaidByTotalPoints None (setClock t2 w) = None ->
  let w' := run [mkDelivery t1 answers1 (Duration dd);
                 mkDelivery t2 answers2 (Points pd)] w in
  exists raid,
    last (recentRaids w') = Some raid
    /\ Raid.timestamp raid = PointsData.timestamp pd
    /\ Raid.completionTime raid = DurationData.raidTime dd
    /\ (forall s, orNull (DurationData.scale dd) = Some s -> Raid.scale raid = s)
    /\ durationOrphanOf dd ∉ durations w'.
Proof.
  intros Hnoraid Hothers Hwin Hkept Hfresh Hnotime Hnone Hplace w'.
  unfold w', run. cbn [foldl]. clear w'.
  set (wa := atArrival (mkDelivery t1 answers1 (Duration dd)) w).
  assert (Hfirst : deliver (mkDelivery t1 answers1 (Duration dd)) w
                   = handleDurationUpdate dd wa)
    by (unfold deliver, appendToSheet; by rewrite tryCatch_rethrow).
  rewrite Hfirst. clear Hfirst.
  (* the duration message is buffered *)
  assert (Hbuffered : handleDurationUpdate dd wa
            = (Ok tt, setDurations (durations (cleanOrphans wa) ++ [durationOrphanOf dd])
                                   (cleanOrphans wa))).
  { unfold handleDurationUpdate. cbv zeta.
    rewrite bind_modify, bind_get. rewrite scanDown_all_false; [done|].
    intros raid Hin. change (clock (cleanOrphans wa)) with t1. apply andb_false_iff.
    destruct (truthy (Raid.completionTime raid)) eqn:Hc; [by right|]. left.
    apply Z.leb_gt. destruct (decide (t1 - Raid.timestamp raid <= 60000)) as [Hle|]; [|lia].
    destruct (Hnoraid raid Hin). by split. }
  rewrite Hbuffered. cbn [snd]. unfold deliver. cbn [event].
  unfold appendToSheet. rewrite tryCatch_rethrow, bind_ret_world.
  set (w2 := atArrival _ _).
  (* the points message opens a raid *)
  destruct (handleRaidCompletion_opens pd w2 Hfresh Hnone Hplace)
    as ((raid & Hlast & Hrow) & Hdurations & _).
  set (created := createRaidEntry pd (cleanOrphans w2)) in *.
  set (old := List.filter
                (fun o => DurationOrphan.timestamp o >=? t2 - ORPHAN_TIMEOUT)
                (List.filter
                   (fun o => DurationOrphan.timestamp o >=? t1 - ORPHAN_TIMEOUT)
                   (durations w))).
  assert (Hbuffer : durations created.2 = old ++ [durationOrphanOf dd]).
  { change (durations created.2)
      with (List.filter (fun o => DurationOrphan.timestamp o >=? t2 - ORPHAN_TIMEOUT)
              (List.filter (fun o => DurationOrphan.timestamp o >=? t1 - ORPHAN_TIMEOUT)
                 (durations w) ++ [durationOrphanOf dd])).
    rewrite List.filter_app. simpl.
    by replace (DurationData.timestamp dd >=? t2 - ORPHAN_TIMEOUT) with true by lia. }
  assert (Hold : forall o, o ∈ old -> ~ durationInWindow (PointsData.timestamp pd) o).
  { intros o Ho. apply Hothers.
    apply list_elem_of_In, filter_In in Ho as [Ho _].
    apply filter_In in Ho as [Ho _]. by apply list_elem_of_In. }
  assert (Hopen : truthy (Raid.completionTime created.1) = false).
  { change (Raid.completionTime created.1)
      with (orEmpty (orNull (PointsData.raidTime pd))). by rewrite Hnotime. }
  destruct (mergeDurationOrphan_only created.1 created.2 (durationOrphanOf dd) Hopen)
    as (i & Hi & Hmerge).
  { rewrite Hbuffer. apply elem_of_app. right. by apply list_elem_of_singleton. }
  { exact Hwin. }
  { intros o Ho Hw. rewrite Hbuffer in Ho. apply elem_of_app in Ho as [Ho|Ho].
    - by destruct (Hold o Ho).
    - by apply list_elem_of_singleton in Ho. }
  assert (Hindex : i = length old).
  { rewrite Hbuffer in Hi. destruct (decide (i < length old)%nat) as [Hlt|Hge].
    - rewrite lookup_app_l in Hi by done.
      destruct (Hold _ (list_elem_of_lookup_2 _ _ _ Hi) Hwin).
    - apply lookup_lt_Some in Hi. rewrite length_app in Hi. simpl in Hi. lia. }
  unfold mergeOrphansWithRaid in Hrow, Hdurations. rewrite Hmerge in Hrow, Hdurations.
  set (raid1 := withOrphanDuration (durationOrphanOf dd) created.1) in *.
  set (w1 := setDurations (delete i (durations created.2)) created.2) in *.
  pose proof (mergeLootOrphans_fields raid1 w1) as Hfields.
  pose proof (mergeLootOrphans_completionTime raid1 w1) as Htime.
  destruct (mergeLootOrphans raid1 w1) as [[m2 raid2] wm].
  destruct Hfields as (_ & _ & Hd & _ & _ & _ & _ & Hts & _ & _ & Hscale & _).
  cbn [fst snd] in *.
  assert (Hraid1 : Raid.timestamp raid1 = PointsData.timestamp pd
                   /\ Raid.completionTime raid1 = DurationData.raidTime dd
                   /\ forall s, orNull (DurationData.scale dd) = Some s ->
                                Raid.scale raid1 = s).
  { unfold raid1, withOrphanDuration, durationOrphanOf.
    cbn [DurationOrphan.scale DurationOrphan.raidTime].
    assert (Hidem : orNull (orNull (DurationData.scale dd)) = orNull (DurationData.scale dd)).
    { unfold orNull. by destruct (truthyOpt (DurationData.scale dd)) eqn:E; [rewrite E|]. }
    rewrite Hidem. by destruct (orNull (DurationData.scale dd)) as [s|]; split_and?;
      [| |intros ? [= <-]| | |]. }
  destruct Hraid1 as (Hts1 & Htime1 & Hscale1).
  exists raid. split; [exact Hlast|].
  assert (Hsame : Raid.timestamp raid = Raid.timestamp raid2
                  /\ Raid.completionTime raid = Raid.completionTime raid2
                  /\ Raid.scale raid = Raid.scale raid2)
    by (destruct Hrow as [->|[n ->]]; done).
  destruct Hsame as (-> & -> & ->). rewrite Hts, Htime, Hscale.
  split_and?; [done | done | done |].
  rewrite Hdurations, Hd. unfold w1. cbn [durations setDurations].
  rewrite Hbuffer, Hindex.
  replace (delete (length old) (old ++ [durationOrphanOf dd])) with old.
  - intros Hin. by destruct (Hold _ Hin).
  - symmetry. rewrite (delete_middle old [] (durationOrphanOf dd)). apply app_nil_r.
Qed.

Lemma duration_before_points_is_merged_witness :
  exists raid,
    last (recentRaids (run [mkDelivery 1700000000050 [] (Duration earlyDuration);
                            mkDelivery 1700000000900 [Success (Some 2)] (Points latePoints)]
                           quiet))
    = Some raid
    /\ Raid.timestamp raid = 1700000000800
    /\ Raid.completionTime raid = "46:43.80"
    /\ (forall s, Some "11-15" = Some s -> Raid.scale raid = s)
    /\ durationOrphanOf earlyDuration
       ∉ durations (run [mkDelivery 1700000000050 [] (Duration earlyDuration);
                         mkDelivery 1700000000900 [Success (Some 2)] (Points latePoints)]
                        quiet).
Proof.
  apply (duration_before_points_is_merged earlyDuration latePoints quiet
           1700000000050 1700000000900 [] [Success (Some 2)]).
  - intros raid Hin. by apply elem_of_nil in Hin.
  - intros o Hin. by apply elem_of_nil in Hin.
  - by vm_compute.
  - by vm_compute.
  - by vm_compute.
  - reflexivity.
  - reflexivity.
  - reflexivity.
Defined.

(** ** A points message is never lost *)

Lemma addPlayer_has p players :
  MIN_POINTS_THRESHOLD <= points p ->
  name p ∈ name <$> addPlayer (Some p) players
  \/ (MAX_PLAYERS <= length (addPlayer (Some p) players))%nat.
Proof.
  intros Hp. unfold addPlayer.
  replace (points p <? MIN_POINTS_THRESHOLD) with false by lia.
  destruct (length players <? MAX_PLAYERS)%nat eqn:Hlen; simpl.
  - left. destruct (existsb _ players) eqn:Hex; simpl.
    + apply existsb_exists in Hex as (q & Hq & Heq).
      apply String.eqb_eq in Heq. rewrite <- Heq.
      apply list_elem_of_fmap. exists q. split; [done | by apply list_elem_of_In].
    + rewrite fmap_app. apply elem_of_app. right. by apply list_elem_of_singleton.
  - right. by apply Nat.ltb_ge in Hlen.
Qed.

Lemma sameScore_core r r' : sameCore r r' -> sameScore r r'.
Proof. by intros (_ & ? & ?). Qed.

Lemma sameScore_trans a b c : sameScore a b -> sameScore b c -> sameScore a c.
Proof. intros [? ?] [? ?]. split; congruence. Qed.

Lemma records_sameScore data tp r r' : sameScore r r' -> records data tp r -> records data tp r'.
Proof.
  intros [Htp Hpl] [Htol Hp]. unfold records, withinTolerance in *.
  rewrite Htp, Hpl. by split.
Qed.

(** X11. A points message that is not stale is never lost, whatever the
    sheet answers, also when the handler throws: afterwards the registry
    holds a raid whose total is within 500 of the total of the message,
    and the player of the message, if it has at least 2000 points, is
    among the players of that raid unless the raid is full. *)
Theorem fresh_points_are_always_registered (data : PointsData.t) (tp : Z) (w : World) :
  clock w - PointsData.timestamp data <= MAX_DATA_AGE ->
  PointsData.totalPoints data = Some tp ->
  exists raid,
    raid ∈ recentRaids (handleRaidCompletion data w).2 /\ records data tp raid.
Proof.
  intros Hfresh Htp.
  destruct (findRaidByTotalPoints (Some tp) w) as [[i raid]|] eqn:Hfound.
  - (* a raid with this total exists *)
    change (wp (handleRaidCompletion data)
               (fun _ w' => exists raid, raid ∈ recentRaids w' /\ records data tp raid) w).
    unfold handleRaidCompletion. apply wp_bind, wp_get.
    destruct (clock w - PointsData.timestamp data >? MAX_DATA_AGE) eqn:Hage; [lia|].
    apply wp_bind, wp_modify, wp_bind, wp_get.
    rewrite findRaidByTotalPoints_cleanOrphans, Htp, Hfound.
    pose proof (findRaidByTotalPoints_lookup _ _ _ _ Hfound) as Hi.
    apply scanDown_Some in Hfound as (_ & _ & Hmatch & _).
    apply matchesTotalPoints_qualifies in Hmatch as [Htol _].
    eapply wp_mono; [by apply addToExistingRaid_spec|].
    intros r w' (raid' & Hr & _ & _ & _ & Htotal & Hplayers).
    exists raid'. split.
    + rewrite Hr. apply list_elem_of_lookup. exists i.
      apply list_lookup_insert_eq. by eapply lookup_lt_Some.
    + split.
      * unfold withinTolerance in *. rewrite Htotal, Htp.
        destruct (Raid.totalPoints raid); simpl in *; lia.
      * intros p Hp Habove. rewrite Hplayers, Hp. by apply addPlayer_has.
  - destruct (findRaidByTotalPoints None w) as [[i raid]|] eqn:Hplace.
    + (* a placeholder takes the total *)
      change (wp (handleRaidCompletion data)
                 (fun _ w' => exists raid, raid ∈ recentRaids w' /\ records data tp raid) w).
      unfold handleRaidCompletion. apply wp_bind, wp_get.
      destruct (clock w - PointsData.timestamp data >? MAX_DATA_AGE) eqn:Hage; [lia|].
      apply wp_bind, wp_modify, wp_bind, wp_get.
      rewrite findRaidByTotalPoints_cleanOrphans, Htp, Hfound.
      apply wp_bind, wp_get. rewrite findRaidByTotalPoints_cleanOrphans, Hplace.
      apply findRaidByTotalPoints_lookup in Hplace.
      apply wp_bind. unfold promotePlaceholder.
      apply wp_bind, wp_modify, wp_ret.
      match goal with
      | |- wp _ _ (writeRaid _ ?r _) => set (promoted := r)
      end.
      assert (Hpromoted : records data tp promoted).
      { split.
        - unfold withinTolerance.
          replace (Raid.totalPoints promoted) with (Some tp); [simpl; lia|].
          unfold promoted. rewrite Htp.
          destruct (head (PointsData.players data)) as [p|]; [|done].
          destruct (_ && _); [|done]. by destruct (negb _).
        - intros p Hp Habove.
          replace (Raid.players promoted)
            with (addPlayer (Some p) (Raid.players raid)); [by apply addPlayer_has|].
          unfold promoted, addPlayer, playerExists. rewrite Hp.
          cbn [Raid.players Raid.setTotalPoints].
          replace (points p >=? MIN_POINTS_THRESHOLD) with true by lia.
          replace (points p <? MIN_POINTS_THRESHOLD) with false by lia.
          destruct (length (Raid.players raid) <? MAX_PLAYERS)%nat; [|done].
          simpl. by destruct (existsb _ (Raid.players raid)). }
      eapply wp_mono.
      { apply (finishBranch_evolves sameScore sameScore_core sameScore_trans
                 (recentRaids (writeRaid (Some i) promoted (cleanOrphans w)))
                 (Some i) promoted).
        - by apply evolves_refl, sameScore_core.
        - by eapply (writeRaid_refHolds (Some i)). }
      intros r w' Hkept.
      assert (Hi : recentRaids (writeRaid (Some i) promoted (cleanOrphans w)) !! i
                   = Some promoted)
        by (simpl; apply list_lookup_insert_eq; by eapply lookup_lt_Some).
      destruct (Forall2_lookup_l _ _ _ _ _ Hkept Hi) as (raid' & Hi' & Hsame).
      exists raid'. split; [by eapply list_elem_of_lookup_2|].
      by eapply records_sameScore.
    + (* a new raid is opened *)
      rewrite <- Htp in Hfound.
      destruct (handleRaidCompletion_creates data w Hfresh Hfound Hplace)
        as (raid & Hlast & _ & Htotal & Hplayers & _).
      exists raid. split; [by apply last_Some_elem_of|]. split.
      * unfold withinTolerance. rewrite Htotal, Htp. simpl. lia.
      * intros p Hp Habove. left. rewrite Hplayers.
        destruct (PointsData.players data) as [|q players]; [done|].
        injection Hp as ->. cbn [List.filter]. unfold aboveThreshold at 1.
        replace (points p >=? MIN_POINTS_THRESHOLD) with true by lia.
        cbn [MAX_PLAYERS take fmap list_fmap]. apply list_elem_of_here.
Qed.

Lemma fresh_points_are_always_registered_witness :
  (handleRaidCompletion thirdPlayer sheetDown).1 = Throw (ApiError 500 false)
  /\ exists raid,
       raid ∈ recentRaids (handleRaidCompletion thirdPlayer sheetDown).2
       /\ records thirdPlayer 285600 raid.
Proof.
  split; [reflexivity|].
  apply (fresh_points_are_always_registered thirdPlayer 285600 sheetDown);
    [by vm_compute | reflexivity].
Defined.

(** ** A points message delivered again *)

Lemma scanDown_intro {A} (p : A -> bool) l n i x :
  (i < n)%nat -> l !! i = Some x -> p x = true ->
  (forall j y, (i < j < n)%nat -> l !! j = Some y -> p y = false) ->
  scanDown p l n = Some (i, x).
Proof.
  induction n as [|n IH]; intros Hi Hx Hp Hlater; [lia|]. simpl.
  destruct (decide (i = n)) as [->|Hne].
  - by rewrite Hx, Hp.
  - destruct (l !! n) as [y|] eqn:Hy.
    + rewrite (Hlater n y) by (done || lia). apply IH; [lia | done..|].
      intros j z Hj. apply Hlater. lia.
    + apply IH; [lia | done..|]. intros j z Hj. apply Hlater. lia.
Qed.

Lemma matches_later now t tp r r' :
  now <= t ->
  Raid.timestamp r' = Raid.timestamp r ->
  Raid.totalPoints r' = Raid.totalPoints r ->
  matchesTotalPoints now (Some tp) r = false ->
  matchesTotalPoints t (Some tp) r' = false.
Proof.
  unfold matchesTotalPoints. cbv zeta. intros Ht -> ->.
  rewrite !andb_false_iff, !Z.leb_gt. lia.
Qed.

Lemma settled_addPlayer newPlayer players :
  settled newPlayer (addPlayer newPlayer players) = true.
Proof.
  unfold settled, addPlayer. destruct newPlayer as [p|]; [|done].
  destruct (points p <? MIN_POINTS_THRESHOLD) eqn:Hp; [done|]. simpl.
  destruct (length players <? MAX_PLAYERS)%nat eqn:Hlen; simpl.
  - destruct (existsb _ players) eqn:Hex; simpl.
    + by rewrite Hlen, Hex.
    + rewrite existsb_app. simpl. rewrite String.eqb_refl.
      by rewrite orb_true_r, orb_true_r.
  - by rewrite Hlen.
Qed.

Lemma writeRaid_same i raid w :
  recentRaids w !! i = Some raid -> writeRaid (Some i) raid w = w.
Proof.
  intros Hi. unfold writeRaid, setRecentRaids. rewrite list_insert_id by done.
  by destruct w.
Qed.

(** A points message whose raid has its total and has nothing left to
    take from the message is absorbed. *)
Lemma addToExistingRaid_absorbs data i raid w :
  recentRaids w !! i = Some raid ->
  Raid.totalPoints raid <> None ->
  settled (head (PointsData.players data)) (Raid.players raid) = true ->
  addToExistingRaid data i raid w = (Ok (Some raid), w).
Proof.
  intros Hi Htotal Hsettled. unfold addToExistingRaid.
  destruct (Raid.totalPoints raid) as [v|] eqn:Hv; [|done].
  rewrite bind_modify, writeRaid_same by done.
  unfold settled in Hsettled.
  destruct (head (PointsData.players data)) as [newPlayer|]; [|done].
  destruct (points newPlayer <? MIN_POINTS_THRESHOLD); [done|].
  destruct (length (Raid.players raid) <? MAX_PLAYERS)%nat; [|done].
  unfold playerExists. simpl in Hsettled. by rewrite Hsettled.
Qed.

Lemma handleRaidCompletion_absorbs data tp w i raid :
  clock w - PointsData.timestamp data <= MAX_DATA_AGE ->
  PointsData.totalPoints data = Some tp ->
  recentRaids w !! i = Some raid ->
  matchesTotalPoints (clock w) (Some tp) raid = true ->
  (forall j y, (i < j)%nat -> recentRaids w !! j = Some y ->
     matchesTotalPoints (clock w) (Some tp) y = false) ->
  Raid.totalPoints raid <> None ->
  settled (head (PointsData.players data)) (Raid.players raid) = true ->
  handleRaidCompletion data w = (Ok (Some raid), cleanOrphans w).
Proof.
  intros Hfresh Htp Hi Hmatch Habove Htotal Hsettled.
  unfold handleRaidCompletion. rewrite bind_get.
  destruct (clock w - PointsData.timestamp data >? MAX_DATA_AGE) eqn:Hage; [lia|].
  rewrite bind_modify, bind_get, findRaidByTotalPoints_cleanOrphans, Htp.
  unfold findRaidByTotalPoints.
  rewrite (scanDown_intro _ _ _ i raid); [|by eapply lookup_lt_Some|done..|].
  - by apply addToExistingRaid_absorbs.
  - intros j y [Hj _]. by apply Habove.
Qed.

(** X12. Delivering a points message again changes nothing. After a
    points message that is not stale has been handled, the registry
    holds a raid that absorbs every later delivery of the same message
    for as long as the raid is inside the two-minute window: such a
    delivery returns that raid and leaves the world as the purge of old
    orphans leaves it, so no player is added twice and nothing is sent
    to the sheet, whether or not the first delivery reached the sheet. *)
Theorem redelivered_points_change_nothing (data : PointsData.t) (tp : Z) (w : World) :
  clock w - PointsData.timestamp data <= MAX_DATA_AGE ->
  PointsData.totalPoints data = Some tp ->
  exists raid,
    raid ∈ recentRaids (handleRaidCompletion data w).2
    /\ forall (t : Z) (answers : list Response),
         clock w <= t ->
         t - PointsData.timestamp data <= MAX_DATA_AGE ->
         t - Raid.timestamp raid <= 120000 ->
         let again := atArrival (mkDelivery t answers (Points data))
                                (handleRaidCompletion data w).2 in
         handleRaidCompletion data again = (Ok (Some raid), cleanOrphans again).
Proof.
  intros Hfresh Htp.
  (* it is enough to find the raid at some position, with nothing that
     matched above it *)
  assert (Henough : forall i raid,
            recentRaids (handleRaidCompletion data w).2 !! i = Some raid ->
            withinTolerance tp raid ->
            Raid.totalPoints raid <> None ->
            settled (head (PointsData.players data)) (Raid.players raid) = true ->
            (forall j y t, (i < j)%nat -> clock w <= t ->
               recentRaids (handleRaidCompletion data w).2 !! j = Some y ->
               matchesTotalPoints t (Some tp) y = false) ->
            exists raid,
              raid ∈ recentRaids (handleRaidCompletion data w).2
              /\ forall (t : Z) (answers : list Response),
                   clock w <= t ->
                   t - PointsData.timestamp data <= MAX_DATA_AGE ->
                   t - Raid.timestamp raid <= 120000 ->
                   let again := atArrival (mkDelivery t answers (Points data))
                                          (handleRaidCompletion data w).2 in
                   handleRaidCompletion data again = (Ok (Some raid), cleanOrphans again)).
  { intros i raid Hi Htol Htotal Hsettled Habove. exists raid.
    split; [by eapply list_elem_of_lookup_2|].
    intros t answers Ht Hfresh' Hwindow again.
    apply (handleRaidCompletion_absorbs data tp again i raid); try done.
    - apply matchesTotalPoints_qualifies. by split.
    - intros j y Hj Hy. by apply (Habove j y t). }
  set (final := (handleRaidCompletion data w).2) in *.
  destruct (findRaidByTotalPoints (Some tp) w) as [[i raid]|] eqn:Hfound.
  - (* the message joined a raid *)
    assert (Hwp : wp (handleRaidCompletion data)
              (fun _ w' =>
                 exists raid',
                   recentRaids w' = <[i := raid']> (recentRaids w)
                   /\ Raid.timestamp raid' = Raid.timestamp raid
                   /\ Raid.totalPoints raid' =
                        match Raid.totalPoints raid with
                        | None => Some tp
                        | Some v => Some v
                        end
                   /\ Raid.players raid' =
                        addPlayer (head (PointsData.players data)) (Raid.players raid)) w).
    { unfold handleRaidCompletion. apply wp_bind, wp_get.
      destruct (clock w - PointsData.timestamp data >? MAX_DATA_AGE) eqn:Hage; [lia|].
      apply wp_bind, wp_modify, wp_bind, wp_get.
      rewrite findRaidByTotalPoints_cleanOrphans, Htp, Hfound.
      eapply wp_mono.
      { apply addToExistingRaid_spec. by apply findRaidByTotalPoints_lookup in Hfound. }
      intros r w' (raid' & Hr & _ & _ & Ht & Htotal & Hplayers).
      exists raid'. rewrite <- Htp. by split_and?. }
    destruct Hwp as (raid' & Hreg & Hts & Htotal & Hplayers). fold final in Hreg.
    pose proof (findRaidByTotalPoints_lookup _ _ _ _ Hfound) as Hi.
    apply scanDown_Some in Hfound as (_ & _ & Hmatch & Hlater).
    apply matchesTotalPoints_qualifies in Hmatch as [Htol _].
    apply (Henough i raid').
    + rewrite Hreg. apply list_lookup_insert_eq. by eapply lookup_lt_Some.
    + unfold withinTolerance in *. rewrite Htotal.
      destruct (Raid.totalPoints raid); simpl in *; lia.
    + rewrite Htotal. by destruct (Raid.totalPoints raid).
    + rewrite Hplayers. apply settled_addPlayer.
    + intros j y t Hj Ht Hy. rewrite Hreg in Hy.
      rewrite list_lookup_insert_ne in Hy by lia.
      apply (matches_later (clock w) t tp y y Ht eq_refl eq_refl).
      apply (Hlater j y); [|done]. split; [done | by eapply lookup_lt_Some].
  - assert (Hnone : forall y, y ∈ recentRaids w ->
              matchesTotalPoints (clock w) (Some tp) y = false)
      by (intros y Hy; by apply (scanDown_None_all _ _ _ Hfound Hy)).
    rewrite <- Htp in Hfound.
    destruct (findRaidByTotalPoints None w) as [[i raid]|] eqn:Hplace.
    + (* a placeholder took the message *)
      pose proof (findRaidByTotalPoints_lookup _ _ _ _ Hplace) as Hi.
      set (promoted := (promotePlaceholder data i raid (cleanOrphans w)).1).
      assert (Hwp : wp (handleRaidCompletion data)
                (fun _ w' =>
                   exists promoted,
                     Raid.totalPoints promoted = Some tp
                     /\ Raid.players promoted =
                          addPlayer (head (PointsData.players data)) (Raid.players raid)
                     /\ Forall2 sameCore (<[i := promoted]> (recentRaids w))
                                 (recentRaids w')) w).
      { unfold handleRaidCompletion. apply wp_bind, wp_get.
        destruct (clock w - PointsData.timestamp data >? MAX_DATA_AGE) eqn:Hage; [lia|].
        apply wp_bind, wp_modify, wp_bind, wp_get.
        rewrite findRaidByTotalPoints_cleanOrphans, Hfound.
        apply wp_bind, wp_get. rewrite findRaidByTotalPoints_cleanOrphans, Hplace.
        apply wp_bind. unfold promotePlaceholder.
        apply wp_bind, wp_modify, wp_ret.
        match goal with
        | |- wp _ _ (writeRaid _ ?r _) => set (raid1 := r)
        end.
        eapply wp_mono.
        { apply (finishBranch_evolves sameCore (fun r r' H => H) sameCore_trans
                   (recentRaids (writeRaid (Some i) raid1 (cleanOrphans w)))
                   (Some i) raid1).
          - by apply evolves_refl.
          - by eapply (writeRaid_refHolds (Some i)). }
        intros r w' Hkept. exists raid1. split_and?; [| |exact Hkept].
        - unfold raid1. rewrite Htp.
          destruct (head (PointsData.players data)) as [p|]; [|done].
          destruct (_ && _); [|done]. by destruct (negb _).
        - unfold raid1, addPlayer, playerExists.
          destruct (head (PointsData.players data)) as [p|]; [|done].
          cbn [Raid.players Raid.setTotalPoints].
          replace (points p >=? MIN_POINTS_THRESHOLD)
            with (negb (points p <? MIN_POINTS_THRESHOLD)) by lia.
          destruct (points p <? MIN_POINTS_THRESHOLD); [done|].
          destruct (length (Raid.players raid) <? MAX_PLAYERS)%nat; [|done].
          simpl. by destruct (existsb _ (Raid.players raid)). }
      clear promoted. destruct Hwp as (promoted & Htotal & Hplayers & Hkept).
      fold final in Hkept.
      assert (Hp : <[i := promoted]> (recentRaids w) !! i = Some promoted)
        by (apply list_lookup_insert_eq; by eapply lookup_lt_Some).
      destruct (Forall2_lookup_l _ _ _ _ _ Hkept Hp) as (raid' & Hi' & _ & Htotal' & Hplayers').
      apply (Henough i raid' Hi').
      * unfold withinTolerance. rewrite Htotal', Htotal. simpl. lia.
      * by rewrite Htotal', Htotal.
      * rewrite Hplayers', Hplayers. apply settled_addPlayer.
      * intros j y t Hj Ht Hy.
        destruct (Forall2_lookup_r _ _ _ _ _ Hkept Hy) as (y0 & Hy0 & Hts & Htot & _).
        rewrite list_lookup_insert_ne in Hy0 by lia.
        apply (matches_later (clock w) t tp y0 y Ht Hts Htot).
        apply Hnone. by eapply list_elem_of_lookup_2.
    + (* the message opened a raid, which is the newest *)
      assert (Hwp : wp (handleRaidCompletion data)
                (fun _ w' =>
                   Forall2 sameCore
                     (recentRaids (createRaidEntry data (cleanOrphans w)).2)
                     (recentRaids w')) w).
      { unfold handleRaidCompletion. apply wp_bind, wp_get.
        destruct (clock w - PointsData.timestamp data >? MAX_DATA_AGE) eqn:Hage; [lia|].
        apply wp_bind, wp_modify, wp_bind, wp_get.
        rewrite findRaidByTotalPoints_cleanOrphans, Hfound.
        apply wp_bind, wp_get. rewrite findRaidByTotalPoints_cleanOrphans, Hplace.
        apply (createBranch_evolves sameCore); [done | apply sameCore_trans]. }
      unfold wp in Hwp. fold final in Hwp.
      pose proof (createRaidEntry_last data (cleanOrphans w) Hfresh) as Hlast.
      destruct (Forall2_last _ _ _ _ Hwp Hlast) as (raid' & Hlast' & _ & Htotal & Hplayers).
      rewrite last_lookup in Hlast'.
      apply (Henough (pred (length (recentRaids final))) raid' Hlast').
      * unfold withinTolerance. rewrite Htotal. simpl. rewrite Htp. simpl. lia.
      * rewrite Htotal. simpl. by rewrite Htp.
      * rewrite Hplayers. cbn [fst createRaidEntry Raid.players]. unfold settled.
        destruct (PointsData.players data) as [|p players]; [done|]. cbn [head List.filter].
        destruct (points p <? MIN_POINTS_THRESHOLD) eqn:Hp; [done|].
        replace (points p >=? MIN_POINTS_THRESHOLD) with true by lia.
        cbn [MAX_PLAYERS take existsb]. rewrite String.eqb_refl.
        by rewrite orb_true_r.
      * intros j y t Hj _ Hy. apply lookup_lt_Some in Hy. lia.
Qed.

Lemma redelivered_points_change_nothing_witness :
  exists raid,
    raid ∈ recentRaids (handleRaidCompletion thirdPlayer sheetDown).2
    /\ forall (t : Z) (answers : list Response),
         clock sheetDown <= t ->
         t - PointsData.timestamp thirdPlayer <= MAX_DATA_AGE ->
         t - Raid.timestamp raid <= 120000 ->
         let again := atArrival (mkDelivery t answers (Points thirdPlayer))
                                (handleRaidCompletion thirdPlayer sheetDown).2 in
         handleRaidCompletion thirdPlayer again = (Ok (Some raid), cleanOrphans again).
Proof.
  apply (redelivered_points_change_nothing thirdPlayer 285600 sheetDown);
    [by vm_compute | reflexivity].
Defined.

(** ** A call inside the cooldown *)

Lemma awaitCooldown_sendTime w :
  awaitCooldown w
  = (Ok tt,
     mkWorld (sheetsClient w) (lastRateLimitError w) (recentRaids w) (durations w)
             (loots w) (Z.max (clock w) (lastRateLimitError w + RATE_LIMIT_COOLDOWN))
             (pending w)
             (trace w
              ++ (if clock w - lastRateLimitError w <? RATE_LIMIT_COOLDOWN
                  then [Wait (RATE_LIMIT_COOLDOWN - (clock w - lastRateLimitError w))]
                  else []))).
Proof.
  destruct (clock w - lastRateLimitError w <? RATE_LIMIT_COOLDOWN) eqn:Hc.
  - rewrite awaitCooldown_within by lia. unfold emit, setClock. cbn.
    by rewrite Z.max_r by lia.
  - rewrite awaitCooldown_elapsed by lia. rewrite Z.max_l, app_nil_r by lia.
    by destruct w.
Qed.

(** X13. The cooldown after a rate limit is shared by both persistence
    calls and holds across calls: with a cached client, a call of
    [appendRow] or [updateRow] that comes less than 60 s after the last
    rate-limit error first waits for the rest of the 60 s and then
    sends; one that comes later sends at once. When the service accepts,
    the call returns after this single attempt. *)
Theorem calls_wait_for_the_cooldown
    (rowNumber : Z) (row : Row) (w : World) (r : option Z) (rest : list Response) :
  sheetsClient w = true ->
  pending w = Success r :: rest ->
  appendRow row w = (Ok r, sentAfterCooldown (Append row) rest w)
  /\ updateRow rowNumber row w
     = (Ok tt, sentAfterCooldown (Update rowNumber row) rest w).
Proof.
  intros Hclient Hpending.
  pose proof (awaitCooldown_sendTime w) as Hwait.
  set (w1 := mkWorld _ _ _ _ _ _ _ _) in Hwait.
  assert (Hcall : forall a, call a w1 = (Ok r, sentAfterCooldown a rest w)).
  { intros a. unfold call. change (pending (emit a w1)) with (pending w). rewrite Hpending.
    unfold sentAfterCooldown, w1, setPending, emit. cbn. by rewrite <- app_assoc. }
  assert (Hready : ensureClient w1 = (Ok tt, w1)) by (by apply ensureClient_cached).
  split.
  - unfold appendRow. cbn [MAX_RETRIES appendRowFrom].
    apply tryCatch_Ok.
    rewrite (bind_Ok _ _ _ _ _ Hwait), (bind_Ok _ _ _ _ _ Hready). apply Hcall.
  - unfold updateRow. cbn [MAX_RETRIES updateRowFrom].
    apply tryCatch_Ok.
    rewrite (bind_Ok _ _ _ _ _ Hwait), (bind_Ok _ _ _ _ _ Hready).
    by rewrite (bind_Ok _ _ _ _ _ (Hcall _)).
Qed.

Lemma calls_wait_for_the_cooldown_witness :
  appendRow [] coolingDown
  = (Ok (Some 7),
     mkWorld true 1700000000000 [] [] [] 1700000060000 [] [Wait 40000; Append []])
  /\ updateRow 7 [] coolingDown
     = (Ok tt,
        mkWorld true 1700000000000 [] [] [] 1700000060000 [] [Wait 40000; Update 7 []]).
Proof.
  apply (calls_wait_for_the_cooldown 7 [] coolingDown (Some 7) []); reflexivity.
Defined.

(** ** Purging the orphan buffers *)




(** ** The team-size filter when the points come first *)

Lemma issued_stable a : gatewayStable (issued a).
Proof.
  intros w0 w (more & H & Hin). split_and?; try (intros; by exists more).
  intros b. exists (more ++ [b]). simpl. rewrite H, app_assoc. split; [done|].
  apply elem_of_app. by left.
Qed.

Lemma issued_trans a w0 w1 w2 :
  issued a w0 w1 -> traceExtends w1 w2 -> issued a w0 w2.
Proof.
  intros (more & H & Hin) (more' & H'). exists (more ++ more').
  rewrite H', H, app_assoc. split; [done|]. apply elem_of_app. by left.
Qed.

Lemma awaitCooldown_world w :
  traceExtends w (awaitCooldown w).2
  /\ sheetsClient (awaitCooldown w).2 = sheetsClient w
  /\ pending (awaitCooldown w).2 = pending w
  /\ sameRecords w (awaitCooldown w).2.
Proof.
  rewrite awaitCooldown_sendTime. cbn [snd].
  split_and?; [by eexists | done | done | by split_and?].
Qed.

(** With a cached client the first attempt of [updateRow] is sent. *)
Lemma updateRowFrom_issues n rowNumber row w :
  sheetsClient w = true ->
  issued (Update rowNumber row) w (updateRowFrom n rowNumber row w).2.
Proof.
  intros Hclient.
  destruct (awaitCooldown_world w) as ((waits & Hwaits) & Hc & _).
  destruct (awaitCooldown w) as [r0 w1] eqn:Hwait. cbn [snd] in *.
  assert (r0 = Ok tt) as -> by (by rewrite awaitCooldown_sendTime in Hwait; injection Hwait).
  set (a := Update rowNumber row).
  assert (Htry : exists r w2,
            (awaitCooldown ;; ensureClient ;; call a ;; ret tt) w = (r, w2)
            /\ issued a w w2).
  { assert (Hsent : forall w2, trace w2 = trace w1 ++ [a] -> issued a w w2).
    { intros w2 H2. exists (waits ++ [a]). rewrite H2, Hwaits, app_assoc.
      split; [done|]. apply elem_of_app. right. by apply list_elem_of_singleton. }
    rewrite (bind_Ok _ _ _ _ _ Hwait).
    rewrite (bind_Ok _ _ _ _ _ (ensureClient_cached _ (eq_trans Hc Hclient))).
    unfold bind, call.
    destruct (pending (emit a w1)) as [|[r|code msg] rest]; eexists _, _;
      (split; [reflexivity|]); by apply Hsent. }
  destruct Htry as (r & w2 & Htry & Hw2).
  destruct n as [|n]; cbn [updateRowFrom]; fold a.
  - destruct r as [[]|e].
    + by rewrite (tryCatch_Ok _ _ _ _ _ Htry).
    + rewrite (tryCatch_Throw _ _ _ _ _ Htry).
      destruct (isRateLimit e); [|exact Hw2].
      by rewrite bind_get, bind_modify.
  - destruct r as [[]|e].
    + by rewrite (tryCatch_Ok _ _ _ _ _ Htry).
    + rewrite (tryCatch_Throw _ _ _ _ _ Htry).
      destruct (isRateLimit e); [|exact Hw2].
      apply (keeps_bind (issued a) (get clock)); [apply keeps_get | | exact Hw2].
      intros now. apply keeps_bind; [apply keeps_setLastRateLimitError, issued_stable|].
      intros _. apply keeps_bind; [apply keeps_wait, issued_stable|].
      intros _. apply keeps_updateRowFrom, issued_stable.
Qed.

(** With a cached client and a service that accepts, [appendRow] sends
    the row and returns the row number of the answer. *)
Lemma appendRow_first_try row w r rest :
  sheetsClient w = true ->
  pending w = Success r :: rest ->
  exists w',
    appendRow row w = (Ok r, w')
    /\ sameRecords w w'
    /\ sheetsClient w' = true
    /\ issued (Append row) w w'.
Proof.
  intros Hclient Hpending.
  destruct (awaitCooldown_world w) as ((waits & Hwaits) & Hc & Hp & Hsame).
  destruct (awaitCooldown w) as [r0 w1] eqn:Hwait. cbn [snd] in *.
  assert (r0 = Ok tt) as -> by (by rewrite awaitCooldown_sendTime in Hwait; injection Hwait).
  exists (setPending rest (emit (Append row) w1)).
  split_and?.
  - unfold appendRow. cbn [MAX_RETRIES appendRowFrom]. apply tryCatch_Ok.
    rewrite (bind_Ok _ _ _ _ _ Hwait).
    rewrite (bind_Ok _ _ _ _ _ (ensureClient_cached _ (eq_trans Hc Hclient))).
    unfold call. change (pending (emit (Append row) w1)) with (pending w1).
    by rewrite Hp, Hpending.
  - exact Hsame.
  - exact (eq_trans Hc Hclient).
  - exists (waits ++ [Append row]). cbn. rewrite Hwaits, app_assoc.
    split; [done|]. apply elem_of_app. right. by apply list_elem_of_singleton.
Qed.

(** A points message that opens a raid while nothing waits in the orphan
    buffers, with a cached client and a service that accepts: the raid
    is appended and gets its row. *)
Lemma opening_appends pd tp n rest w :
  clock w - PointsData.timestamp pd <= MAX_DATA_AGE ->
  PointsData.totalPoints pd = Some tp ->
  orNull (PointsData.raidTime pd) = None ->
  findRaidByTotalPoints (Some tp) w = None ->
  findRaidByTotalPoints None w = None ->
  durations w = [] -> loots w = [] ->
  sheetsClient w = true ->
  pending w = Success (Some n) :: rest ->
  n <> 0 ->
  exists raid,
    last (recentRaids (handleRaidCompletion pd w).2) = Some raid
    /\ persistedRow raid = Some n
    /\ Raid.timestamp raid = PointsData.timestamp pd
    /\ Raid.completionTime raid = ""
    /\ Raid.scale raid = ""
    /\ issued (Append (raidToRow raid)) w (handleRaidCompletion pd w).2
    /\ sheetsClient (handleRaidCompletion pd w).2 = true.
Proof.
  intros Hfresh Htp Hnotime Hnone Hplace Hd Hl Hclient Hpending Hn.
  change (wp (handleRaidCompletion pd)
             (fun _ w' =>
                exists raid,
                  last (recentRaids w') = Some raid
                  /\ persistedRow raid = Some n
                  /\ Raid.timestamp raid = PointsData.timestamp pd
                  /\ Raid.completionTime raid = ""
                  /\ Raid.scale raid = ""
                  /\ issued (Append (raidToRow raid)) w w'
                  /\ sheetsClient w' = true) w).
  unfold handleRaidCompletion. apply wp_bind, wp_get.
  destruct (clock w - PointsData.timestamp pd >? MAX_DATA_AGE) eqn:Hage; [lia|].
  apply wp_bind, wp_modify, wp_bind, wp_get.
  rewrite findRaidByTotalPoints_cleanOrphans, Htp, Hnone.
  apply wp_bind, wp_get. rewrite findRaidByTotalPoints_cleanOrphans, Hplace.
  apply wp_bind. unfold createAndMerge. apply wp_bind, wp_state.
  pose proof (createRaidEntry_last pd (cleanOrphans w) Hfresh) as Hlast.
  set (created := createRaidEntry pd (cleanOrphans w)) in *.
  set (raid0 := created.1) in *. set (wc := created.2) in *.
  replace created with (raid0, wc) by (by destruct created).
  assert (Hfields : Raid.timestamp raid0 = PointsData.timestamp pd
                    /\ Raid.totalPoints raid0 = Some tp
                    /\ Raid.completionTime raid0 = ""
                    /\ Raid.scale raid0 = ""
                    /\ Raid.addedToSheet raid0 = false).
  { split_and?; [reflexivity | exact Htp | | reflexivity | reflexivity].
    change (Raid.completionTime raid0) with (orEmpty (orNull (PointsData.raidTime pd))).
    by rewrite Hnotime. }
  destruct Hfields as (Hts & Htotal & Htime & Hscale & Hnew).
  assert (Hbuffers : durations wc = [] /\ loots wc = []).
  { change (durations wc)
      with (List.filter (fun o => DurationOrphan.timestamp o >=? clock w - ORPHAN_TIMEOUT)
                        (durations w)).
    change (loots wc)
      with (List.filter (fun o => LootOrphan.timestamp o >=? clock w - ORPHAN_TIMEOUT)
                        (loots w)).
    by rewrite Hd, Hl. }
  destruct Hbuffers as [Hdc Hlc].
  assert (Hmerge : mergeOrphansWithRaid raid0 wc = (false, raid0, wc)).
  { unfold mergeOrphansWithRaid, mergeDurationOrphan, mergeLootOrphans.
    rewrite Hdc. cbn [length Nat.ltb Nat.leb]. rewrite andb_false_r.
    rewrite Hlc. by cbn [length Nat.ltb Nat.leb]. }
  cbn [fst snd]. apply wp_bind, wp_get, wp_bind, wp_state. rewrite Hmerge.
  apply wp_bind, wp_modify, wp_ret. cbn [fst snd].
  assert (Hne : recentRaids wc <> []) by (by intros E; rewrite E in Hlast).
  set (ref := newestRef wc). set (wg := writeRaid ref raid0 wc).
  assert (Hwg : sheetsClient wg = true /\ pending wg = Success (Some n) :: rest
                /\ trace wg = trace w
                /\ length (recentRaids wg) = length (recentRaids wc)).
  { unfold wg. destruct ref; simpl; rewrite ?length_insert; by split_and?. }
  destruct Hwg as (Hclientg & Hpendingg & Htraceg & Hleng).
  rewrite Hscale. cbn [isScaleLargeEnough truthy negb].
  unfold persistRaid. rewrite Htotal, Hnew. cbn [negb andb].
  rewrite bool_decide_eq_true_2 by done.
  destruct (appendRow_first_try (raidToRow raid0) wg (Some n) rest Hclientg Hpendingg)
    as (w' & Happend & (Hreg & _) & Hclient' & (more & Hmore & Hin)).
  apply wp_bind. unfold wp at 1. rewrite Happend. cbn [fst snd].
  apply wp_bind, wp_modify, wp_ret.
  exists (Raid.setSheetRow n raid0). split_and?; try done.
  - apply last_writeRaid_newest; [by rewrite Hreg | done].
  - unfold persistedRow. cbn. by replace (n =? 0) with false by lia.
  - exists more. split; [|done]. unfold ref. by destruct (newestRef wc); simpl; rewrite Hmore, Htraceg.
  - unfold ref. by destruct (newestRef wc).
Qed.

(** A duration message for the newest raid, which has its row. *)
Lemma duration_updates_the_row dd raid n w :
  last (recentRaids w) = Some raid ->
  awaitsDuration (clock w) raid ->
  persistedRow raid = Some n ->
  sheetsClient w = true ->
  issued (Update n (raidToRow (withDuration dd raid))) w (handleDurationUpdate dd w).2
  /\ last (recentRaids (handleDurationUpdate dd w).2) = Some (withDuration dd raid).
Proof.
  intros Hlast [Hwindow Hopen] Hrow Hclient.
  apply last_Some in Hlast as [older Hreg].
  unfold handleDurationUpdate. cbv zeta. rewrite bind_modify, bind_get.
  rewrite cleanOrphans_recentRaids, cleanOrphans_clock, Hreg.
  rewrite scanDown_last
    by (rewrite Hopen; apply andb_true_iff; split; [by apply Z.leb_le | done]).
  fold (withDuration dd raid). set (raid' := withDuration dd raid).
  rewrite bind_modify.
  assert (Hrow' : persistedRow raid' = Some n).
  { rewrite <- Hrow. unfold raid', withDuration, persistedRow.
    by destruct (orNull (DurationData.scale dd)). }
  rewrite Hrow'.
  set (w1 := writeRaid (Some (length older)) raid' (cleanOrphans w)).
  assert (Hlast1 : last (recentRaids w1) = Some raid').
  { unfold w1. simpl. rewrite Hreg, last_lookup, length_insert, length_app. simpl.
    replace (pred (length older + 1)) with (length older) by lia.
    apply list_lookup_insert_eq. rewrite length_app. simpl. lia. }
  split.
  - destruct (updateRowFrom_issues MAX_RETRIES n (raidToRow raid') w1 Hclient)
      as (more & Hmore & Hin).
    by exists more.
  - pose proof (gatewayOnly_updateRow n (raidToRow raid') w1 w1 (sameRecords_refl w1))
      as (Hsame & _).
    by rewrite Hsame.
Qed.

(** X15. The team-size filter does not see a raid whose points arrive
    before its duration. A points message that opens a raid while no
    orphan waits is appended to the sheet (the team size is still
    unknown); when the duration message follows within 60 s with a team
    size below the minimum, the row of that raid is updated with it:
    the raid stays in the sheet, now showing the small team. *)
Theorem small_team_is_logged_when_points_come_first
    (pd : PointsData.t) (dd : DurationData.t) (w : World) (tp n : Z) (s : string)
    (t1 t2 : Z) (rest answers2 : list Response) :
  t1 - PointsData.timestamp pd <= MAX_DATA_AGE ->
  PointsData.totalPoints pd = Some tp ->
  orNull (PointsData.raidTime pd) = None ->
  findRaidByTotalPoints (Some tp) (setClock t1 w) = None ->
  findRaidByTotalPoints None (setClock t1 w) = None ->
  durations w = [] -> loots w = [] ->
  sheetsClient w = true ->
  n <> 0 ->
  t2 - PointsData.timestamp pd <= 60000 ->
  orNull (DurationData.scale dd) = Some s ->
  teamSizeBelowMinimum s ->
  let w' := run [mkDelivery t1 (Success (Some n) :: rest) (Points pd);
                 mkDelivery t2 answers2 (Duration dd)] w in
  exists raid before between after,
    trace w' = trace w ++ before ++ Append (raidToRow raid) :: between
               ++ Update n (raidToRow (withDuration dd raid)) :: after
    /\ Raid.timestamp raid = PointsData.timestamp pd
    /\ Raid.scale raid = ""
    /\ Raid.scale (withDuration dd raid) = s
    /\ isScaleLargeEnough (Raid.scale (withDuration dd raid)) = false
    /\ last (recentRaids w') = Some (withDuration dd raid).
Proof.
  intros Hfresh Htp Hnotime Hnone Hplace Hd Hl Hclient Hn Hsoon Hscale Hsmall w'.
  unfold w', run. cbn [foldl]. clear w'.
  unfold deliver. cbn [event]. unfold appendToSheet.
  rewrite !tryCatch_rethrow, bind_ret_world.
  set (wa := atArrival (mkDelivery t1 (Success (Some n) :: rest) (Points pd)) w).
  destruct (opening_appends pd tp n rest wa) as
    (raid & Hlast & Hrow & Hts & Htime & Hscale0 & (m1 & Hm1 & Hin1) & Hclient1);
    try done.
  set (w1 := (handleRaidCompletion pd wa).2) in *.
  set (wb := atArrival (mkDelivery t2 answers2 (Duration dd)) w1).
  destruct (duration_updates_the_row dd raid n wb) as [(m2 & Hm2 & Hin2) Hlast2];
    try done.
  { split; [|by rewrite Htime]. rewrite Hts. exact Hsoon. }
  apply list_elem_of_split in Hin1 as (before & l2 & ->).
  apply list_elem_of_split in Hin2 as (l3 & after & ->).
  assert (Hwith : Raid.scale (withDuration dd raid) = s).
  { unfold withDuration. by rewrite Hscale. }
  exists raid, before, (l2 ++ l3), after. split_and?; try done.
  - rewrite Hm2. change (trace wb) with (trace w1). rewrite Hm1.
    change (trace wa) with (trace w). by rewrite <- !app_assoc.
  - rewrite Hwith. by apply isScaleLargeEnough_false.
Qed.

Lemma small_team_is_logged_when_points_come_first_witness :
  exists raid before between after,
    trace (run [mkDelivery 1700000000100 [Success (Some 2)] (Points pointsFirst);
                mkDelivery 1700000002100 [] (Duration smallTeamDuration)] (startup true))
    = trace (startup true) ++ before ++ Append (raidToRow raid) :: between
      ++ Update 2 (raidToRow (withDuration smallTeamDuration raid)) :: after
    /\ Raid.timestamp raid = 1700000000000
    /\ Raid.scale raid = ""
    /\ Raid.scale (withDuration smallTeamDuration raid) = "8-10"
    /\ isScaleLargeEnough (Raid.scale (withDuration smallTeamDuration raid)) = false
    /\ last (recentRaids
               (run [mkDelivery 1700000000100 [Success (Some 2)] (Points pointsFirst);
                     mkDelivery 1700000002100 [] (Duration smallTeamDuration)]
                    (startup true)))
       = Some (withDuration smallTeamDuration raid).
Proof.
  apply (small_team_is_logged_when_points_come_first pointsFirst smallTeamDuration
           (startup true) 61000 2 "8-10" 1700000000100 1700000002100 [] []);
    try reflexivity; by vm_compute.
Defined.

(** * Configuration, logger and connection *)

(** X16. What [loadConfig] ends in, for every environment. Missing
    credentials are reported first, whatever else is missing; then the
    required variables that are not set, all of them; then unreadable
    JSON credentials, also when a path is given beside them. The
    [TypeError] of [path.resolve] cannot occur. A configuration is only
    returned with the three required variables set; its credentials are
    the parsed JSON whenever the JSON variable is set, and the resolved
    path otherwise; its log level is [LOG_LEVEL], or 'info' when that is
    unset or empty. *)
Theorem loadConfig_outcomes {Json : Type} (parseJson : string -> option Json)
    (resolve : string -> string) (env : Config.Env) :
  let set := Config.isSet env in
  match Config.loadConfig parseJson resolve env with
  | inl Config.CredentialsMissing =>
      ~ set "GOOGLE_CREDENTIALS_PATH" /\ ~ set "GOOGLE_CREDENTIALS_JSON"
  | inl (Config.MissingVariables missing) =>
      (set "GOOGLE_CREDENTIALS_PATH" \/ set "GOOGLE_CREDENTIALS_JSON")
      /\ missing <> []
      /\ forall key, key ∈ missing <-> key ∈ Config.required /\ ~ set key
  | inl Config.InvalidCredentialsJson =>
      Forall set Config.required
      /\ set "GOOGLE_CREDENTIALS_JSON"
      /\ parseJson (orEmpty (env "GOOGLE_CREDENTIALS_JSON")) = None
  | inl Config.PathNotAString => False
  | inr config =>
      Forall set Config.required
      /\ match Config.credentials config with
         | Config.FromJson credentials =>
             set "GOOGLE_CREDENTIALS_JSON"
             /\ parseJson (orEmpty (env "GOOGLE_CREDENTIALS_JSON")) = Some credentials
         | Config.FromPath keyFile =>
             ~ set "GOOGLE_CREDENTIALS_JSON"
             /\ set "GOOGLE_CREDENTIALS_PATH"
             /\ exists credentialsPath,
                  env "GOOGLE_CREDENTIALS_PATH" = Some credentialsPath
                  /\ keyFile = resolve credentialsPath
         end
      /\ (if truthyOpt (env "LOG_LEVEL")
          then env "LOG_LEVEL" = Some (Config.level config)
          else Config.level config = "info")
  end.
Proof.
  cbv zeta. unfold Config.loadConfig, Config.validateConfig, Config.isSet. cbv zeta.
  destruct (truthyOpt (env "GOOGLE_CREDENTIALS_PATH")) eqn:Hpath;
    destruct (truthyOpt (env "GOOGLE_CREDENTIALS_JSON")) eqn:Hjson;
    cbn [negb andb].
  4: { split; congruence. }
  all: assert (Hmissing : forall key,
         key ∈ List.filter (fun key => negb (truthyOpt (env key))) Config.required
         <-> key ∈ Config.required /\ ~ truthyOpt (env key) = true).
  1, 3, 5: intros key; rewrite !list_elem_of_In, filter_In, negb_true_iff;
    by destruct (truthyOpt (env key)); intuition.
  all: assert (Hnone : List.filter (fun key => negb (truthyOpt (env key))) Config.required
                       = [] -> Forall (fun key => truthyOpt (env key) = true) Config.required).
  1, 3, 5: (intros Hnil; apply Forall_forall; intros key Hkey;
            destruct (truthyOpt (env key)) eqn:E; [done|];
            assert (Hin : key ∈ [])
              by (rewrite <- Hnil; apply Hmissing; split; [done | congruence]);
            by apply elem_of_nil in Hin).
  all: destruct (List.filter _ Config.required) as [|key missing] eqn:Hfilter;
    cbn [length Nat.ltb Nat.leb].
  all: try (split_and?; [auto | done | exact Hmissing]).
  all: specialize (Hnone eq_refl).
  all: unfold Config.getGoogleCredentials; rewrite Hjson.
  - destruct (parseJson _) as [credentials|] eqn:Hparse; cbn [Config.credentials Config.level].
    + unfold orNull. split_and?; [done | done | done |].
      by destruct (truthyOpt (env "LOG_LEVEL")) eqn:Hl; [destruct (env "LOG_LEVEL")|].
    + by split_and?.
  - destruct (env "GOOGLE_CREDENTIALS_PATH") as [credentialsPath|] eqn:Hp; [|done].
    cbn [Config.credentials Config.level]. unfold orNull.
    split_and?; [done | congruence | done | by exists credentialsPath |].
    by destruct (truthyOpt (env "LOG_LEVEL")) eqn:Hl; [destruct (env "LOG_LEVEL")|].
  - destruct (parseJson _) as [credentials|] eqn:Hparse; cbn [Config.credentials Config.level].
    + unfold orNull. split_and?; [done | done | done |].
      by destruct (truthyOpt (env "LOG_LEVEL")) eqn:Hl; [destruct (env "LOG_LEVEL")|].
    + by split_and?.
Qed.


Lemma handleAll_exited c signals :
  Bot.exited c = true -> Bot.handleAll c signals = c.
Proof.
  intros Hc. induction signals as [|s signals IH]; [done|].
  unfold Bot.handleAll in *. cbn [foldl]. unfold Bot.handle at 2. by rewrite Hc.
Qed.

(** X18. Once the first ready event has removed its listener the counter
    of reconnects is never reset again: of all the disconnects and
    rejected logins of the process, however many successful reconnects
    lie between them, only those up to the fifth attempt schedule a
    login (the k-th after k times 5 s), and the next one ends the
    process. *)
Theorem reconnects_are_counted_for_life (c : Bot.Connection) (signals : list Bot.Signal) :
  Bot.readyListener c = false ->
  Bot.exited c = false ->
  (Bot.reconnectAttempts c <= Bot.MAX_RECONNECT_ATTEMPTS)%nat ->
  let left := (Bot.MAX_RECONNECT_ATTEMPTS - Bot.reconnectAttempts c)%nat in
  let calls := length (List.filter Bot.reconnects signals) in
  let c' := Bot.handleAll c signals in
  Bot.scheduled c'
  = Bot.scheduled c
    ++ map (fun k => Bot.RECONNECT_DELAY * Z.of_nat k)
           (seq (S (Bot.reconnectAttempts c)) (Nat.min calls left))
  /\ Bot.reconnectAttempts c' = (Bot.reconnectAttempts c + Nat.min calls left)%nat
  /\ Bot.exited c' = (left <? calls)%nat.
Proof.
  cbv zeta. revert c. induction signals as [|s signals IH]; intros c Hready Halive Hle.
  { simpl. rewrite app_nil_r. split_and?; [done | lia |].
    rewrite Halive. symmetry. apply Nat.ltb_ge. lia. }
  unfold Bot.handleAll. cbn [foldl]. fold (Bot.handleAll (Bot.handle c s) signals).
  assert (Hstep : Bot.handle c s
                  = if Bot.reconnects s then Bot.attemptReconnect c else c).
  { unfold Bot.handle. rewrite Halive. destruct s; simpl; [by rewrite Hready | done..]. }
  rewrite Hstep. clear Hstep. cbn [List.filter].
  destruct (Bot.reconnects s); [|by apply IH].
  cbn [length]. set (calls := length (List.filter Bot.reconnects signals)).
  unfold Bot.attemptReconnect.
  destruct (Bot.MAX_RECONNECT_ATTEMPTS <=? Bot.reconnectAttempts c)%nat eqn:Hmax.
  - apply Nat.leb_le in Hmax. rewrite handleAll_exited by done.
    cbn [Bot.scheduled Bot.reconnectAttempts Bot.exited].
    replace (Bot.MAX_RECONNECT_ATTEMPTS - Bot.reconnectAttempts c)%nat with 0%nat by lia.
    rewrite Nat.min_0_r. simpl. rewrite app_nil_r. split_and?; [done | lia | done].
  - apply Nat.leb_gt in Hmax.
    set (c1 := Bot.mkConnection _ _ _ _).
    destruct (IH c1) as (Hs1 & Ha1 & He1); [done | done | simpl; lia |].
    fold calls in Hs1, Ha1, He1. rewrite Hs1, Ha1, He1. unfold c1.
    cbn [Bot.scheduled Bot.reconnectAttempts].
    replace (Bot.MAX_RECONNECT_ATTEMPTS - Bot.reconnectAttempts c)%nat
      with (S (Bot.MAX_RECONNECT_ATTEMPTS - S (Bot.reconnectAttempts c)))%nat by lia.
    rewrite <- Nat.succ_min_distr. cbn [seq map]. rewrite <- app_assoc.
    split_and?; [done | lia | done].
Qed.

Lemma reconnects_are_counted_for_life_witness :
  Bot.scheduled (Bot.handleAll connected longSession) = [5000; 10000; 15000; 20000; 25000]
  /\ Bot.reconnectAttempts (Bot.handleAll connected longSession) = 5%nat
  /\ Bot.exited (Bot.handleAll connected longSession) = true.
Proof.
  apply (reconnects_are_counted_for_life connected longSession);
    [reflexivity | reflexivity | unfold Bot.MAX_RECONNECT_ATTEMPTS; simpl; lia].
Defined.

(** ** Intake of messages *)

(** X19. A message that fails does not stop the queue. The loop of
    [processMessageQueue] never throws and settles every queued message:
    each one is processed, in the order of arrival, exactly as
    [processMessage] processes it in the world its predecessors left,
    whether these succeeded or failed, and its promise is resolved or
    rejected with that result. A message from the bot itself, from
    another channel, older than five minutes or without text is dropped
    without being parsed: it changes nothing. *)
Theorem a_failed_message_does_not_stop_the_queue
    (parse : Z -> string -> string -> option Event) (me channel : string)
    (queue : list Discord.Message) (w : World) :
  let process := Discord.processMessage parse me channel in
  let after := Discord.worldAfter parse me channel in
  (exists outcomes,
      Discord.processMessageQueue parse me channel queue w = (Ok outcomes, after queue w)
      /\ length outcomes = length queue
      /\ forall before message rest,
           queue = before ++ message :: rest ->
           outcomes !! length before = Some (process message (after before w)).1)
  /\ (forall message, Discord.dropped me channel message w -> process message w = (Ok tt, w)).
Proof.
  cbv zeta. split.
  - revert w. induction queue as [|first queue IH]; intros w.
    { exists []. split_and?; [done..|]. intros [|? ?] ? ? [=]. }
    cbn [Discord.processMessageQueue].
    unfold Discord.worldAfter at 1. cbn [foldl].
    fold (Discord.worldAfter parse me channel queue
            (Discord.processMessage parse me channel first w).2).
    set (w1 := (Discord.processMessage parse me channel first w).2).
    assert (Hsettled :
              tryCatch (Discord.processMessage parse me channel first ;; ret (Ok tt))
                       (fun error => ret (Throw error)) w
              = (Ok (Discord.processMessage parse me channel first w).1, w1)).
    { unfold tryCatch, bind, ret, w1.
      by destruct (Discord.processMessage parse me channel first w) as [[[]|e] w']. }
    destruct (IH w1) as (outcomes & Hrun & Hlen & Heach).
    exists ((Discord.processMessage parse me channel first w).1 :: outcomes). split_and?.
    + by rewrite (bind_Ok _ _ _ _ _ Hsettled), (bind_Ok _ _ _ _ _ Hrun).
    + simpl. by rewrite Hlen.
    + intros [|b before] message rest Hqueue; simplify_eq/=; [done|].
      by apply (Heach before message rest).
  - intros message Hdropped. unfold Discord.processMessage.
    destruct (String.eqb_spec (Discord.authorId message) me) as [|Hauthor]; [done|].
    destruct (String.eqb_spec (Discord.channelId message) channel) as [Hchannel|];
      [|done].
    cbn [negb]. rewrite bind_get.
    destruct (clock w - Discord.createdTimestamp message >? Discord.MAX_MESSAGE_AGE)
      eqn:Hage; [done|].
    destruct Hdropped as [?|[?|[?|[Hcontent Hembeds]]]]; [done | done | lia |].
    unfold Discord.contentSources. rewrite Hcontent. cbn [app].
    replace (flat_map _ (Discord.embeds message)) with (@nil string); [done|].
    induction Hembeds as [|description embeds Hd _ IHe]; [done|].
    cbn [flat_map]. unfold orNull at 1. by rewrite Hd.
Qed.

Lemma a_failed_message_does_not_stop_the_queue_witness :
  (Discord.processMessageQueue samePoints "bot" "42" [firstMessage; secondMessage]
     serviceDown).1
  = Ok [Throw (ApiError 500 false); Ok tt].
Proof.
  destruct (a_failed_message_does_not_stop_the_queue samePoints "bot" "42"
              [firstMessage; secondMessage] serviceDown)
    as [(outcomes & Hrun & Hlen & Heach) _].
  rewrite Hrun. cbn [fst]. f_equal.
  pose proof (Heach [] firstMessage [secondMessage] eq_refl) as H0.
  pose proof (Heach [firstMessage] secondMessage [] eq_refl) as H1.
  destruct outcomes as [|o0 [|o1 [|o2 outcomes]]]; try discriminate.
  vm_compute in H0, H1. by simplify_eq.
Defined.
